(** * Customer reconciliation: merge engine, diff engine and lookup orchestration

    A shallow embedding of the TypeScript sources

    - [src/customer/domain/value-objects/email.vo.ts]
    - [src/customer/domain/entities/customer.entity.ts]
    - [src/customer/domain/services/customer-merge.service.ts]
    - [src/customer/application/use-cases/get-customer-by-email.use-case.ts]
    - [src/customer/application/use-cases/search-customers.use-case.ts]
    - [src/customer/application/use-cases/sync-customer.use-case.ts]

    followed by the properties of the specification, each stated over the
    embedded functions.

    Conventions.  A JavaScript string is a [string] of code units; the model
    covers the code units 0..255, where [toLowerCase], [trim] and the regular
    expression class [\s] are exactly what ECMAScript defines.  [null] and
    [undefined] of a [T | null] field are [None].  A [Date] is its time value,
    or [InvalidDate] when the time value is NaN.  A thrown exception is the
    [Throw] branch of [Result]. *)

From Stdlib Require Import String Ascii List ZArith Bool Lia.
Import ListNotations.
Open Scope string_scope.

(** ** The platform: strings, regular expressions, dates, ordered maps *)

Module Js.

(** *** Exceptions and completion records *)

Inductive Exception : Type :=
| Error (message : string)
| RangeError (message : string)
| CustomerNotFoundException (email : string)
| Rejection.

Inductive Result (T : Type) : Type :=
| Ok (value : T)
| Throw (e : Exception).
Arguments Ok {T} value.
Arguments Throw {T} e.

Definition bind {T U : Type} (r : Result T) (k : T -> Result U) : Result U :=
  match r with
  | Ok v => k v
  | Throw e => Throw e
  end.

(** A settled promise of a collaborator.  The reason of a rejection is kept
    opaque: it is whatever the collaborator raised, never one of the
    exceptions this code base throws itself. *)
Inductive Settled (T : Type) : Type :=
| Resolved (value : T)
| Rejected.
Arguments Resolved {T} value.
Arguments Rejected {T}.

(** [await Promise.all([p, q])] *)
Definition awaitAll2 {T U : Type} (p : Settled T) (q : Settled U)
  : Result (T * U) :=
  match p, q with
  | Resolved x, Resolved y => Ok (x, y)
  | _, _ => Throw Rejection
  end.

(** *** Strings *)

Definition code (c : ascii) : N := N_of_ascii c.

(** WhiteSpace and LineTerminator code points below 256:
    TAB, LF, VT, FF, CR, SP, NBSP. *)
Definition isWhiteSpace (c : ascii) : bool :=
  let n := code c in
  ((9 <=? n) && (n <=? 13) || (n =? 32) || (n =? 160))%N.

(** Simple lower-case mapping of the code points below 256: A-Z, and the
    Latin-1 capitals U+00C0..U+00DE except the multiplication sign. *)
Definition lowerChar (c : ascii) : ascii :=
  let n := code c in
  if ((65 <=? n) && (n <=? 90)
      || (192 <=? n) && (n <=? 222) && negb (n =? 215))%N
  then ascii_of_N (n + 32)
  else c.

Fixpoint toLowerCase (s : string) : string :=
  match s with
  | EmptyString => EmptyString
  | String c r => String (lowerChar c) (toLowerCase r)
  end.

Fixpoint trimStart (s : string) : string :=
  match s with
  | EmptyString => EmptyString
  | String c r => if isWhiteSpace c then trimStart r else s
  end.

Fixpoint trimEnd (s : string) : string :=
  match s with
  | EmptyString => EmptyString
  | String c r =>
      match trimEnd r with
      | EmptyString => if isWhiteSpace c then EmptyString else String c EmptyString
      | r' => String c r'
      end
  end.

Definition trim (s : string) : string := trimEnd (trimStart s).

(** Truthiness of a [string | null] value: [null] and the empty string are
    falsy. *)
Definition truthy (v : option string) : bool :=
  match v with
  | None => false
  | Some EmptyString => false
  | Some _ => true
  end.

(** [x ?? y] *)
Definition nullish {T : Type} (x y : option T) : option T :=
  match x with
  | Some _ => x
  | None => y
  end.

(** [x === y] on [string | null] *)
Definition strictEq (x y : option string) : bool :=
  match x, y with
  | None, None => true
  | Some s, Some t => String.eqb s t
  | _, _ => false
  end.

(** *** Regular expressions (the fragment the code uses) *)

Inductive ClassItem : Type :=
| ClassSpace                 (* \s *)
| ClassChar (c : ascii).

Inductive Regex : Type :=
| Void
| Eps
| Chr (c : ascii)
| NotIn (items : list ClassItem)     (* [^...] *)
| Alt (r1 r2 : Regex)
| Seq (r1 r2 : Regex)
| Star (r : Regex).

(** [r+] *)
Definition Plus (r : Regex) : Regex := Seq r (Star r).

Definition inItem (c : ascii) (i : ClassItem) : bool :=
  match i with
  | ClassSpace => isWhiteSpace c
  | ClassChar d => Ascii.eqb c d
  end.

Definition inClass (c : ascii) (items : list ClassItem) : bool :=
  existsb (inItem c) items.

Fixpoint nullable (r : Regex) : bool :=
  match r with
  | Void => false
  | Eps => true
  | Chr _ => false
  | NotIn _ => false
  | Alt r1 r2 => nullable r1 || nullable r2
  | Seq r1 r2 => nullable r1 && nullable r2
  | Star _ => true
  end.

Fixpoint deriv (c : ascii) (r : Regex) : Regex :=
  match r with
  | Void => Void
  | Eps => Void
  | Chr d => if Ascii.eqb c d then Eps else Void
  | NotIn items => if inClass c items then Void else Eps
  | Alt r1 r2 => Alt (deriv c r1) (deriv c r2)
  | Seq r1 r2 =>
      if nullable r1
      then Alt (Seq (deriv c r1) r2) (deriv c r2)
      else Seq (deriv c r1) r2
  | Star r1 => Seq (deriv c r1) (Star r1)
  end.

(** [/^r$/.test(s)]: without flags the anchors are the two ends of [s]. *)
Fixpoint test (r : Regex) (s : string) : bool :=
  match s with
  | EmptyString => nullable r
  | String c s' => test (deriv c r) s'
  end.

(** The strings a regular expression denotes. *)
Inductive matches : Regex -> string -> Prop :=
| MEps : matches Eps ""
| MChr (c : ascii) : matches (Chr c) (String c "")
| MNotIn (items : list ClassItem) (c : ascii) :
    inClass c items = false -> matches (NotIn items) (String c "")
| MAltL (r1 r2 : Regex) (s : string) : matches r1 s -> matches (Alt r1 r2) s
| MAltR (r1 r2 : Regex) (s : string) : matches r2 s -> matches (Alt r1 r2) s
| MSeq (r1 r2 : Regex) (s1 s2 : string) :
    matches r1 s1 -> matches r2 s2 -> matches (Seq r1 r2) (s1 ++ s2)
| MStar0 (r : Regex) : matches (Star r) ""
| MStarS (r : Regex) (s1 s2 : string) :
    matches r s1 -> matches (Star r) s2 -> matches (Star r) (s1 ++ s2).

(** *** Dates *)

Inductive Date : Type :=
| ValidDate (t : Z)      (* milliseconds since the epoch *)
| InvalidDate.           (* time value NaN *)

(** [x > y] and [x >= y] on dates compare the time values as numbers; any
    comparison with NaN is false. *)
Definition date_gt (x y : Date) : bool :=
  match x, y with
  | ValidDate t, ValidDate u => (t >? u)%Z
  | _, _ => false
  end.

Definition date_ge (x y : Date) : bool :=
  match x, y with
  | ValidDate t, ValidDate u => (t >=? u)%Z
  | _, _ => false
  end.

Definition digit (n : Z) : ascii := ascii_of_N (48 + Z.to_N (n mod 10)).

(** The [width] least significant decimal digits of [n]. *)
Fixpoint pad (width : nat) (n : Z) : string :=
  match width with
  | O => EmptyString
  | S w => pad w (n / 10) ++ String (digit n) EmptyString
  end.

Definition msPerDay : Z := 86400000.

(** Year, month and day of the proleptic Gregorian calendar for a day number
    counted from 1970-01-01. *)
Definition civilFromDays (days : Z) : Z * Z * Z :=
  let z := (days + 719468)%Z in
  let era := (z / 146097)%Z in
  let doe := (z - era * 146097)%Z in
  let yoe := ((doe - doe / 1460 + doe / 36524 - doe / 146096) / 365)%Z in
  let doy := (doe - (365 * yoe + yoe / 4 - yoe / 100))%Z in
  let mp := ((5 * doy + 2) / 153)%Z in
  let d := (doy - (153 * mp + 2) / 5 + 1)%Z in
  let m := (if mp <? 10 then mp + 3 else mp - 9)%Z in
  let y := (yoe + era * 400 + (if m <=? 2 then 1 else 0))%Z in
  (y, m, d).

Definition yearString (y : Z) : string :=
  if ((0 <=? y) && (y <=? 9999))%Z then pad 4 y
  else if (y <? 0)%Z then "-" ++ pad 6 (- y)
  else "+" ++ pad 6 y.

(** [Date.prototype.toISOString]: throws a RangeError on an invalid date. *)
Definition toISOString (d : Date) : Result string :=
  match d with
  | InvalidDate => Throw (RangeError "Invalid time value")
  | ValidDate t =>
      let day := (t / msPerDay)%Z in
      let ms := (t mod msPerDay)%Z in
      let '(y, m, dd) := civilFromDays day in
      Ok (yearString y ++ "-" ++ pad 2 m ++ "-" ++ pad 2 dd ++ "T"
          ++ pad 2 (ms / 3600000) ++ ":" ++ pad 2 (ms / 60000 mod 60) ++ ":"
          ++ pad 2 (ms / 1000 mod 60) ++ "." ++ pad 3 (ms mod 1000) ++ "Z")
  end.

(** *** [Map<string, V>] and [Set<string>], in insertion order *)

Definition Map (V : Type) : Type := list (string * V).

Fixpoint mapGet {V : Type} (m : Map V) (k : string) : option V :=
  match m with
  | [] => None
  | (k', v) :: m' => if String.eqb k k' then Some v else mapGet m' k
  end.

Definition mapHas {V : Type} (m : Map V) (k : string) : bool :=
  match mapGet m k with
  | Some _ => true
  | None => false
  end.

(** [m.set(k, v)]: an existing key keeps its position. *)
Fixpoint mapSet {V : Type} (m : Map V) (k : string) (v : V) : Map V :=
  match m with
  | [] => [(k, v)]
  | (k', v') :: m' =>
      if String.eqb k k' then (k, v) :: m' else (k', v') :: mapSet m' k v
  end.

Definition mapKeys {V : Type} (m : Map V) : list string := map fst m.

Definition mapValues {V : Type} (m : Map V) : list V := map snd m.

Definition setHas (s : list string) (k : string) : bool :=
  existsb (String.eqb k) s.

Definition setAdd (s : list string) (k : string) : list string :=
  if setHas s k then s else s ++ [k].

(** [new Set(keys)] *)
Definition newSet (keys : list string) : list string :=
  fold_left setAdd keys [].

End Js.
Import Js.

Notation "x <- c1 ;; c2" := (Js.bind c1 (fun x => c2))
  (at level 61, c1 at next level, right associativity).

(** ** Domain *)

(** [domain/enums/source-system.enum.ts] *)
Inductive SourceSystem : Type :=
| SYSTEM_A
| SYSTEM_B
| BOTH.

Definition SourceSystem_eqb (x y : SourceSystem) : bool :=
  match x, y with
  | SYSTEM_A, SYSTEM_A | SYSTEM_B, SYSTEM_B | BOTH, BOTH => true
  | _, _ => false
  end.

(** [domain/value-objects/email.vo.ts] *)
Module Email.

Record t : Type := mk { value : string }.

(** [[^\s@]] *)
Definition atom : Regex := NotIn [ClassSpace; ClassChar "@"].

(** [/^[^\s@]+@[^\s@]+\.[^\s@]+$/] *)
Definition emailRegex : Regex :=
  Seq (Plus atom) (Seq (Chr "@") (Seq (Plus atom) (Seq (Chr ".") (Plus atom)))).

Definition isValid (email : string) : bool := test emailRegex email.

Definition new (email : string) : Result t :=
  let normalized := trim (toLowerCase email) in
  if negb (isValid normalized)
  then Throw (Error ("Invalid email format: " ++ email))
  else Ok (mk normalized).

Definition equals (this other : t) : bool :=
  String.eqb (value this) (value other).

End Email.

(** [domain/entities/customer.entity.ts] *)
Module Customer.

(** The constructor's parameter object; an optional property that is left
    out, [undefined] or [null] is [None].  [address] is declared a string and
    copied as it comes; the merge service tests it against [null], so the
    record admits an address that is not there. *)
Record params : Type := mkParams {
  p_id : string;
  p_email : string;
  p_name : string;
  p_address : option string;
  p_phone : option string;
  p_contractStartDate : option string;
  p_contractType : option string;
  p_lastUpdated : Date;
  p_source : SourceSystem
}.

Record t : Type := mk {
  id : string;
  email : string;
  name : string;
  address : option string;
  phone : option string;
  contractStartDate : option string;
  contractType : option string;
  lastUpdated : Date;
  source : SourceSystem
}.

Definition new (p : params) : t :=
  {| id := p_id p;
     email := trim (toLowerCase (p_email p));
     name := p_name p;
     address := p_address p;
     phone := nullish (p_phone p) None;
     contractStartDate := nullish (p_contractStartDate p) None;
     contractType := nullish (p_contractType p) None;
     lastUpdated := p_lastUpdated p;
     source := p_source p |}.

End Customer.

Definition Customer : Type := Customer.t.

(** [!c] on a [Customer | null]: an object is truthy. *)
Definition absent (c : option Customer) : bool :=
  match c with
  | None => true
  | Some _ => false
  end.

(** [domain/services/customer-merge.service.ts]: the output types *)

Module FieldMetadata.
(** [systemAValue] and [systemBValue] are optional properties of type
    [string | null]: the outer [None] is a property that was not set. *)
Record t : Type := mk {
  source : SourceSystem;
  conflict : bool;
  systemAValue : option (option string);
  systemBValue : option (option string)
}.
End FieldMetadata.

Module Metadata.
Record t : Type := mk {
  sources : list SourceSystem;
  isPartial : bool;
  conflictsDetected : bool;
  fields : Js.Map FieldMetadata.t
}.

(** [m.isPartial = v] *)
Definition setIsPartial (m : t) (v : bool) : t :=
  {| sources := sources m;
     isPartial := v;
     conflictsDetected := conflictsDetected m;
     fields := fields m |}.
End Metadata.

Module Identifiers.
Record t : Type := mk {
  systemAId : option string;
  systemBUuid : option string
}.
End Identifiers.

Module Unified.
Record t : Type := mk {
  email : string;
  name : string;
  phone : option string;
  address : option string;
  contractStartDate : option string;
  contractType : option string;
  identifiers : Identifiers.t;
  _metadata : Metadata.t
}.

(** [u._metadata.isPartial = v] *)
Definition setIsPartial (u : t) (v : bool) : t :=
  {| email := email u;
     name := name u;
     phone := phone u;
     address := address u;
     contractStartDate := contractStartDate u;
     contractType := contractType u;
     identifiers := identifiers u;
     _metadata := Metadata.setIsPartial (_metadata u) v |}.
End Unified.

Definition UnifiedCustomerOutput : Type := Unified.t.

Module FieldConflict.
Record t : Type := mk {
  field : string;
  systemAValue : option string;
  systemBValue : option string;
  newerSource : SourceSystem
}.
End FieldConflict.

Inductive SyncStatus : Type :=
| in_sync
| conflicts_found
| single_source_only.

Module LastUpdated.
Record t : Type := mk {
  systemA : option string;
  systemB : option string
}.
End LastUpdated.

Module SyncResult.
Record t : Type := mk {
  email : string;
  status : SyncStatus;
  presentIn : option SourceSystem;
  lastUpdated : LastUpdated.t;
  conflicts : list FieldConflict.t;
  matchedFields : list string
}.
End SyncResult.

Definition SyncResultOutput : Type := SyncResult.t.

(** [domain/services/customer-merge.service.ts]: [CustomerMergeService] *)
Module CustomerMergeService.

(** An entry of [fields] without a value pair: [{ source, conflict: false }]. *)
Definition plain (source : SourceSystem) : FieldMetadata.t :=
  FieldMetadata.mk source false None None.

(** An entry of [fields] built with the spread
    [...(conflict && { systemAValue, systemBValue })]. *)
Definition flagged (source : SourceSystem) (conflict : bool)
           (aValue bValue : option string) : FieldMetadata.t :=
  FieldMetadata.mk source conflict
    (if conflict then Some aValue else None)
    (if conflict then Some bValue else None).

(** [v != null] *)
Definition notNull (v : option string) : bool :=
  match v with
  | None => false
  | Some _ => true
  end.

(** [if (v) fields[key] = { source, conflict: false }] *)
Definition setIfTruthy (fields : Js.Map FieldMetadata.t) (key : string)
           (v : option string) (source : SourceSystem)
  : Js.Map FieldMetadata.t :=
  if truthy v then mapSet fields key (plain source) else fields.

(** [if (x) fields[key] = {first} else if (y) fields[key] = {second}] *)
Definition setPreferred (fields : Js.Map FieldMetadata.t) (key : string)
           (x : option string) (first : SourceSystem)
           (y : option string) (second : SourceSystem)
  : Js.Map FieldMetadata.t :=
  if truthy x then mapSet fields key (plain first)
  else if truthy y then mapSet fields key (plain second)
  else fields.

Definition mergeFromBothSystems (systemA systemB : Customer)
  : UnifiedCustomerOutput :=
  let fields : Js.Map FieldMetadata.t := [] in
  (* Name *)
  let nameConflict :=
    negb (String.eqb (Customer.name systemA) (Customer.name systemB)) in
  let newerNameSource :=
    if date_gt (Customer.lastUpdated systemB) (Customer.lastUpdated systemA)
    then SYSTEM_B else SYSTEM_A in
  let fields :=
    mapSet fields "name"
      (flagged (if nameConflict then newerNameSource else BOTH) nameConflict
         (Some (Customer.name systemA)) (Some (Customer.name systemB))) in
  (* Phone *)
  let fields :=
    setPreferred fields "phone"
      (Customer.phone systemB) SYSTEM_B (Customer.phone systemA) SYSTEM_A in
  (* Address *)
  let addressConflict :=
    negb (strictEq (Customer.address systemA) (Customer.address systemB))
    && notNull (Customer.address systemA)
    && notNull (Customer.address systemB) in
  let fields :=
    mapSet fields "address"
      (flagged SYSTEM_B addressConflict
         (Customer.address systemA) (Customer.address systemB)) in
  (* Contract start date *)
  let fields :=
    setPreferred fields "contractStartDate"
      (Customer.contractStartDate systemA) SYSTEM_A
      (Customer.contractStartDate systemB) SYSTEM_B in
  (* Contract type *)
  let fields :=
    setPreferred fields "contractType"
      (Customer.contractType systemA) SYSTEM_A
      (Customer.contractType systemB) SYSTEM_B in
  let conflictsDetected :=
    existsb FieldMetadata.conflict (mapValues fields) in
  let mergedName :=
    if date_gt (Customer.lastUpdated systemB) (Customer.lastUpdated systemA)
    then Customer.name systemB else Customer.name systemA in
  {| Unified.email := Customer.email systemA;
     Unified.name := mergedName;
     Unified.phone := nullish (Customer.phone systemB) (Customer.phone systemA);
     Unified.address := Customer.address systemB;
     Unified.contractStartDate :=
       nullish (Customer.contractStartDate systemA)
               (Customer.contractStartDate systemB);
     Unified.contractType :=
       nullish (Customer.contractType systemA) (Customer.contractType systemB);
     Unified.identifiers :=
       {| Identifiers.systemAId := Some (Customer.id systemA);
          Identifiers.systemBUuid := Some (Customer.id systemB) |};
     Unified._metadata :=
       {| Metadata.sources := [SYSTEM_A; SYSTEM_B];
          Metadata.isPartial := false;
          Metadata.conflictsDetected := conflictsDetected;
          Metadata.fields := fields |} |}.

Definition buildSingleSourceResult (customer : Customer) (source : SourceSystem)
  : UnifiedCustomerOutput :=
  let fields : Js.Map FieldMetadata.t := [] in
  let fields := mapSet fields "name" (plain source) in
  let fields :=
    setIfTruthy fields "address" (Customer.address customer) source in
  let fields := setIfTruthy fields "phone" (Customer.phone customer) source in
  let fields :=
    setIfTruthy fields "contractStartDate"
      (Customer.contractStartDate customer) source in
  let fields :=
    setIfTruthy fields "contractType" (Customer.contractType customer) source in
  {| Unified.email := Customer.email customer;
     Unified.name := Customer.name customer;
     Unified.phone := Customer.phone customer;
     Unified.address := Customer.address customer;
     Unified.contractStartDate := Customer.contractStartDate customer;
     Unified.contractType := Customer.contractType customer;
     Unified.identifiers :=
       {| Identifiers.systemAId :=
            if SourceSystem_eqb source SYSTEM_A
            then Some (Customer.id customer) else None;
          Identifiers.systemBUuid :=
            if SourceSystem_eqb source SYSTEM_B
            then Some (Customer.id customer) else None |};
     Unified._metadata :=
       {| Metadata.sources := [source];
          Metadata.isPartial := false;
          Metadata.conflictsDetected := false;
          Metadata.fields := fields |} |}.

Definition noData : Exception :=
  Error "Cannot merge: no customer data from either system".

Definition merge (systemA systemB : option Customer)
  : Result UnifiedCustomerOutput :=
  match systemA, systemB with
  | None, None => Throw noData
  | Some a, None => Ok (buildSingleSourceResult a SYSTEM_A)
  | None, Some b => Ok (buildSingleSourceResult b SYSTEM_B)
  | Some a, Some b => Ok (mergeFromBothSystems a b)
  end.

(** An element of [fieldsToCompare]. *)
Record Compared : Type := mkCompared {
  field : string;
  aVal : option string;
  bVal : option string
}.

Definition fieldsToCompare (systemA systemB : Customer) : list Compared :=
  [ mkCompared "name"
      (Some (Customer.name systemA)) (Some (Customer.name systemB));
    mkCompared "address" (Customer.address systemA) (Customer.address systemB);
    mkCompared "phone" (Customer.phone systemA) (Customer.phone systemB);
    mkCompared "contractStartDate"
      (Customer.contractStartDate systemA) (Customer.contractStartDate systemB);
    mkCompared "contractType"
      (Customer.contractType systemA) (Customer.contractType systemB) ].

(** [v == null] *)
Definition isNull (v : option string) : bool :=
  match v with
  | None => true
  | Some _ => false
  end.

(** One iteration of the comparison loop over the two accumulators. *)
Definition compareStep (newerSource : SourceSystem)
           (acc : list FieldConflict.t * list string) (c : Compared)
  : list FieldConflict.t * list string :=
  let '(conflicts, matchedFields) := acc in
  if isNull (aVal c) && isNull (bVal c) then acc
  else if strictEq (aVal c) (bVal c)
       then (conflicts, (matchedFields ++ [field c])%list)
       else ((conflicts
                ++ [FieldConflict.mk (field c) (aVal c) (bVal c) newerSource])%list,
             matchedFields).

Definition compareAll (newerSource : SourceSystem) (cs : list Compared)
  : list FieldConflict.t * list string :=
  fold_left (compareStep newerSource) cs ([], ["email"]).

Definition diff (systemA systemB : Customer) : Result SyncResultOutput :=
  let newerSource :=
    if date_ge (Customer.lastUpdated systemA) (Customer.lastUpdated systemB)
    then SYSTEM_A else SYSTEM_B in
  let '(conflicts, matchedFields) :=
    compareAll newerSource (fieldsToCompare systemA systemB) in
  isoA <- toISOString (Customer.lastUpdated systemA) ;;
  isoB <- toISOString (Customer.lastUpdated systemB) ;;
  Ok {| SyncResult.email := Customer.email systemA;
        SyncResult.status :=
          if (0 <? length conflicts)%nat then conflicts_found else in_sync;
        SyncResult.presentIn := None;
        SyncResult.lastUpdated := LastUpdated.mk (Some isoA) (Some isoB);
        SyncResult.conflicts := conflicts;
        SyncResult.matchedFields := matchedFields |}.

End CustomerMergeService.

(** [u._metadata.fields[key]] *)
Definition fieldOf (u : UnifiedCustomerOutput) (key : string)
  : option FieldMetadata.t :=
  mapGet (Metadata.fields (Unified._metadata u)) key.

(** ** Application *)

(** [application/interfaces/customer-repository.interface.ts] *)
Record ICustomerRepository : Type := mkRepository {
  findByEmail : string -> Settled (option Customer);
  searchByName : string -> Settled (list Customer);
  isHealthy : Settled bool
}.

(** [(!a && b) || (a && !b)] *)
Definition exactlyOne (a b : option Customer) : bool :=
  (absent a && negb (absent b)) || (negb (absent a) && absent b).

(** [if ((!a && b) || (a && !b)) merged._metadata.isPartial = true] *)
Definition markPartial (a b : option Customer) (merged : UnifiedCustomerOutput)
  : UnifiedCustomerOutput :=
  if exactlyOne a b then Unified.setIsPartial merged true else merged.

(** [application/use-cases/get-customer-by-email.use-case.ts] *)
Module GetCustomerByEmailUseCase.

Definition execute (systemA systemB : ICustomerRepository) (email : string)
  : Result UnifiedCustomerOutput :=
  let normalizedEmail := trim (toLowerCase email) in
  found <- awaitAll2 (findByEmail systemA normalizedEmail)
                     (findByEmail systemB normalizedEmail) ;;
  let '(customerA, customerB) := found in
  if absent customerA && absent customerB
  then Throw (CustomerNotFoundException normalizedEmail)
  else
    result <- CustomerMergeService.merge customerA customerB ;;
    Ok (markPartial customerA customerB result).

End GetCustomerByEmailUseCase.

(** [application/use-cases/sync-customer.use-case.ts] *)
Module SyncCustomerUseCase.

Definition execute (systemA systemB : ICustomerRepository) (email : string)
  : Result SyncResultOutput :=
  let normalizedEmail := trim (toLowerCase email) in
  found <- awaitAll2 (findByEmail systemA normalizedEmail)
                     (findByEmail systemB normalizedEmail) ;;
  match found with
  | (None, None) => Throw (CustomerNotFoundException normalizedEmail)
  | (Some customerA, None) =>
      iso <- toISOString (Customer.lastUpdated customerA) ;;
      Ok {| SyncResult.email := normalizedEmail;
            SyncResult.status := single_source_only;
            SyncResult.presentIn := Some SYSTEM_A;
            SyncResult.lastUpdated := LastUpdated.mk (Some iso) None;
            SyncResult.conflicts := [];
            SyncResult.matchedFields := [] |}
  | (None, Some customerB) =>
      iso <- toISOString (Customer.lastUpdated customerB) ;;
      Ok {| SyncResult.email := normalizedEmail;
            SyncResult.status := single_source_only;
            SyncResult.presentIn := Some SYSTEM_B;
            SyncResult.lastUpdated := LastUpdated.mk None (Some iso);
            SyncResult.conflicts := [];
            SyncResult.matchedFields := [] |}
  | (Some customerA, Some customerB) =>
      CustomerMergeService.diff customerA customerB
  end.

End SyncCustomerUseCase.

(** [application/use-cases/search-customers.use-case.ts] *)
Module SearchCustomersUseCase.

(** [for (const c of customers) map.set(c.email, c)] on a fresh map *)
Definition indexByEmail (customers : list Customer) : Js.Map Customer :=
  fold_left (fun m c => mapSet m (Customer.email c) c) customers [].

(** The cross-reference of one side.  The loop runs before any lookup
    settles, so [has] reads the map as the name search left it; a lookup
    that resolves to a record stores it, one that resolves to [null] or is
    rejected (the empty [catch]) stores nothing.  The emails of the set are
    distinct, so the order in which the lookups settle cannot be observed
    through [get]. *)
Definition crossReference (system : ICustomerRepository)
           (searched : Js.Map Customer) (allEmails : list string)
  : Js.Map Customer :=
  fold_left
    (fun m email =>
       if negb (mapHas searched email)
       then match findByEmail system email with
            | Resolved (Some c) => mapSet m email c
            | _ => m
            end
       else m)
    allEmails searched.

(** The body of the final loop. *)
Definition mergeEmail (mapA mapB : Js.Map Customer) (email : string)
  : Result UnifiedCustomerOutput :=
  let a := nullish (mapGet mapA email) None in
  let b := nullish (mapGet mapB email) None in
  merged <- CustomerMergeService.merge a b ;;
  Ok (markPartial a b merged).

(** [for (const email of allEmails) { ...; results.push(merged) }] *)
Fixpoint mergeEach (mapA mapB : Js.Map Customer) (emails : list string)
  : Result (list UnifiedCustomerOutput) :=
  match emails with
  | [] => Ok []
  | email :: rest =>
      merged <- mergeEmail mapA mapB email ;;
      results <- mergeEach mapA mapB rest ;;
      Ok (merged :: results)
  end.

Definition execute (systemA systemB : ICustomerRepository) (query : string)
  : Result (list UnifiedCustomerOutput) :=
  found <- awaitAll2 (searchByName systemA query) (searchByName systemB query) ;;
  let '(customersA, customersB) := found in
  let mapA := indexByEmail customersA in
  let mapB := indexByEmail customersB in
  let allEmails := newSet (mapKeys mapA ++ mapKeys mapB) in
  let mapA := crossReference systemA mapA allEmails in
  let mapB := crossReference systemB mapB allEmails in
  mergeEach mapA mapB allEmails.

(** Names for the values the body of [execute] computes from the two search
    results: the set of emails, and the two maps after the cross-reference. *)
Definition allEmailsOf (customersA customersB : list Customer) : list string :=
  newSet (mapKeys (indexByEmail customersA) ++ mapKeys (indexByEmail customersB)).

Definition lookupA (systemA : ICustomerRepository)
           (customersA customersB : list Customer) : Js.Map Customer :=
  crossReference systemA (indexByEmail customersA)
                 (allEmailsOf customersA customersB).

Definition lookupB (systemB : ICustomerRepository)
           (customersA customersB : list Customer) : Js.Map Customer :=
  crossReference systemB (indexByEmail customersB)
                 (allEmailsOf customersA customersB).

(** What a cross-reference lookup contributes: the record it resolved to. *)
Definition recovered (system : ICustomerRepository) (email : string)
  : option Customer :=
  match findByEmail system email with
  | Resolved (Some c) => Some c
  | _ => None
  end.

(** What the final loop pushes for [email]: the merge of the two records the
    maps hold for it, marked partial when only one of them is there. *)
Definition mergedFor (mapA mapB : Js.Map Customer)
           (email : string) (u : UnifiedCustomerOutput) : Prop :=
  exists merged,
    CustomerMergeService.merge (mapGet mapA email) (mapGet mapB email) = Ok merged
    /\ u = markPartial (mapGet mapA email) (mapGet mapB email) merged.

End SearchCustomersUseCase.

(** ** Vocabulary of the properties *)

(** What one compared field adds to [conflicts] and to [matchedFields]. *)
Definition conflictOf (newerSource : SourceSystem)
           (c : CustomerMergeService.Compared) : list FieldConflict.t :=
  if CustomerMergeService.isNull (CustomerMergeService.aVal c)
     && CustomerMergeService.isNull (CustomerMergeService.bVal c)
  then []
  else if strictEq (CustomerMergeService.aVal c) (CustomerMergeService.bVal c)
       then []
       else [FieldConflict.mk (CustomerMergeService.field c)
               (CustomerMergeService.aVal c) (CustomerMergeService.bVal c)
               newerSource].

Definition matchOf (c : CustomerMergeService.Compared) : list string :=
  if CustomerMergeService.isNull (CustomerMergeService.aVal c)
     && CustomerMergeService.isNull (CustomerMergeService.bVal c)
  then []
  else if strictEq (CustomerMergeService.aVal c) (CustomerMergeService.bVal c)
       then [CustomerMergeService.field c]
       else [].

(** The validation pattern in words: a local part, an [@], and a domain
    with a dot inside it, where the three parts are non-empty and hold
    neither white space nor [@]. *)
Definition isAtomChar (c : ascii) : bool :=
  negb (isWhiteSpace c) && negb (Ascii.eqb c "@").

Fixpoint allAtom (s : string) : bool :=
  match s with
  | EmptyString => true
  | String c r => isAtomChar c && allAtom r
  end.

Definition part (s : string) : Prop := s <> "" /\ allAtom s = true.

Definition matchesPattern (s : string) : Prop :=
  exists l m r, s = l ++ "@" ++ m ++ "." ++ r /\ part l /\ part m /\ part r.

(** The string neither starts nor would lose a character to [trimStart]. *)
Definition startsClean (s : string) : Prop :=
  match s with
  | EmptyString => True
  | String c _ => isWhiteSpace c = false
  end.

(** [email.toLowerCase().trim()] *)
Definition normalized (email : string) : string := trim (toLowerCase email).

(** Exactly one of two lookups returned a record. *)
Definition onlyOneReturned (a b : option Customer) : Prop :=
  (a <> None /\ b = None) \/ (a = None /\ b <> None).

(** The operation failed with the not-found exception. *)
Definition notFound {T : Type} (result : Result T) : Prop :=
  exists email, result = Throw (CustomerNotFoundException email).

(** The operation failed in the both-absent branch of the merge engine. *)
Definition invariantViolation {T : Type} (result : Result T) : Prop :=
  exists message, result = Throw (Error message).

(** [u._metadata.isPartial] *)
Definition isPartial (u : UnifiedCustomerOutput) : bool :=
  Metadata.isPartial (Unified._metadata u).

(** The field is listed in [matchedFields]. *)
Definition matched (r : SyncResultOutput) (field : string) : Prop :=
  In field (SyncResult.matchedFields r).

(** The field has an entry in [conflicts]. *)
Definition conflicting (r : SyncResultOutput) (field : string) : Prop :=
  exists k, In k (SyncResult.conflicts r) /\ FieldConflict.field k = field.

(** How a diff result must treat a field whose two values are [aVal] and
    [bVal]: skipped when both are absent, matched when they are equal, and
    otherwise reported as a conflict that carries both values. *)
Definition classified (r : SyncResultOutput) (field : string)
           (aVal bVal : option string) : Prop :=
  ((~ matched r field /\ ~ conflicting r field) <-> (aVal = None /\ bVal = None))
  /\ (~ (aVal = None /\ bVal = None) -> aVal = bVal ->
      matched r field /\ ~ conflicting r field)
  /\ (aVal <> bVal ->
      ~ matched r field
      /\ exists k, In k (SyncResult.conflicts r)
                   /\ FieldConflict.field k = field
                   /\ FieldConflict.systemAValue k = aVal
                   /\ FieldConflict.systemBValue k = bVal).

(** ** Sample records, as the unit tests build them *)

Module Samples.

(** [new Date('2024-01-01')] and [new Date('2023-01-01')] *)
Definition d2024 : Date := ValidDate 1704067200000.
Definition d2023 : Date := ValidDate 1672531200000.

Definition makeCustomer (id : string) (phone : option string) (lastUpdated : Date)
           (source : SourceSystem) : Customer :=
  Customer.new
    {| Customer.p_id := id;
       Customer.p_email := "max@example.de";
       Customer.p_name := "Max Mustermann";
       Customer.p_address := Some "Musterstr. 1, 12345 Berlin";
       Customer.p_phone := phone;
       Customer.p_contractStartDate := Some "2020-01-01";
       Customer.p_contractType := Some "premium";
       Customer.p_lastUpdated := lastUpdated;
       Customer.p_source := source |}.

Definition customerA : Customer :=
  makeCustomer "id-a" (Some "+49 111 0000000") d2023 SYSTEM_A.

Definition customerB : Customer :=
  makeCustomer "uuid-b" (Some "+49 222") d2024 SYSTEM_B.

(** System B answers with an empty phone string. *)
Definition customerBNoPhone : Customer :=
  makeCustomer "uuid-b" (Some "") d2024 SYSTEM_B.

(** System A holds the record without an address. *)
Definition customerAWithoutAddress : Customer :=
  Customer.new
    {| Customer.p_id := "id-a";
       Customer.p_email := "max@example.de";
       Customer.p_name := "Max Mustermann";
       Customer.p_address := None;
       Customer.p_phone := Some "+49 111 0000000";
       Customer.p_contractStartDate := Some "2020-01-01";
       Customer.p_contractType := Some "premium";
       Customer.p_lastUpdated := d2023;
       Customer.p_source := SYSTEM_A |}.

(** A record whose email is not an address at all. *)
Definition noAddress : Customer.params :=
  {| Customer.p_id := "legacy_005";
     Customer.p_email := " Not-An-Email ";
     Customer.p_name := "Max Mustermann";
     Customer.p_address := Some "Musterstr. 1, 12345 Berlin";
     Customer.p_phone := None;
     Customer.p_contractStartDate := None;
     Customer.p_contractType := None;
     Customer.p_lastUpdated := d2024;
     Customer.p_source := SYSTEM_A |}.

Definition repository (byEmail : string -> option Customer)
           (byName : list Customer) : ICustomerRepository :=
  {| findByEmail := fun email => Resolved (byEmail email);
     searchByName := fun _ => Resolved byName;
     isHealthy := Resolved true |}.

Definition onlyMax (c : Customer) : ICustomerRepository :=
  repository
    (fun email => if String.eqb email "max@example.de" then Some c else None)
    [c].

Definition empty : ICustomerRepository := repository (fun _ => None) [].

End Samples.

(** ** Further code of the repository *)

(** [String.prototype.includes] *)
Fixpoint includes (s sub : string) : bool :=
  String.prefix sub s
  || match s with
     | EmptyString => false
     | String _ r => includes r sub
     end.

(** [s.split(' ')[0]]: the characters before the first space. *)
Fixpoint firstSegment (s : string) : string :=
  match s with
  | EmptyString => EmptyString
  | String c r => if Ascii.eqb c " " then EmptyString else String c (firstSegment r)
  end.

(** [s || fallback] on strings: the empty string is falsy. *)
Definition orElse (s fallback : string) : string :=
  match s with
  | EmptyString => fallback
  | _ => s
  end.

(** [infrastructure/persistence/entities/customer-a.orm-entity.ts]; the two
    contract columns are nullable, and [address] is whatever [toOrm] copies
    from the domain record. *)
Module CustomerAEntity.
Record t : Type := mk {
  id : string;
  email : string;
  name : string;
  address : option string;
  contractStartDate : option string;
  contractType : option string;
  lastUpdated : string
}.
End CustomerAEntity.

(** [infrastructure/persistence/mappers/customer-a.mapper.ts].  [new Date(s)]
    on a string is the platform's date parser, taken as the parameter
    [parseDate]. *)
Module CustomerAMapper.

Definition toDomain (parseDate : string -> Date) (orm : CustomerAEntity.t)
  : Customer :=
  Customer.new
    {| Customer.p_id := CustomerAEntity.id orm;
       Customer.p_email := CustomerAEntity.email orm;
       Customer.p_name := CustomerAEntity.name orm;
       Customer.p_address := CustomerAEntity.address orm;
       Customer.p_phone := None;
       Customer.p_contractStartDate := CustomerAEntity.contractStartDate orm;
       Customer.p_contractType := CustomerAEntity.contractType orm;
       Customer.p_lastUpdated := parseDate (CustomerAEntity.lastUpdated orm);
       Customer.p_source := SYSTEM_A |}.

(** [v ?? ''] *)
Definition orEmpty (v : option string) : string :=
  match v with
  | Some s => s
  | None => ""
  end.

Definition toOrm (domain : Customer) : Result CustomerAEntity.t :=
  iso <- toISOString (Customer.lastUpdated domain) ;;
  Ok {| CustomerAEntity.id := Customer.id domain;
        CustomerAEntity.email := Customer.email domain;
        CustomerAEntity.name := Customer.name domain;
        CustomerAEntity.address := Customer.address domain;
        CustomerAEntity.contractStartDate :=
          Some (orEmpty (Customer.contractStartDate domain));
        CustomerAEntity.contractType :=
          Some (orEmpty (Customer.contractType domain));
        CustomerAEntity.lastUpdated := iso |}.

End CustomerAMapper.

(** [infrastructure/http/mappers/customer-b.mapper.ts] *)
Module SystemBApiResponse.
Record t : Type := mk {
  uuid : string;
  email : string;
  name : string;
  phone : string;
  address : string;
  last_updated : string
}.
End SystemBApiResponse.

Module CustomerBMapper.

Definition toDomain (parseDate : string -> Date) (data : SystemBApiResponse.t)
  : Customer :=
  Customer.new
    {| Customer.p_id := SystemBApiResponse.uuid data;
       Customer.p_email := SystemBApiResponse.email data;
       Customer.p_name := SystemBApiResponse.name data;
       Customer.p_address := Some (SystemBApiResponse.address data);
       Customer.p_phone := Some (SystemBApiResponse.phone data);
       Customer.p_contractStartDate := None;
       Customer.p_contractType := None;
       Customer.p_lastUpdated := parseDate (SystemBApiResponse.last_updated data);
       Customer.p_source := SYSTEM_B |}.

End CustomerBMapper.

(** [mock-api/mock-data.ts] and [mock-api/mock-api.controller.ts]; the delay
    before each answer is left out. *)
Module MockApiController.

Record MockCustomerB : Type := mkMock {
  uuid : string;
  email : string;
  name : string;
  phone : string;
  address : string;
  last_updated : string
}.

Definition SYSTEM_B_MOCK_DATA : list MockCustomerB :=
  [ mkMock "modern_101" "max.mustermann@example.de" "Max Mustermann"
           "+49 170 123 4567" "Sonnenallee 1a, 12345 Berlin"
           "2025-01-10T08:00:00Z";
    mkMock "modern_102" "erika.muster@example.de" "Erika Musterfrau"
           "+49 171 987 6543" "Hauptstr. 42, 10115 Berlin"
           "2024-09-01T11:00:00Z";
    mkMock "modern_103" "lisa.neu@example.de" "Lisa Neumann"
           "+49 172 555 0000" "Friedrichstr. 99, 10117 Berlin"
           "2025-01-15T12:00:00Z";
    mkMock "modern_104" "sophie.mueller@example.de" "Sophie Mueller"
           "+49 173 444 8888" "Kastanienallee 7a, 10435 Berlin"
           "2025-02-01T09:30:00Z" ].

(** What a handler does: it returns a value or throws [NotFoundException]. *)
Inductive Reply (T : Type) : Type :=
| Sent (value : T)
| NotFoundException (message : string).
Arguments Sent {T} value.
Arguments NotFoundException {T} message.

(** The body of [getByEmail], over the table it reads. *)
Definition getByEmailIn (data : list MockCustomerB) (email : string)
  : Reply MockCustomerB :=
  match find (fun c => String.eqb (toLowerCase (MockApiController.email c))
                                  (toLowerCase email)) data with
  | None => NotFoundException ("Customer not found: " ++ email)
  | Some customer => Sent customer
  end.

(** The body of [search], over the table it reads. *)
Definition searchIn (data : list MockCustomerB) (query : string)
  : list MockCustomerB :=
  if negb (truthy (Some query)) || (String.length query <? 1)%nat then []
  else filter (fun c => includes (toLowerCase (MockApiController.name c))
                                 (toLowerCase query)) data.

Definition getByEmail (email : string) : Reply MockCustomerB :=
  getByEmailIn SYSTEM_B_MOCK_DATA email.

Definition search (query : string) : list MockCustomerB :=
  searchIn SYSTEM_B_MOCK_DATA query.

End MockApiController.

(** [presentation/controllers/customer.controller.ts]: the handler of
    [GET /customer/:email]. *)
Module CustomerController.

Inductive Reply (T : Type) : Type :=
| Sent (value : T)                       (* the handler returned *)
| BadRequestException (message : string) (* thrown by the handler *)
| Raised (e : Exception).                (* thrown by the use case *)
Arguments Sent {T} value.
Arguments BadRequestException {T} message.
Arguments Raised {T} e.

Definition ofResult {T : Type} (r : Result T) : Reply T :=
  match r with
  | Ok v => Sent v
  | Throw e => Raised e
  end.

Definition findByEmail (systemA systemB : ICustomerRepository) (email : string)
  : Reply UnifiedCustomerOutput :=
  if negb (Email.isValid email)
  then BadRequestException ("Invalid email format: " ++ email)
  else ofResult (GetCustomerByEmailUseCase.execute systemA systemB email).

End CustomerController.

(** [shared/filters/all-exceptions.filter.ts] *)
Module AllExceptionsFilter.

(** The [message] property of an exception's response object: absent, a
    string, or the string array of the validation pipe. *)
Inductive MessageValue : Type :=
| NoMessage
| MessageString (s : string)
| MessageArray (messages : list string).

(** A response object, by what the filter reads of it. *)
Record ResponseObject : Type := mkObject {
  hasStatus : bool;
  hasInfo : bool;
  hasError : bool;
  hasDetails : bool;
  message : MessageValue
}.

(** [exception.getResponse()]: [string | object]. *)
Inductive ExceptionResponse : Type :=
| ResponseString (s : string)
| ResponseObj (o : ResponseObject).

(** An [HttpException], by what the filter reads of it. *)
Record HttpException : Type := mkHttp {
  getStatus : Z;
  getResponse : ExceptionResponse;
  httpMessage : string
}.

(** The value the filter catches, by the [instanceof] tests it makes. *)
Inductive Thrown : Type :=
| ThrownHttp (h : HttpException)
| ThrownCustomerNotFound (message : string)
| ThrownError (message : string)
| ThrownValue.

(** [domain/exceptions/customer-not-found.exception.ts]: the message of the
    exception. *)
Definition customerNotFoundMessage (email : string) : string :=
  "Customer with email '" ++ email ++ "' not found in any system".

(** An exception of the use cases, as the filter sees it; the reason of a
    rejected collaborator is not known. *)
Definition thrownOf (e : Exception) : option Thrown :=
  match e with
  | Error m => Some (ThrownError m)
  | RangeError m => Some (ThrownError m)
  | CustomerNotFoundException email =>
      Some (ThrownCustomerNotFound (customerNotFoundMessage email))
  | Rejection => None
  end.

Record ErrorDetail : Type := mkDetail {
  field : string;
  constraints : Js.Map string
}.

Record ErrorBody : Type := mkBody {
  statusCode : Z;
  errorMessage : string;
  details : list ErrorDetail
}.

(** What is written to the response. *)
Inductive Written : Type :=
| PassedThrough (status : Z) (body : ResponseObject)
| Failure (status : Z) (success : bool) (error : ErrorBody) (timestamp : string).

Inductive LogLevel : Type :=
| LogError
| LogWarn.

Record Outcome : Type := mkOutcome {
  logged : option LogLevel;
  written : Written
}.

Definition INTERNAL_SERVER_ERROR : Z := 500.
Definition NOT_FOUND : Z := 404.

(** The test that lets a health-check response through. *)
Definition isHealthCheckBody (o : ResponseObject) : bool :=
  hasStatus o && (hasInfo o || hasError o) && hasDetails o.

Definition detailOf (msg : string) : ErrorDetail :=
  {| field := orElse (firstSegment msg) "unknown";
     constraints := [("validation", msg)] |}.

(** The three variables [statusCode], [message] and [details] after the
    chain of [instanceof] tests. *)
Definition describe (exception : Thrown) : Z * string * list ErrorDetail :=
  match exception with
  | ThrownCustomerNotFound m => (NOT_FOUND, m, [])
  | ThrownHttp h =>
      match getResponse h with
      | ResponseObj resp =>
          match message resp with
          | MessageArray messages =>
              (getStatus h, "Validation failed", map detailOf messages)
          | MessageString s => (getStatus h, orElse s (httpMessage h), [])
          | NoMessage => (getStatus h, httpMessage h, [])
          end
      | ResponseString s => (getStatus h, s, [])
      end
  | ThrownError m => (INTERNAL_SERVER_ERROR, m, [])
  | ThrownValue => (INTERNAL_SERVER_ERROR, "Internal server error", [])
  end.

(** [catch(exception, host)]; [now] is the time value of [new Date()]. *)
Definition catch (now : Z) (exception : Thrown) : Result Outcome :=
  match exception with
  | ThrownHttp {| getStatus := status; getResponse := ResponseObj o |} =>
      if isHealthCheckBody o
      then Ok (mkOutcome None (PassedThrough status o))
      else
        let '(statusCode, message, details) := describe exception in
        timestamp <- toISOString (ValidDate now) ;;
        Ok (mkOutcome
              (Some (if (statusCode >=? INTERNAL_SERVER_ERROR)%Z
                     then LogError else LogWarn))
              (Failure statusCode false
                       (mkBody statusCode message details) timestamp))
  | _ =>
      let '(statusCode, message, details) := describe exception in
      timestamp <- toISOString (ValidDate now) ;;
      Ok (mkOutcome
            (Some (if (statusCode >=? INTERNAL_SERVER_ERROR)%Z
                   then LogError else LogWarn))
            (Failure statusCode false
                     (mkBody statusCode message details) timestamp))
  end.

End AllExceptionsFilter.

(** ** Vocabulary of the further properties *)

(** The five keys [fields] can hold. *)
Definition fieldNames : list string :=
  ["name"; "address"; "phone"; "contractStartDate"; "contractType"].

(** An entry of [fields] carries its two values exactly when it is flagged. *)
Definition wellFormedEntry (entry : string * FieldMetadata.t) : Prop :=
  In (fst entry) fieldNames
  /\ (FieldMetadata.conflict (snd entry) = true ->
      exists x y,
        FieldMetadata.systemAValue (snd entry) = Some (Some x)
        /\ FieldMetadata.systemBValue (snd entry) = Some (Some y)
        /\ x <> y)
  /\ (FieldMetadata.conflict (snd entry) = false ->
      FieldMetadata.systemAValue (snd entry) = None
      /\ FieldMetadata.systemBValue (snd entry) = None).

(** The unified record shows the record [c] field by field. *)
Definition copies (u : UnifiedCustomerOutput) (c : Customer) : Prop :=
  Unified.email u = Customer.email c
  /\ Unified.name u = Customer.name c
  /\ Unified.phone u = Customer.phone c
  /\ Unified.address u = Customer.address c
  /\ Unified.contractStartDate u = Customer.contractStartDate c
  /\ Unified.contractType u = Customer.contractType c.

(** The list holds some of the entries of [fixed], in the order of [fixed]. *)
Definition listedInOrder (l fixed : list string) : Prop :=
  exists keep : string -> bool, l = filter keep fixed.

(** The two records agree on the five compared fields. *)
Definition agree (a b : Customer) : Prop :=
  Customer.name a = Customer.name b
  /\ Customer.address a = Customer.address b
  /\ Customer.phone a = Customer.phone b
  /\ Customer.contractStartDate a = Customer.contractStartDate b
  /\ Customer.contractType a = Customer.contractType b.

(** A conflict entry without its newer source, and the same read from the
    other side. *)
Definition valuesOf (k : FieldConflict.t) : string * option string * option string :=
  (FieldConflict.field k, FieldConflict.systemAValue k, FieldConflict.systemBValue k).

Definition valuesSwapped (k : FieldConflict.t)
  : string * option string * option string :=
  (FieldConflict.field k, FieldConflict.systemBValue k, FieldConflict.systemAValue k).

(** A compared field read from the other side. *)
Definition swapCompared (c : CustomerMergeService.Compared)
  : CustomerMergeService.Compared :=
  CustomerMergeService.mkCompared
    (CustomerMergeService.field c)
    (CustomerMergeService.bVal c) (CustomerMergeService.aVal c).

(** The collaborator answers a lookup by email with a record of that email. *)
Definition answersTheEmail (system : ICustomerRepository) : Prop :=
  forall email c,
    findByEmail system email = Resolved (Some c) -> Customer.email c = email.

(** The last record of the list that has the email. *)
Definition lastWith (customers : list Customer) (email : string)
  : option Customer :=
  find (fun c => String.eqb (Customer.email c) email) (rev customers).

(** What one side returned for an email of a name search: the record its
    name search listed last under that email or, when the name search listed
    none, the record its lookup by email resolved to. *)
Definition returnedFor (system : ICustomerRepository)
           (customers : list Customer) (email : string) : option Customer :=
  match lastWith customers email with
  | Some c => Some c
  | None => SearchCustomersUseCase.recovered system email
  end.

(** System A as in the cross-reference test: its name search misses the
    record that its lookup by email finds. *)
Definition missesByName (c : Customer) : ICustomerRepository :=
  Samples.repository
    (fun email => if String.eqb email "max@example.de" then Some c else None)
    [].

(** How often the character occurs in the string. *)
Fixpoint countChar (c : ascii) (s : string) : nat :=
  match s with
  | EmptyString => 0
  | String d r => (if Ascii.eqb d c then 1 else 0) + countChar c r
  end.

(** [seg] is the characters of [msg] before its first space: it holds no
    space, and what follows it in [msg] is nothing or starts with a space. *)
Definition beforeFirstSpace (msg seg : string) : Prop :=
  countChar " " seg = 0
  /\ exists rest,
       msg = seg ++ rest /\ (rest = "" \/ exists r, rest = String " " r).

(** No character of the string is white space. *)
Fixpoint noSpace (s : string) : bool :=
  match s with
  | EmptyString => true
  | String c r => negb (isWhiteSpace c) && noSpace r
  end.

(** The exception a use case threw, as the filter answers it at time [now]. *)
Definition answerTo (now : Z) (e : Exception) : option (Result AllExceptionsFilter.Outcome) :=
  option_map (AllExceptionsFilter.catch now) (AllExceptionsFilter.thrownOf e).

(** A validation failure of the request pipe with two messages. *)
Definition validationFailure : AllExceptionsFilter.Thrown :=
  AllExceptionsFilter.ThrownHttp
    (AllExceptionsFilter.mkHttp 400
       (AllExceptionsFilter.ResponseObj
          (AllExceptionsFilter.mkObject false false true false
             (AllExceptionsFilter.MessageArray
                ["email must be an email"; " q must be longer"])))
       "Bad Request Exception").

(** What the filter writes is a failure with this status and message and no
    detail. *)
Definition failsWith (answer : option (Result AllExceptionsFilter.Outcome))
           (status : Z) (message : string) : Prop :=
  exists level timestamp,
    answer =
    Some (Ok (AllExceptionsFilter.mkOutcome
                (Some level)
                (AllExceptionsFilter.Failure status false
                   (AllExceptionsFilter.mkBody status message []) timestamp))).

(** The parser of the samples: every string is read as the same date. *)
Definition parseAs (d : Date) (s : string) : Date := d.

(** * Properties *)

(** ** Platform lemmas *)

Example toISOString_epoch :
  toISOString (ValidDate 0) = Ok "1970-01-01T00:00:00.000Z".
Proof. reflexivity. Qed.

Example toISOString_2024 :
  toISOString (ValidDate 1730455200000) = Ok "2024-11-01T10:00:00.000Z".
Proof. reflexivity. Qed.

Example toISOString_before_epoch :
  toISOString (ValidDate (-1)) = Ok "1969-12-31T23:59:59.999Z".
Proof. reflexivity. Qed.

Example normalize_example :
  trim (toLowerCase "  Max.Mustermann@Example.DE  ") = "max.mustermann@example.de".
Proof. reflexivity. Qed.

Example isValid_examples :
  Email.isValid "user@domain.com" = true
  /\ Email.isValid "user.name@domain.co.uk" = true
  /\ Email.isValid "" = false
  /\ Email.isValid "invalid" = false
  /\ Email.isValid "missing@" = false
  /\ Email.isValid "missing@domain" = false
  /\ Email.isValid "@domain.com" = false.
Proof. repeat split; reflexivity. Qed.

Lemma toISOString_valid (t : Z) : exists s, toISOString (ValidDate t) = Ok s.
Proof.
  unfold toISOString. destruct (civilFromDays (t / msPerDay)) as [[y m] d].
  eexists. reflexivity.
Qed.

Lemma toISOString_throws (d : Date) (e : Exception) :
  toISOString d = Throw e -> d = InvalidDate /\ e = RangeError "Invalid time value".
Proof.
  destruct d as [t|]; simpl.
  - destruct (civilFromDays (t / msPerDay)) as [[y m] dd]. discriminate.
  - intros H. inversion H. auto.
Qed.

Section MapLemmas.
Context {V : Type}.
Implicit Types (m : Js.Map V) (k : string) (v : V).

Lemma mapGet_mapSet m k v k' :
  mapGet (mapSet m k v) k' = if String.eqb k' k then Some v else mapGet m k'.
Proof.
  induction m as [|[k0 v0] m IH]; simpl.
  - reflexivity.
  - destruct (String.eqb k k0) eqn:Ek; simpl.
    + apply String.eqb_eq in Ek. subst k0.
      destruct (String.eqb k' k); reflexivity.
    + rewrite IH. destruct (String.eqb k' k0) eqn:Ek0; [|reflexivity].
      apply String.eqb_eq in Ek0. subst k0.
      destruct (String.eqb k' k) eqn:Ek'; [|reflexivity].
      apply String.eqb_eq in Ek'. subst k'.
      rewrite String.eqb_refl in Ek. discriminate.
Qed.

Lemma mapHas_mapSet_keeps m k v k' :
  mapHas m k' = true -> mapHas (mapSet m k v) k' = true.
Proof.
  unfold mapHas. rewrite mapGet_mapSet.
  destruct (String.eqb k' k); auto.
Qed.


Lemma mapHas_keys m k : mapHas m k = true <-> In k (mapKeys m).
Proof.
  unfold mapHas, mapKeys.
  induction m as [|[k0 v0] m IH]; simpl.
  - split; [discriminate | tauto].
  - destruct (String.eqb k k0) eqn:Ek.
    + apply String.eqb_eq in Ek. subst. tauto.
    + apply String.eqb_neq in Ek. split.
      * intros H. right. apply IH, H.
      * intros [H|H]; [congruence | apply IH, H].
Qed.


End MapLemmas.

Lemma setHas_In (s : list string) (k : string) : setHas s k = true <-> In k s.
Proof.
  unfold setHas. rewrite existsb_exists. split.
  - intros [x [Hx E]]. apply String.eqb_eq in E. subst. exact Hx.
  - intros H. exists k. split; [exact H | apply String.eqb_refl].
Qed.

Lemma setAdd_In (s : list string) (k x : string) :
  In x (setAdd s k) <-> In x s \/ x = k.
Proof.
  unfold setAdd. destruct (setHas s k) eqn:E.
  - apply setHas_In in E. split; [tauto|]. intros [H|H]; subst; assumption.
  - rewrite in_app_iff. simpl. intuition.
Qed.

Lemma fold_setAdd_In (keys s : list string) (x : string) :
  In x (fold_left setAdd keys s) <-> In x s \/ In x keys.
Proof.
  revert s. induction keys as [|k keys IH]; intros s; simpl.
  - tauto.
  - rewrite IH, setAdd_In. intuition.
Qed.

Lemma newSet_In (keys : list string) (x : string) :
  In x (newSet keys) <-> In x keys.
Proof. unfold newSet. rewrite fold_setAdd_In. simpl. tauto. Qed.

Lemma setAdd_NoDup (s : list string) (k : string) :
  NoDup s -> NoDup (setAdd s k).
Proof.
  intros H. unfold setAdd. destruct (setHas s k) eqn:E; [exact H|].
  assert (~ In k s) as Hk by (rewrite <- setHas_In; congruence).
  clear E. induction H as [|x s Hx Hs IH]; simpl.
  - constructor; [tauto | constructor].
  - constructor.
    + rewrite in_app_iff. simpl in *. intuition.
    + apply IH. simpl in Hk. tauto.
Qed.

Lemma newSet_NoDup (keys : list string) : NoDup (newSet keys).
Proof.
  unfold newSet. assert (NoDup (@nil string)) as H by constructor.
  revert H. generalize (@nil string) as s.
  induction keys as [|k keys IH]; intros s H; simpl; [exact H|].
  apply IH, setAdd_NoDup, H.
Qed.

(** ** Merge engine *)

Import CustomerMergeService.

Lemma date_gt_irrefl (d : Date) : date_gt d d = false.
Proof.
  destruct d as [t|]; simpl; [|reflexivity].
  rewrite Z.gtb_ltb. apply Z.ltb_irrefl.
Qed.

Lemma date_gt_asym (x y : Date) : date_gt x y = true -> date_gt y x = false.
Proof.
  destruct x as [t|], y as [u|]; simpl; try discriminate.
  rewrite !Z.gtb_ltb, Z.ltb_lt, Z.ltb_ge. lia.
Qed.

Lemma mapGet_setPreferred_other (fields : Js.Map FieldMetadata.t)
      (key key' : string) x first y second :
  String.eqb key' key = false ->
  mapGet (setPreferred fields key x first y second) key' = mapGet fields key'.
Proof.
  intros E. unfold setPreferred.
  destruct (truthy x); [|destruct (truthy y)];
    rewrite ?mapGet_mapSet, ?E; reflexivity.
Qed.

Lemma mapGet_setPreferred_same (fields : Js.Map FieldMetadata.t)
      (key : string) x first y second :
  mapGet (setPreferred fields key x first y second) key =
  if truthy x then Some (plain first)
  else if truthy y then Some (plain second)
  else mapGet fields key.
Proof.
  unfold setPreferred.
  destruct (truthy x); [|destruct (truthy y)];
    rewrite ?mapGet_mapSet, ?String.eqb_refl; reflexivity.
Qed.

Lemma fieldOf_name (a b : Customer) :
  fieldOf (mergeFromBothSystems a b) "name" =
  Some (flagged
          (if negb (String.eqb (Customer.name a) (Customer.name b))
           then (if date_gt (Customer.lastUpdated b) (Customer.lastUpdated a)
                 then SYSTEM_B else SYSTEM_A)
           else BOTH)
          (negb (String.eqb (Customer.name a) (Customer.name b)))
          (Some (Customer.name a)) (Some (Customer.name b))).
Proof.
  unfold fieldOf, mergeFromBothSystems; simpl.
  rewrite !mapGet_setPreferred_other by reflexivity.
  rewrite mapGet_mapSet; simpl.
  rewrite mapGet_setPreferred_other by reflexivity.
  reflexivity.
Qed.

Lemma fieldOf_phone (a b : Customer) :
  fieldOf (mergeFromBothSystems a b) "phone" =
  if truthy (Customer.phone b) then Some (plain SYSTEM_B)
  else if truthy (Customer.phone a) then Some (plain SYSTEM_A)
  else None.
Proof.
  unfold fieldOf, mergeFromBothSystems; simpl.
  rewrite !mapGet_setPreferred_other by reflexivity.
  rewrite mapGet_mapSet; simpl.
  rewrite mapGet_setPreferred_same. reflexivity.
Qed.

(** The part of the phone rule that the code keeps: B's phone wins when it is
    a non-empty string, A's phone is used when B has none, and whatever entry
    [fields] holds for the phone is not flagged. *)
Lemma phone_rule_off_the_empty_string (a b : Customer) :
  (truthy (Customer.phone b) = true ->
   Unified.phone (mergeFromBothSystems a b) = Customer.phone b)
  /\ (Customer.phone b = None ->
      Unified.phone (mergeFromBothSystems a b) = Customer.phone a)
  /\ (forall fm, fieldOf (mergeFromBothSystems a b) "phone" = Some fm ->
                 FieldMetadata.conflict fm = false).
Proof.
  split; [|split].
  - simpl. destruct (Customer.phone b); simpl; [reflexivity | discriminate].
  - intros E. simpl. rewrite E. reflexivity.
  - intros fm. rewrite fieldOf_phone.
    destruct (truthy (Customer.phone b)); [|destruct (truthy (Customer.phone a))];
      intros H; inversion H; reflexivity.
Qed.

(** C1 (the code departs from the claim).  With A holding the phone
    "+49 111 0000000" and B holding the empty string, B's phone is present
    but empty, so the claim asks for A's phone.  The merged phone is the empty
    string, because [??] falls back on [null] only, while the provenance
    written by the truthiness test of the same function names SYSTEM_A as the
    source of the phone. *)
Theorem C1_empty_phone_of_B_is_kept :
  exists u,
    merge (Some Samples.customerA) (Some Samples.customerBNoPhone) = Ok u
    /\ Customer.phone Samples.customerA = Some "+49 111 0000000"
    /\ Customer.phone Samples.customerBNoPhone = Some ""
    /\ Unified.phone u = Some ""
    /\ Unified.phone u <> Customer.phone Samples.customerA
    /\ fieldOf u "phone" = Some (plain SYSTEM_A).
Proof.
  eexists. split; [reflexivity|].
  repeat split; try reflexivity. discriminate.
Qed.

(** C2.  For two present records the merged name is B's when B's
    [lastUpdated] is strictly greater, A's when A's is strictly greater and
    A's when the two are equal; the [name] entry is flagged exactly when the
    names differ, and its source is BOTH when they agree. *)
Theorem C2_name_follows_the_newer_record (a b : Customer) :
  exists u fm,
    merge (Some a) (Some b) = Ok u
    /\ (date_gt (Customer.lastUpdated b) (Customer.lastUpdated a) = true ->
        Unified.name u = Customer.name b)
    /\ (date_gt (Customer.lastUpdated a) (Customer.lastUpdated b) = true ->
        Unified.name u = Customer.name a)
    /\ (Customer.lastUpdated a = Customer.lastUpdated b ->
        Unified.name u = Customer.name a)
    /\ fieldOf u "name" = Some fm
    /\ (FieldMetadata.conflict fm = true <-> Customer.name a <> Customer.name b)
    /\ (Customer.name a = Customer.name b -> FieldMetadata.source fm = BOTH).
Proof.
  eexists. eexists. split; [reflexivity|].
  split; [|split; [|split; [|split; [apply fieldOf_name|]]]].
  - intros H. simpl. rewrite H. reflexivity.
  - intros H. simpl. rewrite (date_gt_asym _ _ H). reflexivity.
  - intros H. simpl. rewrite H, date_gt_irrefl. reflexivity.
  - simpl. split.
    + rewrite negb_true_iff, String.eqb_neq. tauto.
    + intros H. rewrite H, String.eqb_refl. reflexivity.
Qed.

(** C9.  Merging two absent inputs throws; with a record on either side the
    merge returns a unified record. *)
Theorem C9_merge_fails_only_without_input :
  merge None None = Throw noData
  /\ (forall a b, exists u, merge (Some a) b = Ok u)
  /\ (forall a b, exists u, merge a (Some b) = Ok u).
Proof.
  split; [reflexivity|]. split; intros a b.
  - destruct b; eexists; reflexivity.
  - destruct a; eexists; reflexivity.
Qed.

(** ** Diff engine *)

Lemma strictEq_true (x y : option string) : strictEq x y = true <-> x = y.
Proof.
  destruct x as [s|], y as [t|]; simpl; try (split; congruence).
  rewrite String.eqb_eq. split; congruence.
Qed.

Lemma bothNull_true (x y : option string) :
  isNull x && isNull y = true <-> x = None /\ y = None.
Proof. destruct x, y; simpl; intuition congruence. Qed.

Lemma fold_compareStep (newer : SourceSystem) (cs : list Compared)
      (conflicts : list FieldConflict.t) (matchedFields : list string) :
  fold_left (compareStep newer) cs (conflicts, matchedFields) =
  ((conflicts ++ flat_map (conflictOf newer) cs)%list,
   (matchedFields ++ flat_map matchOf cs)%list).
Proof.
  revert conflicts matchedFields.
  induction cs as [|c cs IH]; intros conflicts matchedFields;
    cbn [fold_left flat_map].
  - rewrite !app_nil_r. reflexivity.
  - unfold compareStep at 2, conflictOf at 1, matchOf at 1.
    destruct (isNull (aVal c) && isNull (bVal c)).
    + rewrite IH. reflexivity.
    + destruct (strictEq (aVal c) (bVal c)); rewrite IH, <- ?app_assoc; reflexivity.
Qed.

Lemma compareAll_flat_map (newer : SourceSystem) (cs : list Compared) :
  compareAll newer cs =
  (flat_map (conflictOf newer) cs, "email" :: flat_map matchOf cs).
Proof. unfold compareAll. rewrite fold_compareStep. reflexivity. Qed.

(** What [diff] returns when it returns: both dates are valid and the two
    lists are the contributions of the compared fields, in order. *)
Lemma diff_Ok_inv (a b : Customer) (r : SyncResultOutput) :
  diff a b = Ok r ->
  exists ta tb,
    Customer.lastUpdated a = ValidDate ta
    /\ Customer.lastUpdated b = ValidDate tb
    /\ SyncResult.conflicts r =
       flat_map (conflictOf (if (ta >=? tb)%Z then SYSTEM_A else SYSTEM_B))
                (fieldsToCompare a b)
    /\ SyncResult.matchedFields r =
       "email" :: flat_map matchOf (fieldsToCompare a b)
    /\ SyncResult.status r =
       (if (0 <? length (SyncResult.conflicts r))%nat
        then conflicts_found else in_sync).
Proof.
  unfold diff. rewrite compareAll_flat_map.
  destruct (Customer.lastUpdated a) as [ta|] eqn:Ea;
    [|simpl; discriminate].
  destruct (Customer.lastUpdated b) as [tb|] eqn:Eb.
  - destruct (toISOString_valid ta) as [sa Ha].
    destruct (toISOString_valid tb) as [sb Hb].
    rewrite Ha, Hb. simpl. intros H. inversion H; subst r; clear H.
    exists ta, tb. simpl. repeat split; reflexivity.
  - destruct (toISOString_valid ta) as [sa Ha]. rewrite Ha. simpl. discriminate.
Qed.

(** [diff] returns whenever both records carry a valid date. *)
Lemma diff_returns (a b : Customer) (ta tb : Z) :
  Customer.lastUpdated a = ValidDate ta ->
  Customer.lastUpdated b = ValidDate tb ->
  exists r, diff a b = Ok r.
Proof.
  intros Ea Eb. unfold diff. rewrite compareAll_flat_map, Ea, Eb.
  destruct (toISOString_valid ta) as [sa Ha].
  destruct (toISOString_valid tb) as [sb Hb].
  rewrite Ha, Hb. simpl. eexists. reflexivity.
Qed.

(** With an invalid date on either side [diff] throws the RangeError of
    [toISOString]. *)
Lemma diff_throws (a b : Customer) (e : Exception) :
  diff a b = Throw e ->
  e = RangeError "Invalid time value"
  /\ (Customer.lastUpdated a = InvalidDate \/ Customer.lastUpdated b = InvalidDate).
Proof.
  unfold diff. rewrite compareAll_flat_map.
  destruct (toISOString (Customer.lastUpdated a)) as [sa|ea] eqn:Ha; simpl.
  - destruct (toISOString (Customer.lastUpdated b)) as [sb|eb] eqn:Hb; simpl.
    + discriminate.
    + intros H. inversion H; subst. apply toISOString_throws in Hb. tauto.
  - intros H. inversion H; subst. apply toISOString_throws in Ha. tauto.
Qed.

Lemma in_conflictOf (newer : SourceSystem) (c : Compared) (k : FieldConflict.t) :
  In k (conflictOf newer c) <->
  k = FieldConflict.mk (field c) (aVal c) (bVal c) newer
  /\ ~ (aVal c = None /\ bVal c = None) /\ aVal c <> bVal c.
Proof.
  unfold conflictOf.
  destruct (isNull (aVal c) && isNull (bVal c)) eqn:En.
  - apply bothNull_true in En. simpl. tauto.
  - destruct (strictEq (aVal c) (bVal c)) eqn:Es.
    + apply strictEq_true in Es. simpl. tauto.
    + assert (~ (aVal c = None /\ bVal c = None)) as Hn
          by (intros Hb; apply bothNull_true in Hb; congruence).
      assert (aVal c <> bVal c) as Hd
          by (intros Hb; apply strictEq_true in Hb; congruence).
      simpl. intuition.
Qed.

Lemma in_matchOf (c : Compared) (f : string) :
  In f (matchOf c) <->
  f = field c /\ ~ (aVal c = None /\ bVal c = None) /\ aVal c = bVal c.
Proof.
  unfold matchOf.
  destruct (isNull (aVal c) && isNull (bVal c)) eqn:En.
  - apply bothNull_true in En. simpl. tauto.
  - assert (~ (aVal c = None /\ bVal c = None)) as Hn
        by (intros Hb; apply bothNull_true in Hb; congruence).
    destruct (strictEq (aVal c) (bVal c)) eqn:Es.
    + apply strictEq_true in Es. simpl. intuition.
    + assert (aVal c <> bVal c) as Hd
          by (intros Hb; apply strictEq_true in Hb; congruence).
      simpl. tauto.
Qed.

Lemma field_injective (cs : list Compared) (c c' : Compared) :
  NoDup (map field cs) -> In c cs -> In c' cs -> field c = field c' -> c = c'.
Proof.
  induction cs as [|x cs IH]; simpl; intros Hnd Hc Hc' E; [tauto|].
  inversion Hnd as [|? ? Hx Hcs]; subst.
  destruct Hc as [Hc|Hc], Hc' as [Hc'|Hc']; subst.
  - reflexivity.
  - exfalso. apply Hx. rewrite E. apply in_map, Hc'.
  - exfalso. apply Hx. rewrite <- E. apply in_map, Hc.
  - apply IH; assumption.
Qed.

Section Classification.
Variables (newer : SourceSystem) (cs : list Compared) (r : SyncResultOutput).
Hypothesis distinct : NoDup (map field cs).
Hypothesis not_email : ~ In "email" (map field cs).
Hypothesis conflicts_r : SyncResult.conflicts r = flat_map (conflictOf newer) cs.
Hypothesis matched_r :
  SyncResult.matchedFields r = "email" :: flat_map matchOf cs.

Lemma matched_iff (c : Compared) :
  In c cs ->
  matched r (field c) <-> ~ (aVal c = None /\ bVal c = None) /\ aVal c = bVal c.
Proof.
  intros Hc. unfold matched. rewrite matched_r. simpl. split.
  - intros [E|H].
    + exfalso. apply not_email. rewrite E. apply in_map, Hc.
    + apply in_flat_map in H. destruct H as [c' [Hc' H]].
      apply in_matchOf in H. destruct H as [E H].
      rewrite (field_injective cs c c' distinct Hc Hc' E). exact H.
  - intros H. right. apply in_flat_map. exists c. split; [exact Hc|].
    apply in_matchOf. tauto.
Qed.

Lemma conflicting_iff (c : Compared) :
  In c cs ->
  conflicting r (field c) <->
  ~ (aVal c = None /\ bVal c = None) /\ aVal c <> bVal c.
Proof.
  intros Hc. unfold conflicting. rewrite conflicts_r. split.
  - intros [k [H E]].
    apply in_flat_map in H. destruct H as [c' [Hc' H]].
    apply in_conflictOf in H. destruct H as [Ek H]. subst k. simpl in E.
    rewrite (field_injective cs c c' distinct Hc Hc' (eq_sym E)). exact H.
  - intros H. exists (FieldConflict.mk (field c) (aVal c) (bVal c) newer).
    split; [|reflexivity].
    apply in_flat_map. exists c. split; [exact Hc|].
    apply in_conflictOf. tauto.
Qed.

Lemma conflict_entry (c : Compared) :
  In c cs -> aVal c <> bVal c ->
  exists k, In k (SyncResult.conflicts r)
            /\ FieldConflict.field k = field c
            /\ FieldConflict.systemAValue k = aVal c
            /\ FieldConflict.systemBValue k = bVal c.
Proof.
  intros Hc Hd. exists (FieldConflict.mk (field c) (aVal c) (bVal c) newer).
  split; [|simpl; auto].
  rewrite conflicts_r. apply in_flat_map. exists c. split; [exact Hc|].
  apply in_conflictOf. split; [reflexivity|]. split; [|exact Hd].
  intros [Ea Eb]. apply Hd. congruence.
Qed.

Lemma classified_in (c : Compared) :
  In c cs -> classified r (field c) (aVal c) (bVal c).
Proof.
  intros Hc.
  pose proof (matched_iff c Hc) as Hm.
  pose proof (conflicting_iff c Hc) as Hk.
  unfold classified. split; [|split].
  - split.
    + intros [Hnm Hnk].
      destruct (aVal c) as [x|] eqn:Ea, (bVal c) as [y|] eqn:Eb; try tauto;
        exfalso.
      * destruct (String.eqb x y) eqn:E.
        -- apply String.eqb_eq in E. subst y. apply Hnm, Hm.
           split; [intros [H _]; discriminate | reflexivity].
        -- apply String.eqb_neq in E. apply Hnk, Hk.
           split; [intros [H _]; discriminate | congruence].
      * apply Hnk, Hk. split; [intros [H _]; discriminate | discriminate].
      * apply Hnk, Hk. split; [intros [_ H]; discriminate | discriminate].
    + intros Hn. rewrite Hm, Hk. tauto.
  - intros Hn He. rewrite Hm, Hk. tauto.
  - intros Hd. split; [rewrite Hm; tauto | apply conflict_entry; assumption].
Qed.

End Classification.

Lemma fieldsToCompare_names (a b : Customer) :
  map field (fieldsToCompare a b) =
  ["name"; "address"; "phone"; "contractStartDate"; "contractType"].
Proof. reflexivity. Qed.

Lemma fieldsToCompare_distinct (a b : Customer) :
  NoDup (map field (fieldsToCompare a b)) /\ ~ In "email" (map field (fieldsToCompare a b)).
Proof.
  rewrite fieldsToCompare_names. split.
  - repeat constructor; simpl; intuition discriminate.
  - simpl. intuition discriminate.
Qed.

Lemma status_by_conflicts (r : SyncResultOutput) :
  SyncResult.status r =
    (if (0 <? length (SyncResult.conflicts r))%nat then conflicts_found else in_sync) ->
  (SyncResult.status r = conflicts_found <-> SyncResult.conflicts r <> [])
  /\ (SyncResult.status r = in_sync <-> SyncResult.conflicts r = []).
Proof.
  intros ->. destruct (SyncResult.conflicts r); simpl.
  - split; split; intros H; congruence.
  - split; split; intros H; congruence.
Qed.

(** C4.  Every conflict entry of a diff result names SYSTEM_A exactly when
    A's date is not earlier than B's, and SYSTEM_B exactly when B's date is
    strictly later; so the source it names is never the earlier one, and on
    equal dates it is SYSTEM_A. *)
Theorem C4_newerSource_is_not_the_earlier_side
        (a b : Customer) (r : SyncResultOutput) (k : FieldConflict.t) :
  diff a b = Ok r ->
  In k (SyncResult.conflicts r) ->
  exists ta tb,
    Customer.lastUpdated a = ValidDate ta
    /\ Customer.lastUpdated b = ValidDate tb
    /\ (FieldConflict.newerSource k = SYSTEM_A /\ (tb <= ta)%Z
        \/ FieldConflict.newerSource k = SYSTEM_B /\ (ta < tb)%Z)
    /\ (ta = tb -> FieldConflict.newerSource k = SYSTEM_A).
Proof.
  intros Hd Hk.
  destruct (diff_Ok_inv a b r Hd) as [ta [tb [Ea [Eb [Hc _]]]]].
  exists ta, tb. split; [exact Ea|]. split; [exact Eb|].
  rewrite Hc in Hk. apply in_flat_map in Hk. destruct Hk as [c [_ Hk]].
  apply in_conflictOf in Hk. destruct Hk as [-> _]. simpl.
  destruct (ta >=? tb)%Z eqn:E.
  - apply Z.geb_le in E. split; [left; split; [reflexivity | lia] | reflexivity].
  - rewrite Z.geb_leb in E. apply Z.leb_gt in E.
    split; [right; split; [reflexivity | lia] | lia].
Qed.

(** C6.  A diff result classifies each of the five compared fields: the
    field is skipped exactly when both values are absent, is matched when the
    values are equal, and has a conflict entry with the two values otherwise;
    the status is [conflicts_found] exactly when there is a conflict entry,
    and [in_sync] exactly when there is none. *)
Theorem C6_diff_classifies_the_five_fields
        (a b : Customer) (r : SyncResultOutput) :
  diff a b = Ok r ->
  classified r "name" (Some (Customer.name a)) (Some (Customer.name b))
  /\ classified r "address" (Customer.address a) (Customer.address b)
  /\ classified r "phone" (Customer.phone a) (Customer.phone b)
  /\ classified r "contractStartDate"
       (Customer.contractStartDate a) (Customer.contractStartDate b)
  /\ classified r "contractType"
       (Customer.contractType a) (Customer.contractType b)
  /\ (SyncResult.status r = conflicts_found <-> SyncResult.conflicts r <> [])
  /\ (SyncResult.status r = in_sync <-> SyncResult.conflicts r = []).
Proof.
  intros Hd.
  destruct (diff_Ok_inv a b r Hd) as [ta [tb [_ [_ [Hc [Hm Hs]]]]]].
  destruct (fieldsToCompare_distinct a b) as [Hnd Hne].
  pose proof (classified_in _ _ r Hnd Hne Hc Hm) as H.
  repeat (split; [apply (H (mkCompared _ _ _)); simpl; tauto|]).
  apply status_by_conflicts, Hs.
Qed.

(** The theorem of C4 at the two sample records, which differ in the phone. *)
Lemma C4_witness :
  exists r k,
    diff Samples.customerA Samples.customerB = Ok r
    /\ In k (SyncResult.conflicts r)
    /\ exists ta tb,
         Customer.lastUpdated Samples.customerA = ValidDate ta
         /\ Customer.lastUpdated Samples.customerB = ValidDate tb
         /\ (FieldConflict.newerSource k = SYSTEM_A /\ (tb <= ta)%Z
             \/ FieldConflict.newerSource k = SYSTEM_B /\ (ta < tb)%Z)
         /\ (ta = tb -> FieldConflict.newerSource k = SYSTEM_A).
Proof.
  eexists. eexists.
  split; [reflexivity|].
  split; [left; reflexivity|].
  apply (C4_newerSource_is_not_the_earlier_side
           Samples.customerA Samples.customerB _ _ eq_refl).
  left. reflexivity.
Defined.

(** The theorem of C6 at the two sample records. *)
Lemma C6_witness :
  exists r,
    diff Samples.customerA Samples.customerB = Ok r
    /\ classified r "name" (Some "Max Mustermann") (Some "Max Mustermann")
    /\ classified r "address" (Some "Musterstr. 1, 12345 Berlin")
                              (Some "Musterstr. 1, 12345 Berlin")
    /\ classified r "phone" (Some "+49 111 0000000") (Some "+49 222")
    /\ classified r "contractStartDate" (Some "2020-01-01") (Some "2020-01-01")
    /\ classified r "contractType" (Some "premium") (Some "premium")
    /\ (SyncResult.status r = conflicts_found <-> SyncResult.conflicts r <> [])
    /\ (SyncResult.status r = in_sync <-> SyncResult.conflicts r = []).
Proof.
  eexists. split; [reflexivity|].
  apply (C6_diff_classifies_the_five_fields
           Samples.customerA Samples.customerB _ eq_refl).
Defined.

(** ** Sync *)

Example sync_only_in_A :
  SyncCustomerUseCase.execute
    (Samples.onlyMax Samples.customerA) Samples.empty "  Max@Example.DE " =
  Ok {| SyncResult.email := "max@example.de";
        SyncResult.status := single_source_only;
        SyncResult.presentIn := Some SYSTEM_A;
        SyncResult.lastUpdated :=
          LastUpdated.mk (Some "2023-01-01T00:00:00.000Z") None;
        SyncResult.conflicts := [];
        SyncResult.matchedFields := [] |}.
Proof. reflexivity. Qed.

Example sync_in_both :
  SyncCustomerUseCase.execute
    (Samples.onlyMax Samples.customerA) (Samples.onlyMax Samples.customerB)
    "max@example.de" =
  Ok {| SyncResult.email := "max@example.de";
        SyncResult.status := conflicts_found;
        SyncResult.presentIn := None;
        SyncResult.lastUpdated :=
          LastUpdated.mk (Some "2023-01-01T00:00:00.000Z")
                         (Some "2024-01-01T00:00:00.000Z");
        SyncResult.conflicts :=
          [FieldConflict.mk "phone" (Some "+49 111 0000000") (Some "+49 222")
                            SYSTEM_B];
        SyncResult.matchedFields :=
          ["email"; "name"; "address"; "contractStartDate"; "contractType"] |}.
Proof. reflexivity. Qed.

(** C5, as stated, fails: the result of [Sync] for a record that only
    System A holds has an empty [matchedFields]. *)
Lemma C5_single_source_result_lacks_email :
  exists r,
    SyncCustomerUseCase.execute
      (Samples.onlyMax Samples.customerA) Samples.empty "max@example.de" = Ok r
    /\ SyncResult.status r = single_source_only
    /\ ~ In "email" (SyncResult.matchedFields r).
Proof.
  eexists. split; [reflexivity|]. split; [reflexivity|].
  simpl. tauto.
Qed.

(** C5, amended.  Every result of the diff engine lists [email] first among
    the matched fields; a result of [Sync] either comes from the
    single-source path, and then its [matchedFields] is empty, or is a diff
    result, and then it lists [email]. *)
Theorem C5_email_is_matched_in_diff_results_only :
  (forall a b r,
      diff a b = Ok r ->
      In "email" (SyncResult.matchedFields r)
      /\ hd_error (SyncResult.matchedFields r) = Some "email"
      /\ SyncResult.status r <> single_source_only)
  /\ (forall systemA systemB email r,
         SyncCustomerUseCase.execute systemA systemB email = Ok r ->
         (SyncResult.status r = single_source_only
          /\ SyncResult.matchedFields r = [])
         \/ (SyncResult.status r <> single_source_only
             /\ In "email" (SyncResult.matchedFields r))).
Proof.
  assert (forall a b r,
             diff a b = Ok r ->
             In "email" (SyncResult.matchedFields r)
             /\ hd_error (SyncResult.matchedFields r) = Some "email"
             /\ SyncResult.status r <> single_source_only) as Hdiff.
  { intros a b r Hd.
    destruct (diff_Ok_inv a b r Hd) as [ta [tb [_ [_ [_ [Hm Hs]]]]]].
    rewrite Hm, Hs. simpl. split; [tauto|]. split; [reflexivity|].
    destruct (0 <? length (SyncResult.conflicts r))%nat; discriminate. }
  split; [exact Hdiff|].
  intros systemA systemB email r. unfold SyncCustomerUseCase.execute.
  destruct (awaitAll2 _ _) as [[[ca|] [cb|]]|e]; simpl; try discriminate.
  - intros Hd. right. destruct (Hdiff ca cb r Hd) as [H1 [_ H3]]. tauto.
  - destruct (toISOString (Customer.lastUpdated ca)); simpl; [|discriminate].
    intros H. inversion H. left. split; reflexivity.
  - destruct (toISOString (Customer.lastUpdated cb)); simpl; [|discriminate].
    intros H. inversion H. left. split; reflexivity.
Qed.

(** ** Lookup orchestration *)

Import SearchCustomersUseCase.

Lemma nullish_None {T : Type} (x : option T) : nullish x None = x.
Proof. destruct x; reflexivity. Qed.



Lemma exactlyOne_true (a b : option Customer) :
  exactlyOne a b = true <-> onlyOneReturned a b.
Proof.
  unfold exactlyOne, onlyOneReturned.
  destruct a, b; simpl; intuition congruence.
Qed.

Lemma merge_not_partial (a b : option Customer) (u : UnifiedCustomerOutput) :
  merge a b = Ok u -> isPartial u = false.
Proof.
  destruct a, b; simpl; intros H; inversion H; reflexivity.
Qed.

Lemma merge_throws (a b : option Customer) (e : Exception) :
  merge a b = Throw e -> a = None /\ b = None /\ e = noData.
Proof. destruct a, b; simpl; intros H; inversion H; auto. Qed.

Lemma isPartial_markPartial (a b : option Customer) (u : UnifiedCustomerOutput) :
  isPartial u = false -> isPartial (markPartial a b u) = exactlyOne a b.
Proof.
  unfold markPartial. destruct (exactlyOne a b); simpl; auto.
Qed.

(** The three ways [GetCustomerByEmailUseCase.execute] ends. *)
Lemma getByEmail_cases (systemA systemB : ICustomerRepository) (email : string) :
  (GetCustomerByEmailUseCase.execute systemA systemB email = Throw Rejection
   /\ (findByEmail systemA (normalized email) = Rejected
       \/ findByEmail systemB (normalized email) = Rejected))
  \/ (GetCustomerByEmailUseCase.execute systemA systemB email =
        Throw (CustomerNotFoundException (normalized email))
      /\ findByEmail systemA (normalized email) = Resolved None
      /\ findByEmail systemB (normalized email) = Resolved None)
  \/ (exists a b u,
         findByEmail systemA (normalized email) = Resolved a
         /\ findByEmail systemB (normalized email) = Resolved b
         /\ (a <> None \/ b <> None)
         /\ merge a b = Ok u
         /\ GetCustomerByEmailUseCase.execute systemA systemB email =
            Ok (markPartial a b u)).
Proof.
  unfold GetCustomerByEmailUseCase.execute, normalized.
  destruct (findByEmail systemA _) as [a|]; [|left; simpl; auto].
  destruct (findByEmail systemB _) as [b|]; [|left; simpl; auto].
  right. simpl.
  destruct a as [ca|], b as [cb|]; simpl.
  - right. eexists _, _, _. repeat split; try reflexivity. left. discriminate.
  - right. eexists _, _, _. repeat split; try reflexivity. left. discriminate.
  - right. eexists _, _, _. repeat split; try reflexivity. right. discriminate.
  - left. auto.
Qed.

(** The ways [SyncCustomerUseCase.execute] ends. *)
Lemma sync_cases (systemA systemB : ICustomerRepository) (email : string) :
  (SyncCustomerUseCase.execute systemA systemB email = Throw Rejection
   /\ (findByEmail systemA (normalized email) = Rejected
       \/ findByEmail systemB (normalized email) = Rejected))
  \/ (SyncCustomerUseCase.execute systemA systemB email =
        Throw (CustomerNotFoundException (normalized email))
      /\ findByEmail systemA (normalized email) = Resolved None
      /\ findByEmail systemB (normalized email) = Resolved None)
  \/ (exists a b,
         findByEmail systemA (normalized email) = Resolved a
         /\ findByEmail systemB (normalized email) = Resolved b
         /\ (a <> None \/ b <> None)
         /\ ((exists r, SyncCustomerUseCase.execute systemA systemB email = Ok r)
             \/ SyncCustomerUseCase.execute systemA systemB email =
                Throw (RangeError "Invalid time value"))).
Proof.
  unfold SyncCustomerUseCase.execute, normalized.
  destruct (findByEmail systemA _) as [a|]; [|left; simpl; auto].
  destruct (findByEmail systemB _) as [b|]; [|left; simpl; auto].
  right. simpl.
  destruct a as [ca|], b as [cb|]; simpl.
  - right. exists (Some ca), (Some cb).
    split; [reflexivity|]. split; [reflexivity|]. split; [left; discriminate|].
    destruct (diff ca cb) as [r|e] eqn:Hd.
    + left. eexists. reflexivity.
    + right. apply diff_throws in Hd. destruct Hd as [-> _]. reflexivity.
  - right. exists (Some ca), None.
    split; [reflexivity|]. split; [reflexivity|]. split; [left; discriminate|].
    destruct (toISOString (Customer.lastUpdated ca)) as [s|e] eqn:Hs; simpl.
    + left. eexists. reflexivity.
    + right. apply toISOString_throws in Hs. destruct Hs as [_ ->]. reflexivity.
  - right. exists None, (Some cb).
    split; [reflexivity|]. split; [reflexivity|]. split; [right; discriminate|].
    destruct (toISOString (Customer.lastUpdated cb)) as [s|e] eqn:Hs; simpl.
    + left. eexists. reflexivity.
    + right. apply toISOString_throws in Hs. destruct Hs as [_ ->]. reflexivity.
  - left. auto.
Qed.

(** C8.  [GetByEmail] and [Sync] fail with the not-found exception exactly
    when both lookups for the normalized email resolve to no record; in
    particular neither does when a side returns a record. *)
Theorem C8_not_found_iff_both_lookups_are_absent
        (systemA systemB : ICustomerRepository) (email : string) :
  (notFound (GetCustomerByEmailUseCase.execute systemA systemB email) <->
   findByEmail systemA (normalized email) = Resolved None
   /\ findByEmail systemB (normalized email) = Resolved None)
  /\ (notFound (SyncCustomerUseCase.execute systemA systemB email) <->
      findByEmail systemA (normalized email) = Resolved None
      /\ findByEmail systemB (normalized email) = Resolved None).
Proof.
  unfold notFound. split; split.
  - intros [e He].
    destruct (getByEmail_cases systemA systemB email)
      as [[H _]|[[_ H]|[a [b [u [_ [_ [_ [_ H]]]]]]]]];
      [congruence | exact H | congruence].
  - intros [Ha Hb].
    destruct (getByEmail_cases systemA systemB email)
      as [[_ [H|H]]|[[H _]|[a [b [u [Ea [Eb [Hp _]]]]]]]];
      try congruence.
    + eexists. exact H.
    + exfalso. rewrite Ha in Ea. rewrite Hb in Eb.
      inversion Ea; inversion Eb; subst. tauto.
  - intros [e He].
    destruct (sync_cases systemA systemB email)
      as [[H _]|[[_ H]|[a [b [_ [_ [_ [[r H]|H]]]]]]]];
      [congruence | exact H | congruence | congruence].
  - intros [Ha Hb].
    destruct (sync_cases systemA systemB email)
      as [[_ [H|H]]|[[H _]|[a [b [Ea [Eb [Hp _]]]]]]];
      try congruence.
    + eexists. exact H.
    + exfalso. rewrite Ha in Ea. rewrite Hb in Eb.
      inversion Ea; inversion Eb; subst. tauto.
Qed.

(** *** Name search *)

Lemma crossReference_keeps (system : ICustomerRepository)
      (searched : Js.Map Customer) (emails : list string) (k : string) :
  mapHas searched k = true ->
  mapHas (crossReference system searched emails) k = true.
Proof.
  unfold crossReference. generalize searched at 1 3 as m.
  induction emails as [|email emails IH]; intros m Hm; simpl; [exact Hm|].
  apply IH.
  destruct (negb (mapHas searched email)); [|exact Hm].
  destruct (findByEmail system email) as [[c|]|]; try exact Hm.
  apply mapHas_mapSet_keeps, Hm.
Qed.

(** What the map of one side holds after the cross-reference: the record of
    the name search if there is one, and otherwise, for an email of the set,
    the record its lookup resolved to.  Only membership in the set matters,
    not the order in which the lookups settle. *)
Lemma mapGet_crossReference (system : ICustomerRepository)
      (searched : Js.Map Customer) (emails : list string) (k : string) :
  mapGet (crossReference system searched emails) k =
  match mapGet searched k with
  | Some c => Some c
  | None => if setHas emails k then recovered system k else None
  end.
Proof.
  assert (forall m,
             mapGet
               (fold_left
                  (fun m0 email =>
                     if negb (mapHas searched email)
                     then match findByEmail system email with
                          | Resolved (Some c) => mapSet m0 email c
                          | _ => m0
                          end
                     else m0)
                  emails m) k =
             if setHas emails k && negb (mapHas searched k)
             then match recovered system k with
                  | Some c => Some c
                  | None => mapGet m k
                  end
             else mapGet m k) as H.
  2: { unfold crossReference. rewrite H. unfold mapHas.
       destruct (mapGet searched k) as [c|]; simpl.
       - rewrite andb_false_r. reflexivity.
       - rewrite andb_true_r.
         destruct (setHas emails k); [|reflexivity].
         destruct (recovered system k); reflexivity. }
  induction emails as [|e es IH]; intros m; simpl; [reflexivity|].
  rewrite IH. unfold recovered.
  destruct (String.eqb k e) eqn:Ek; simpl.
  - apply String.eqb_eq in Ek. subst e.
    destruct (negb (mapHas searched k)); simpl.
    + rewrite !andb_true_r.
      destruct (findByEmail system k) as [[c|]|];
        rewrite ?mapGet_mapSet, ?String.eqb_refl;
        destruct (setHas es k); reflexivity.
    + rewrite !andb_false_r. reflexivity.
  - destruct (negb (mapHas searched e)); [|reflexivity].
    destruct (findByEmail system e) as [[c|]|];
      rewrite ?mapGet_mapSet, ?Ek; reflexivity.
Qed.

(** The keys of an index are the emails of the records it was built from. *)
Lemma mapHas_indexByEmail (customers : list Customer) (k : string) :
  mapHas (indexByEmail customers) k = true <->
  exists c, In c customers /\ Customer.email c = k.
Proof.
  unfold indexByEmail.
  assert (forall m : Js.Map Customer,
             mapHas (fold_left (fun m0 c => mapSet m0 (Customer.email c) c)
                               customers m) k = true <->
             mapHas m k = true
             \/ exists c, In c customers /\ Customer.email c = k) as H.
  2: { rewrite H. unfold mapHas. simpl. intuition discriminate. }
  induction customers as [|c cs IH]; intros m; simpl.
  - split; [auto | intros [H|[c [[] _]]]; exact H].
  - rewrite IH. unfold mapHas at 1. rewrite mapGet_mapSet.
    destruct (String.eqb k (Customer.email c)) eqn:E.
    + apply String.eqb_eq in E. split; [|auto].
      intros _. right. exists c. auto.
    + apply String.eqb_neq in E. fold (mapHas m k). split.
      * intros [H|[c' [H1 H2]]]; [auto | right; exists c'; auto].
      * intros [H|[c' [[H1|H1] H2]]]; [auto | congruence | right; exists c'; auto].
Qed.

(** The set of emails of a search is the emails of the records either side
    found by name. *)
Lemma allEmailsOf_In (customersA customersB : list Customer) (email : string) :
  In email (allEmailsOf customersA customersB) <->
  exists c, In c (customersA ++ customersB) /\ Customer.email c = email.
Proof.
  unfold allEmailsOf.
  rewrite newSet_In, in_app_iff, <- !mapHas_keys, !mapHas_indexByEmail.
  split.
  - intros [[c [H E]]|[c [H E]]]; exists c; rewrite in_app_iff; auto.
  - intros [c [H E]]. apply in_app_iff in H.
    destruct H; [left | right]; exists c; auto.
Qed.

Lemma allEmailsOf_covered (customersA customersB : list Customer) (email : string) :
  In email (allEmailsOf customersA customersB) ->
  mapHas (indexByEmail customersA) email = true
  \/ mapHas (indexByEmail customersB) email = true.
Proof.
  unfold allEmailsOf. rewrite newSet_In, in_app_iff, <- !mapHas_keys. tauto.
Qed.

Lemma mapHas_present (m : Js.Map Customer) (k : string) :
  mapHas m k = true <-> mapGet m k <> None.
Proof. unfold mapHas. destruct (mapGet m k); split; congruence. Qed.

(** Every email of the set still has a record on one side after the
    cross-reference. *)
Lemma lookups_present (systemA systemB : ICustomerRepository)
      (customersA customersB : list Customer) (email : string) :
  In email (allEmailsOf customersA customersB) ->
  mapGet (lookupA systemA customersA customersB) email <> None
  \/ mapGet (lookupB systemB customersA customersB) email <> None.
Proof.
  intros H. rewrite <- !mapHas_present.
  destruct (allEmailsOf_covered _ _ _ H) as [Ha|Hb];
    [left | right]; apply crossReference_keeps; assumption.
Qed.

Lemma mergeEmail_Ok (mapA mapB : Js.Map Customer) (email : string)
      (u : UnifiedCustomerOutput) :
  mergeEmail mapA mapB email = Ok u <-> mergedFor mapA mapB email u.
Proof.
  unfold mergeEmail, mergedFor. rewrite !nullish_None.
  destruct (merge (mapGet mapA email) (mapGet mapB email)) as [m|e]; simpl.
  - split.
    + intros H. inversion H. exists m. auto.
    + intros [m' [H ->]]. inversion H. reflexivity.
  - split; [discriminate | intros [m' [H _]]; discriminate].
Qed.

Lemma mergeEach_Ok_inv (mapA mapB : Js.Map Customer) (emails : list string)
      (us : list UnifiedCustomerOutput) :
  mergeEach mapA mapB emails = Ok us ->
  Forall2 (mergedFor mapA mapB) emails us.
Proof.
  revert us. induction emails as [|email emails IH]; intros us; simpl.
  - intros H. inversion H. constructor.
  - destruct (mergeEmail mapA mapB email) as [u|e] eqn:Hu; simpl; [|discriminate].
    destruct (mergeEach mapA mapB emails) as [us'|e]; simpl; [|discriminate].
    intros H. inversion H. constructor.
    + apply mergeEmail_Ok, Hu.
    + apply IH. reflexivity.
Qed.

Lemma mergeEach_returns (mapA mapB : Js.Map Customer) (emails : list string) :
  (forall email, In email emails ->
                 mapGet mapA email <> None \/ mapGet mapB email <> None) ->
  exists us, mergeEach mapA mapB emails = Ok us.
Proof.
  induction emails as [|email emails IH]; intros Hp; simpl.
  - eexists. reflexivity.
  - destruct IH as [us Hus]; [intros e He; apply Hp; right; exact He|].
    rewrite Hus. unfold mergeEmail. rewrite !nullish_None.
    destruct (merge (mapGet mapA email) (mapGet mapB email)) as [m|e] eqn:Hm.
    + simpl. eexists. reflexivity.
    + exfalso. apply merge_throws in Hm. destruct Hm as [Ha [Hb _]].
      destruct (Hp email (or_introl eq_refl)); congruence.
Qed.

Lemma find_append {T : Type} (p : T -> bool) (l l' : list T) :
  find p (l ++ l') = match find p l with Some x => Some x | None => find p l' end.
Proof.
  induction l as [|x l IH]; simpl; [reflexivity|].
  destruct (p x); [reflexivity | exact IH].
Qed.

Lemma mapGet_index_fold (customers : list Customer) (m : Js.Map Customer)
      (k : string) :
  mapGet (fold_left (fun m0 c => mapSet m0 (Customer.email c) c) customers m) k =
  match lastWith customers k with
  | Some c => Some c
  | None => mapGet m k
  end.
Proof.
  unfold lastWith. revert m.
  induction customers as [|c cs IH]; intros m; simpl; [reflexivity|].
  rewrite IH, mapGet_mapSet.
  rewrite find_append.
  destruct (find (fun c0 => String.eqb (Customer.email c0) k) (rev cs));
    [reflexivity|].
  simpl. rewrite (String.eqb_sym (Customer.email c) k).
  destruct (String.eqb k (Customer.email c)); reflexivity.
Qed.

Lemma index_lastWith (customers : list Customer) (email : string) :
  mapGet (indexByEmail customers) email = lastWith customers email.
Proof.
  unfold indexByEmail. rewrite mapGet_index_fold.
  destruct (lastWith customers email); reflexivity.
Qed.

(** After the cross-reference the map of a side holds, for an email of the
    set, what that side returned for it. *)
Lemma lookup_returned (system : ICustomerRepository)
      (customers : list Customer) (emails : list string) (email : string) :
  In email emails ->
  mapGet (crossReference system (indexByEmail customers) emails) email =
  returnedFor system customers email.
Proof.
  intros Hin. rewrite mapGet_crossReference, index_lastWith.
  unfold returnedFor.
  destruct (lastWith customers email); [reflexivity|].
  apply setHas_In in Hin. rewrite Hin. reflexivity.
Qed.

(** The ways [SearchCustomersUseCase.execute] ends. *)
Lemma search_cases (systemA systemB : ICustomerRepository) (query : string) :
  (SearchCustomersUseCase.execute systemA systemB query = Throw Rejection
   /\ (searchByName systemA query = Rejected
       \/ searchByName systemB query = Rejected))
  \/ (exists customersA customersB us,
         searchByName systemA query = Resolved customersA
         /\ searchByName systemB query = Resolved customersB
         /\ SearchCustomersUseCase.execute systemA systemB query = Ok us
         /\ Forall2 (mergedFor (lookupA systemA customersA customersB)
                               (lookupB systemB customersA customersB))
                    (allEmailsOf customersA customersB) us).
Proof.
  unfold SearchCustomersUseCase.execute.
  destruct (searchByName systemA query) as [customersA|]; [|left; simpl; auto].
  destruct (searchByName systemB query) as [customersB|]; [|left; simpl; auto].
  right. simpl.
  fold (allEmailsOf customersA customersB).
  fold (lookupA systemA customersA customersB).
  fold (lookupB systemB customersA customersB).
  destruct (mergeEach_returns (lookupA systemA customersA customersB)
                              (lookupB systemB customersA customersB)
                              (allEmailsOf customersA customersB))
    as [us Hus].
  { intros email. apply lookups_present. }
  exists customersA, customersB, us.
  split; [reflexivity|]. split; [reflexivity|]. split; [exact Hus|].
  apply mergeEach_Ok_inv, Hus.
Qed.

Lemma mergedFor_partial (mapA mapB : Js.Map Customer) (email : string)
      (u : UnifiedCustomerOutput) :
  mergedFor mapA mapB email u ->
  (isPartial u = true <->
   onlyOneReturned (mapGet mapA email) (mapGet mapB email)).
Proof.
  intros [m [Hm ->]].
  rewrite (isPartial_markPartial _ _ _ (merge_not_partial _ _ _ Hm)).
  apply exactlyOne_true.
Qed.

Lemma Forall2_weaken_In {A B : Type} (P Q : A -> B -> Prop)
      (l : list A) (l' : list B) :
  Forall2 P l l' ->
  (forall x y, In x l -> P x y -> Q x y) ->
  Forall2 Q l l'.
Proof.
  intros HF. induction HF as [|x y l l' HP HF IH]; intros H.
  - constructor.
  - constructor.
    + apply H; [left; reflexivity | exact HP].
    + apply IH. intros x' y' Hin. apply H. right. exact Hin.
Qed.

(** C7.  The merge engine returns a record whenever a side is present and
    never sets [isPartial].  When the two lookups of [GetByEmail] resolve
    and one of them returned a record, [GetByEmail] returns a record, and
    that record has [isPartial] set exactly when one lookup returned a record
    and the other did not.  When the two name searches resolve, the name
    search returns one record for every email of its set; for each such
    email a side returned a record, by name or by the lookup that follows,
    and the record of the email has [isPartial] set exactly when one side
    returned a record for it and the other side returned none. *)
Theorem C7_isPartial_is_set_by_the_orchestrator :
  (forall a b u, merge a b = Ok u -> isPartial u = false)
  /\ (forall a b, a <> None \/ b <> None ->
                  exists u, merge a b = Ok u /\ isPartial u = false)
  /\ (forall systemA systemB email a b,
         findByEmail systemA (normalized email) = Resolved a ->
         findByEmail systemB (normalized email) = Resolved b ->
         a <> None \/ b <> None ->
         exists u,
           GetCustomerByEmailUseCase.execute systemA systemB email = Ok u
           /\ (isPartial u = true <-> onlyOneReturned a b))
  /\ (forall systemA systemB query customersA customersB,
         searchByName systemA query = Resolved customersA ->
         searchByName systemB query = Resolved customersB ->
         exists us,
           SearchCustomersUseCase.execute systemA systemB query = Ok us
           /\ Forall2
                (fun email u =>
                   (returnedFor systemA customersA email <> None
                    \/ returnedFor systemB customersB email <> None)
                   /\ (isPartial u = true <->
                       onlyOneReturned (returnedFor systemA customersA email)
                                       (returnedFor systemB customersB email)))
                (allEmailsOf customersA customersB) us).
Proof.
  split; [exact merge_not_partial|]. split; [|split].
  - intros a b Hp.
    destruct (merge a b) as [u|e] eqn:Hm.
    + exists u. split; [reflexivity | exact (merge_not_partial _ _ _ Hm)].
    + apply merge_throws in Hm. destruct Hm as [Ha [Hb _]].
      destruct Hp; congruence.
  - intros systemA systemB email a b Ha Hb Hp.
    destruct (getByEmail_cases systemA systemB email)
      as [[_ [H|H]]|[[_ [Ea Eb]]|[a' [b' [m [Ea [Eb [_ [Hm H]]]]]]]]];
      try congruence.
    + exfalso. rewrite Ha in Ea. rewrite Hb in Eb.
      inversion Ea; inversion Eb; subst. destruct Hp; congruence.
    + rewrite Ha in Ea. rewrite Hb in Eb.
      inversion Ea; inversion Eb; subst a' b'.
      eexists. split; [exact H|].
      rewrite (isPartial_markPartial _ _ _ (merge_not_partial _ _ _ Hm)).
      apply exactlyOne_true.
  - intros systemA systemB query customersA customersB Ha Hb.
    destruct (search_cases systemA systemB query)
      as [[_ [H|H]]|[cA [cB [us [Ea [Eb [H HF]]]]]]];
      try congruence.
    rewrite Ha in Ea. rewrite Hb in Eb.
    inversion Ea; inversion Eb; subst cA cB.
    exists us. split; [exact H|].
    apply (Forall2_weaken_In _ _ _ _ HF).
    intros email u Hin HM.
    pose proof (lookups_present systemA systemB _ _ _ Hin) as Hp.
    apply mergedFor_partial in HM.
    unfold lookupA, lookupB in Hp, HM.
    rewrite !(lookup_returned _ _ _ _ Hin) in Hp, HM.
    split; assumption.
Qed.

(** The theorem of C7 at the partial lookup of the unit tests: System A
    holds the record and System B does not. *)
Lemma C7_witness :
  exists u,
    GetCustomerByEmailUseCase.execute
      (Samples.onlyMax Samples.customerA) Samples.empty "Max@Example.de" = Ok u
    /\ isPartial u = true.
Proof.
  assert (Some Samples.customerA <> None) as Hs by discriminate.
  destruct C7_isPartial_is_set_by_the_orchestrator as [_ [_ [H _]]].
  destruct (H (Samples.onlyMax Samples.customerA) Samples.empty
              "Max@Example.de" (Some Samples.customerA) None
              eq_refl eq_refl (or_introl Hs))
    as [u [Hu Hp]].
  exists u. split; [exact Hu|].
  apply Hp. left. split; [exact Hs | reflexivity].
Defined.

(** C10.  Neither [GetByEmail] nor the name search ever fails in the
    both-absent branch of the merge engine: every email of the search has a
    record on one side when it is merged, and the search returns whenever
    both name searches resolve. *)
Theorem C10_merge_never_sees_two_absent_inputs :
  (forall systemA systemB email,
      ~ invariantViolation
          (GetCustomerByEmailUseCase.execute systemA systemB email))
  /\ (forall systemA systemB query,
         ~ invariantViolation
             (SearchCustomersUseCase.execute systemA systemB query))
  /\ (forall systemA systemB customersA customersB email,
         In email (allEmailsOf customersA customersB) ->
         mapGet (lookupA systemA customersA customersB) email <> None
         \/ mapGet (lookupB systemB customersA customersB) email <> None)
  /\ (forall systemA systemB query customersA customersB,
         searchByName systemA query = Resolved customersA ->
         searchByName systemB query = Resolved customersB ->
         exists us,
           SearchCustomersUseCase.execute systemA systemB query = Ok us
           /\ Forall2 (mergedFor (lookupA systemA customersA customersB)
                                 (lookupB systemB customersA customersB))
                      (allEmailsOf customersA customersB) us).
Proof.
  unfold invariantViolation.
  split; [|split; [|split]].
  - intros systemA systemB email [msg H].
    destruct (getByEmail_cases systemA systemB email)
      as [[H' _]|[[H' _]|[a [b [m [_ [_ [_ [_ H']]]]]]]]]; congruence.
  - intros systemA systemB query [msg H].
    destruct (search_cases systemA systemB query)
      as [[H' _]|[cA [cB [us [_ [_ [H' _]]]]]]]; congruence.
  - intros systemA systemB customersA customersB email.
    apply lookups_present.
  - intros systemA systemB query customersA customersB Ea Eb.
    destruct (search_cases systemA systemB query)
      as [[_ [H|H]]|[cA [cB [us [Ea' [Eb' [H HF]]]]]]]; try congruence.
    rewrite Ea in Ea'. rewrite Eb in Eb'. inversion Ea'; inversion Eb'; subst.
    exists us. split; assumption.
Qed.

(** ** The email pattern *)

Lemma append_nil_r (s : string) : s ++ "" = s.
Proof. induction s as [|c s IH]; simpl; [reflexivity | rewrite IH; reflexivity]. Qed.

Lemma append_assoc (s t u : string) : (s ++ t) ++ u = s ++ t ++ u.
Proof. induction s as [|c s IH]; simpl; [reflexivity | rewrite IH; reflexivity]. Qed.

Lemma append_empty (s t : string) : s ++ t = "" -> s = "" /\ t = "".
Proof. destruct s; simpl; [auto | discriminate]. Qed.

Lemma nullable_matches (r : Regex) : nullable r = true <-> matches r "".
Proof.
  split.
  - induction r; simpl; intros H; try discriminate.
    + constructor.
    + apply orb_true_iff in H. destruct H; [apply MAltL | apply MAltR]; auto.
    + apply andb_true_iff in H. destruct H.
      change "" with ("" ++ ""). constructor; auto.
    + constructor.
  - intros H. remember "" as s eqn:E.
    induction H; simpl; try discriminate; try reflexivity.
    + rewrite IHmatches by exact E. reflexivity.
    + rewrite IHmatches by exact E. apply orb_true_r.
    + apply append_empty in E. destruct E.
      rewrite IHmatches1, IHmatches2 by assumption. reflexivity.
Qed.

Lemma deriv_sound (c : ascii) (r : Regex) (s : string) :
  matches (deriv c r) s -> matches r (String c s).
Proof.
  revert s. induction r; simpl; intros s H.
  - inversion H.
  - inversion H.
  - destruct (Ascii.eqb c c0) eqn:E; inversion H; subst.
    apply Ascii.eqb_eq in E. subst. constructor.
  - destruct (inClass c items) eqn:E; inversion H; subst.
    constructor. exact E.
  - inversion H; subst; [apply MAltL | apply MAltR]; auto.
  - assert (forall t, matches (Seq (deriv c r1) r2) t ->
                      matches (Seq r1 r2) (String c t)) as HS.
    { intros t Ht. inversion Ht; subst.
      change (String c (s1 ++ s2)) with (String c s1 ++ s2).
      constructor; auto. }
    destruct (nullable r1) eqn:En; [|apply HS, H].
    inversion H; subst; [apply HS; assumption|].
    change (String c s) with ("" ++ String c s).
    constructor; [apply nullable_matches, En | auto].
  - inversion H; subst.
    change (String c (s1 ++ s2)) with (String c s1 ++ s2).
    constructor; auto.
Qed.

Lemma deriv_complete (c : ascii) (r : Regex) (s : string) :
  matches r (String c s) -> matches (deriv c r) s.
Proof.
  intros H. remember (String c s) as cs eqn:E. revert c s E.
  induction H; intros c' s' E; simpl; try discriminate.
  - inversion E; subst. rewrite Ascii.eqb_refl. constructor.
  - inversion E; subst. rewrite H. constructor.
  - apply MAltL. auto.
  - apply MAltR. auto.
  - destruct s1 as [|c1 s1]; simpl in E.
    + subst s2. apply nullable_matches in H. rewrite H.
      apply MAltR. auto.
    + inversion E; subst.
      destruct (nullable r1); [apply MAltL|]; constructor; auto.
  - destruct s1 as [|c1 s1]; simpl in E.
    + subst s2. apply (IHmatches2 c' s' eq_refl).
    + inversion E; subst. constructor; auto.
Qed.

(** The derivative matcher decides the denotation. *)
Lemma test_matches (r : Regex) (s : string) : test r s = true <-> matches r s.
Proof.
  revert r. induction s as [|c s IH]; intros r; simpl.
  - apply nullable_matches.
  - rewrite IH. split; [apply deriv_sound | apply deriv_complete].
Qed.

Lemma matches_Seq (r1 r2 : Regex) (s : string) :
  matches (Seq r1 r2) s <->
  exists s1 s2, s = s1 ++ s2 /\ matches r1 s1 /\ matches r2 s2.
Proof.
  split.
  - intros H. inversion H; subst. eauto.
  - intros [s1 [s2 [-> [H1 H2]]]]. constructor; assumption.
Qed.

Lemma matches_Chr (c : ascii) (s : string) :
  matches (Chr c) s <-> s = String c "".
Proof.
  split.
  - intros H. inversion H. reflexivity.
  - intros ->. constructor.
Qed.

Lemma inClass_atom (c : ascii) :
  inClass c [ClassSpace; ClassChar "@"] = negb (isAtomChar c).
Proof.
  unfold inClass, isAtomChar. simpl.
  destruct (isWhiteSpace c), (Ascii.eqb c "@"); reflexivity.
Qed.

Lemma matches_atom (s : string) :
  matches Email.atom s <-> exists c, s = String c "" /\ isAtomChar c = true.
Proof.
  unfold Email.atom. split.
  - intros H. inversion H as [| |items c Hc| | | | |]; subst.
    exists c. split; [reflexivity|].
    rewrite inClass_atom in Hc. apply negb_false_iff, Hc.
  - intros [c [-> Hc]]. constructor.
    rewrite inClass_atom, Hc. reflexivity.
Qed.

Lemma allAtom_append (s t : string) :
  allAtom (s ++ t) = allAtom s && allAtom t.
Proof.
  induction s as [|c s IH]; simpl; [reflexivity|].
  rewrite IH. apply andb_assoc.
Qed.

Lemma matches_Star_atom (s : string) :
  matches (Star Email.atom) s <-> allAtom s = true.
Proof.
  split.
  - intros H. remember (Star Email.atom) as r eqn:E.
    induction H; try discriminate; [reflexivity|].
    inversion E; subst.
    apply matches_atom in H. destruct H as [c [-> Hc]].
    simpl. rewrite Hc. apply IHmatches2. reflexivity.
  - induction s as [|c s IH]; simpl; intros H.
    + constructor.
    + apply andb_true_iff in H. destruct H as [Hc Hs].
      change (String c s) with (String c "" ++ s).
      constructor; [apply matches_atom; eauto | auto].
Qed.

Lemma matches_Plus_atom (s : string) :
  matches (Plus Email.atom) s <-> part s.
Proof.
  unfold Plus, part. rewrite matches_Seq. split.
  - intros [s1 [s2 [-> [H1 H2]]]].
    apply matches_atom in H1. destruct H1 as [c [-> Hc]].
    apply matches_Star_atom in H2. simpl. rewrite Hc, H2.
    split; [discriminate | reflexivity].
  - intros [Hne Ha]. destruct s as [|c s]; [congruence|].
    simpl in Ha. apply andb_true_iff in Ha. destruct Ha as [Hc Hs].
    exists (String c ""), s. split; [reflexivity|].
    split; [apply matches_atom; eauto | apply matches_Star_atom, Hs].
Qed.

(** [Email.isValid] accepts exactly the strings of the pattern. *)
Lemma isValid_matchesPattern (s : string) :
  Email.isValid s = true <-> matchesPattern s.
Proof.
  unfold Email.isValid, Email.emailRegex, matchesPattern.
  rewrite test_matches. split.
  - intros H.
    apply matches_Seq in H. destruct H as [l [t1 [-> [Hl H]]]].
    apply matches_Seq in H. destruct H as [a [t2 [-> [Ha H]]]].
    apply matches_Seq in H. destruct H as [m [t3 [-> [Hm H]]]].
    apply matches_Seq in H. destruct H as [d [r [-> [Hd Hr]]]].
    apply matches_Chr in Ha. apply matches_Chr in Hd. subst a d.
    exists l, m, r. rewrite <- !matches_Plus_atom. auto.
  - intros [l [m [r [-> [Hl [Hm Hr]]]]]].
    rewrite <- matches_Plus_atom in Hl, Hm, Hr.
    constructor; [exact Hl|].
    change ("@" ++ m ++ "." ++ r) with (String "@" "" ++ (m ++ "." ++ r)).
    constructor; [constructor|].
    constructor; [exact Hm|].
    change ("." ++ r) with (String "." "" ++ r).
    constructor; [constructor | exact Hr].
Qed.

(** ** Normalization *)

Lemma lowerChar_idempotent (c : ascii) : lowerChar (lowerChar c) = lowerChar c.
Proof. destruct c as [[] [] [] [] [] [] [] []]; reflexivity. Qed.

Lemma isWhiteSpace_lowerChar (c : ascii) :
  isWhiteSpace (lowerChar c) = isWhiteSpace c.
Proof. destruct c as [[] [] [] [] [] [] [] []]; reflexivity. Qed.

Lemma toLowerCase_idempotent (s : string) :
  toLowerCase (toLowerCase s) = toLowerCase s.
Proof.
  induction s as [|c s IH]; simpl; [reflexivity|].
  rewrite lowerChar_idempotent, IH. reflexivity.
Qed.

Lemma toLowerCase_trimStart (s : string) :
  toLowerCase (trimStart s) = trimStart (toLowerCase s).
Proof.
  induction s as [|c s IH]; simpl; [reflexivity|].
  rewrite isWhiteSpace_lowerChar.
  destruct (isWhiteSpace c); [exact IH | reflexivity].
Qed.

Lemma toLowerCase_trimEnd (s : string) :
  toLowerCase (trimEnd s) = trimEnd (toLowerCase s).
Proof.
  induction s as [|c s IH]; simpl; [reflexivity|].
  rewrite <- IH, isWhiteSpace_lowerChar.
  destruct (trimEnd s); simpl; [|reflexivity].
  destruct (isWhiteSpace c); reflexivity.
Qed.

Lemma trimStart_startsClean (s : string) : startsClean (trimStart s).
Proof.
  induction s as [|c s IH]; simpl; [exact I|].
  destruct (isWhiteSpace c) eqn:E; [exact IH | exact E].
Qed.

Lemma startsClean_trimStart (s : string) : startsClean s -> trimStart s = s.
Proof. destruct s as [|c s]; simpl; [reflexivity | intros ->; reflexivity]. Qed.

Lemma startsClean_trimEnd (s : string) : startsClean s -> startsClean (trimEnd s).
Proof.
  destruct s as [|c s]; simpl; [auto|]. intros E.
  destruct (trimEnd s); [rewrite E|]; exact E.
Qed.

Lemma trimEnd_idempotent (s : string) : trimEnd (trimEnd s) = trimEnd s.
Proof.
  induction s as [|c s IH]; simpl; [reflexivity|].
  destruct (trimEnd s) as [|d t] eqn:E.
  - destruct (isWhiteSpace c) eqn:Ec; simpl; [reflexivity|].
    rewrite Ec. reflexivity.
  - simpl in IH |- *. rewrite IH. reflexivity.
Qed.

Lemma trim_idempotent (s : string) : trim (trim s) = trim s.
Proof.
  unfold trim.
  rewrite (startsClean_trimStart (trimEnd (trimStart s))).
  - apply trimEnd_idempotent.
  - apply startsClean_trimEnd, trimStart_startsClean.
Qed.

(** A normalized email is a fixed point of the normalization. *)
Lemma normalized_idempotent (e : string) :
  normalized (normalized e) = normalized e.
Proof.
  unfold normalized, trim.
  rewrite toLowerCase_trimEnd, toLowerCase_trimStart, toLowerCase_idempotent.
  apply trim_idempotent.
Qed.

(** ** Record construction *)

(** C3, as stated, fails: the entity's constructor returns a record whose
    normalized email is not an address, where the value object refuses the
    same input. *)
Lemma C3_record_with_invalid_email_is_constructed :
  Customer.email (Customer.new Samples.noAddress) = "not-an-email"
  /\ Email.isValid (Customer.email (Customer.new Samples.noAddress)) = false
  /\ Email.new (Customer.p_email Samples.noAddress) =
     Throw (Error "Invalid email format:  Not-An-Email ").
Proof. repeat split; reflexivity. Qed.

(** C3, amended.  Constructing a record normalizes its email (lower case,
    then trimmed) and never fails, whatever the email is.  The validation
    belongs to the email value object: its construction fails exactly when
    the normalized email is outside the pattern, and otherwise holds the
    normalized email, which is then inside the pattern.  A normalized email
    is left unchanged by a second normalization. *)
Theorem C3_record_normalizes_and_value_object_validates :
  (forall p,
      Customer.email (Customer.new p) = normalized (Customer.p_email p)
      /\ normalized (Customer.email (Customer.new p)) =
         Customer.email (Customer.new p))
  /\ (forall e,
         ~ matchesPattern (normalized e) ->
         Email.new e = Throw (Error ("Invalid email format: " ++ e)))
  /\ (forall e,
         matchesPattern (normalized e) ->
         Email.new e = Ok (Email.mk (normalized e)))
  /\ (forall e v,
         Email.new e = Ok v ->
         Email.value v = normalized e /\ matchesPattern (Email.value v)).
Proof.
  split; [intros p; split; [reflexivity | apply normalized_idempotent]|].
  assert (forall e, Email.new e =
                    if Email.isValid (normalized e)
                    then Ok (Email.mk (normalized e))
                    else Throw (Error ("Invalid email format: " ++ e))) as Hnew.
  { intros e. unfold Email.new, normalized.
    destruct (Email.isValid (trim (toLowerCase e))); reflexivity. }
  split; [|split].
  - intros e Hn. rewrite Hnew.
    destruct (Email.isValid (normalized e)) eqn:E; [|reflexivity].
    exfalso. apply Hn, isValid_matchesPattern, E.
  - intros e Hm. rewrite Hnew.
    apply isValid_matchesPattern in Hm. rewrite Hm. reflexivity.
  - intros e v. rewrite Hnew.
    destruct (Email.isValid (normalized e)) eqn:E; [|discriminate].
    intros H. inversion H. simpl.
    split; [reflexivity | apply isValid_matchesPattern, E].
Qed.

(** ** The unit tests of the orchestration, replayed *)

Example getByEmail_both :
  exists u,
    GetCustomerByEmailUseCase.execute
      (Samples.onlyMax Samples.customerA) (Samples.onlyMax Samples.customerB)
      "Max@Example.DE" = Ok u
    /\ Metadata.sources (Unified._metadata u) = [SYSTEM_A; SYSTEM_B]
    /\ isPartial u = false
    /\ Unified.phone u = Some "+49 222".
Proof. eexists. repeat split; reflexivity. Qed.

Example getByEmail_partial :
  exists u,
    GetCustomerByEmailUseCase.execute
      (Samples.onlyMax Samples.customerA) Samples.empty "max@example.de" = Ok u
    /\ Metadata.sources (Unified._metadata u) = [SYSTEM_A]
    /\ isPartial u = true
    /\ Unified.identifiers u = Identifiers.mk (Some "id-a") None.
Proof. eexists. repeat split; reflexivity. Qed.

Example getByEmail_not_found :
  GetCustomerByEmailUseCase.execute Samples.empty Samples.empty
                                    "NotFound@example.de" =
  Throw (CustomerNotFoundException "notfound@example.de").
Proof. reflexivity. Qed.

(** The name search of A misses the record, its lookup by email finds it. *)
Example search_cross_reference :
  exists u,
    SearchCustomersUseCase.execute
      (Samples.repository
         (fun email =>
            if String.eqb email "max@example.de"
            then Some Samples.customerA else None)
         [])
      (Samples.onlyMax Samples.customerB) "Mustermann" = Ok [u]
    /\ Metadata.sources (Unified._metadata u) = [SYSTEM_A; SYSTEM_B]
    /\ isPartial u = false.
Proof. eexists. repeat split; reflexivity. Qed.

Example search_partial :
  exists u,
    SearchCustomersUseCase.execute
      (Samples.onlyMax Samples.customerA) Samples.empty "Max" = Ok [u]
    /\ Metadata.sources (Unified._metadata u) = [SYSTEM_A]
    /\ isPartial u = true.
Proof. eexists. repeat split; reflexivity. Qed.

Example search_nothing :
  SearchCustomersUseCase.execute Samples.empty Samples.empty "nonexistent" = Ok [].
Proof. reflexivity. Qed.

(** * Further properties *)

(** ** Merge engine: the other fields *)

Lemma fieldOf_address (a b : Customer) :
  fieldOf (mergeFromBothSystems a b) "address" =
  Some (flagged SYSTEM_B
          (negb (strictEq (Customer.address a) (Customer.address b))
           && notNull (Customer.address a) && notNull (Customer.address b))
          (Customer.address a) (Customer.address b)).
Proof.
  unfold fieldOf, mergeFromBothSystems; simpl.
  rewrite !mapGet_setPreferred_other by reflexivity.
  rewrite mapGet_mapSet; simpl.
  reflexivity.
Qed.

(** The address test of the merge holds exactly when both addresses are
    there and differ. *)
Lemma addressConflict_true (x y : option string) :
  negb (strictEq x y) && notNull x && notNull y = true
  <-> exists s t, x = Some s /\ y = Some t /\ s <> t.
Proof.
  destruct x as [s|], y as [t|]; simpl.
  - rewrite !andb_true_r, negb_true_iff, String.eqb_neq. split.
    + intros H. exists s, t. auto.
    + intros [s' [t' [Hs [Ht H]]]]. congruence.
  - split; [discriminate | intros [s' [t' [_ [Ht _]]]]; discriminate].
  - split; [discriminate | intros [s' [t' [Hs _]]]; discriminate].
  - split; [discriminate | intros [s' [t' [Hs _]]]; discriminate].
Qed.

Lemma fieldOf_contractStartDate (a b : Customer) :
  fieldOf (mergeFromBothSystems a b) "contractStartDate" =
  if truthy (Customer.contractStartDate a) then Some (plain SYSTEM_A)
  else if truthy (Customer.contractStartDate b) then Some (plain SYSTEM_B)
  else None.
Proof.
  unfold fieldOf, mergeFromBothSystems; simpl.
  rewrite mapGet_setPreferred_other by reflexivity.
  rewrite mapGet_setPreferred_same.
  rewrite mapGet_mapSet; simpl.
  rewrite mapGet_setPreferred_other by reflexivity.
  reflexivity.
Qed.

Lemma fieldOf_contractType (a b : Customer) :
  fieldOf (mergeFromBothSystems a b) "contractType" =
  if truthy (Customer.contractType a) then Some (plain SYSTEM_A)
  else if truthy (Customer.contractType b) then Some (plain SYSTEM_B)
  else None.
Proof.
  unfold fieldOf, mergeFromBothSystems; simpl.
  rewrite mapGet_setPreferred_same.
  rewrite mapGet_setPreferred_other by reflexivity.
  rewrite mapGet_mapSet; simpl.
  rewrite mapGet_setPreferred_other by reflexivity.
  reflexivity.
Qed.

(** X1.  With both records present the merged address is B's, also when B
    has none; the address entry always names SYSTEM_B, is flagged exactly
    when both records have an address and the two differ, and carries the two
    addresses exactly then.  An address that only one record has is not
    flagged. *)
Theorem X1_address_is_B_and_flagged_when_both_differ (a b : Customer) :
  exists u fm,
    merge (Some a) (Some b) = Ok u
    /\ Unified.address u = Customer.address b
    /\ fieldOf u "address" = Some fm
    /\ FieldMetadata.source fm = SYSTEM_B
    /\ (FieldMetadata.conflict fm = true <->
        exists s t,
          Customer.address a = Some s /\ Customer.address b = Some t /\ s <> t)
    /\ (FieldMetadata.conflict fm = true ->
        FieldMetadata.systemAValue fm = Some (Customer.address a)
        /\ FieldMetadata.systemBValue fm = Some (Customer.address b))
    /\ (FieldMetadata.conflict fm = false ->
        FieldMetadata.systemAValue fm = None
        /\ FieldMetadata.systemBValue fm = None)
    /\ (Customer.address a = None \/ Customer.address b = None ->
        FieldMetadata.conflict fm = false).
Proof.
  eexists. eexists. split; [reflexivity|].
  split; [reflexivity|]. split; [apply fieldOf_address|].
  unfold flagged. simpl. split; [reflexivity|].
  split; [apply addressConflict_true|].
  split; [intros ->; split; reflexivity|].
  split; [intros ->; split; reflexivity|].
  intros [H | H]; rewrite H;
    [destruct (Customer.address b) | destruct (Customer.address a)];
    simpl; rewrite ?andb_false_r; reflexivity.
Qed.

(** X2.  With both records present each contract field of the merged record
    is A's value unless A's is [null], and B's then.  Its entry in [fields]
    is written by truthiness: SYSTEM_A when A's value is a non-empty string,
    else SYSTEM_B when B's is, else no entry; it is never flagged.  So an
    empty string held by A is the merged value although the entry, if any,
    names SYSTEM_B. *)
Theorem X2_contract_fields_prefer_A (a b : Customer) :
  exists u,
    merge (Some a) (Some b) = Ok u
    /\ (Customer.contractStartDate a <> None ->
        Unified.contractStartDate u = Customer.contractStartDate a)
    /\ (Customer.contractStartDate a = None ->
        Unified.contractStartDate u = Customer.contractStartDate b)
    /\ (Customer.contractType a <> None ->
        Unified.contractType u = Customer.contractType a)
    /\ (Customer.contractType a = None ->
        Unified.contractType u = Customer.contractType b)
    /\ fieldOf u "contractStartDate" =
       (if truthy (Customer.contractStartDate a) then Some (plain SYSTEM_A)
        else if truthy (Customer.contractStartDate b) then Some (plain SYSTEM_B)
        else None)
    /\ fieldOf u "contractType" =
       (if truthy (Customer.contractType a) then Some (plain SYSTEM_A)
        else if truthy (Customer.contractType b) then Some (plain SYSTEM_B)
        else None)
    /\ (forall key fm,
           (key = "contractStartDate" \/ key = "contractType") ->
           fieldOf u key = Some fm -> FieldMetadata.conflict fm = false).
Proof.
  eexists. split; [reflexivity|].
  split; [|split; [|split; [|split; [|split; [|split]]]]].
  - simpl. destruct (Customer.contractStartDate a); [reflexivity | congruence].
  - simpl. intros ->. reflexivity.
  - simpl. destruct (Customer.contractType a); [reflexivity | congruence].
  - simpl. intros ->. reflexivity.
  - apply fieldOf_contractStartDate.
  - apply fieldOf_contractType.
  - intros key fm [-> | ->].
    + rewrite fieldOf_contractStartDate.
      destruct (truthy (Customer.contractStartDate a));
        [|destruct (truthy (Customer.contractStartDate b))];
        intros H; inversion H; reflexivity.
    + rewrite fieldOf_contractType.
      destruct (truthy (Customer.contractType a));
        [|destruct (truthy (Customer.contractType b))];
        intros H; inversion H; reflexivity.
Qed.

Lemma conflictsDetected_both (a b : Customer) :
  Metadata.conflictsDetected (Unified._metadata (mergeFromBothSystems a b)) = true
  <-> Customer.name a <> Customer.name b
      \/ (exists s t,
             Customer.address a = Some s /\ Customer.address b = Some t
             /\ s <> t).
Proof.
  assert (Metadata.conflictsDetected
            (Unified._metadata (mergeFromBothSystems a b)) =
          negb (String.eqb (Customer.name a) (Customer.name b))
          || (negb (strictEq (Customer.address a) (Customer.address b))
              && notNull (Customer.address a)
              && notNull (Customer.address b))) as ->.
  { unfold mergeFromBothSystems, setPreferred; simpl.
    destruct (truthy (Customer.phone b)), (truthy (Customer.phone a)),
      (truthy (Customer.contractStartDate a)),
      (truthy (Customer.contractStartDate b)),
      (truthy (Customer.contractType a)), (truthy (Customer.contractType b));
      simpl;
      destruct (String.eqb (Customer.name a) (Customer.name b)),
        (negb (strictEq (Customer.address a) (Customer.address b))
         && notNull (Customer.address a) && notNull (Customer.address b));
      reflexivity. }
  rewrite orb_true_iff, negb_true_iff, String.eqb_neq, addressConflict_true.
  tauto.
Qed.

(** X3.  With both records present [conflictsDetected] is set exactly when
    the names differ or both records have an address and the two addresses
    differ; an address that only one record has, the phone and the contract
    fields never set it. *)
Theorem X3_conflictsDetected_iff_name_or_both_addresses_differ
        (a b : Customer) :
  exists u,
    merge (Some a) (Some b) = Ok u
    /\ (Metadata.conflictsDetected (Unified._metadata u) = true <->
        Customer.name a <> Customer.name b
        \/ (exists s t,
               Customer.address a = Some s /\ Customer.address b = Some t
               /\ s <> t)).
Proof.
  eexists. split; [reflexivity | apply conflictsDetected_both].
Qed.

Lemma wellFormed_plain (key : string) (source : SourceSystem) :
  In key fieldNames -> wellFormedEntry (key, plain source).
Proof.
  intros H. unfold wellFormedEntry; simpl.
  split; [exact H|]. split; [discriminate | auto].
Qed.

Lemma wellFormed_flagged (key : string) (source : SourceSystem) (x y : string) :
  In key fieldNames ->
  wellFormedEntry
    (key, flagged source (negb (String.eqb x y)) (Some x) (Some y)).
Proof.
  intros H. unfold wellFormedEntry, flagged; simpl.
  split; [exact H|].
  destruct (String.eqb x y) eqn:E; simpl.
  - split; [discriminate | auto].
  - apply String.eqb_neq in E. split; [|discriminate].
    intros _. exists x, y. auto.
Qed.

Lemma wellFormed_flagged_address (key : string) (source : SourceSystem)
      (x y : option string) :
  In key fieldNames ->
  wellFormedEntry
    (key, flagged source (negb (strictEq x y) && notNull x && notNull y) x y).
Proof.
  intros H. unfold wellFormedEntry, flagged; simpl.
  split; [exact H|].
  destruct (negb (strictEq x y) && notNull x && notNull y) eqn:E; simpl.
  - apply addressConflict_true in E. destruct E as [s [t [-> [-> E]]]].
    split; [|discriminate]. intros _. exists s, t. auto.
  - split; [discriminate | auto].
Qed.

Lemma fieldNames_In :
  In "name" fieldNames /\ In "address" fieldNames /\ In "phone" fieldNames
  /\ In "contractStartDate" fieldNames /\ In "contractType" fieldNames.
Proof. unfold fieldNames. simpl. tauto. Qed.

Ltac entries :=
  repeat first
    [ apply Forall_nil
    | apply Forall_cons;
      [ first [ apply wellFormed_plain | apply wellFormed_flagged
              | apply wellFormed_flagged_address ];
        unfold fieldNames; simpl; tauto
      | ] ].

Ltac distinct_keys :=
  repeat first
    [ apply NoDup_nil
    | apply NoDup_cons; [ simpl; intuition discriminate | ] ].

(** X4.  In every unified record the merge engine returns, [fields] has at
    most one entry per key, every key is one of the five field names (never
    the email), and an entry carries its two source values exactly when it
    is flagged, the two values then being different. *)
Theorem X4_fields_entries_are_well_formed
        (a b : option Customer) (u : UnifiedCustomerOutput) :
  merge a b = Ok u ->
  Forall wellFormedEntry (Metadata.fields (Unified._metadata u))
  /\ NoDup (mapKeys (Metadata.fields (Unified._metadata u))).
Proof.
  destruct a as [a|], b as [b|]; simpl; intros H; inversion H; subst u; clear H.
  - unfold mergeFromBothSystems, setPreferred; simpl.
    destruct (truthy (Customer.phone b)), (truthy (Customer.phone a)),
      (truthy (Customer.contractStartDate a)),
      (truthy (Customer.contractStartDate b)),
      (truthy (Customer.contractType a)), (truthy (Customer.contractType b));
      simpl; (split; [entries | distinct_keys]).
  - unfold buildSingleSourceResult, setIfTruthy; simpl.
    destruct (truthy (Customer.address a)), (truthy (Customer.phone a)),
      (truthy (Customer.contractStartDate a)),
      (truthy (Customer.contractType a));
      simpl; (split; [entries | distinct_keys]).
  - unfold buildSingleSourceResult, setIfTruthy; simpl.
    destruct (truthy (Customer.address b)), (truthy (Customer.phone b)),
      (truthy (Customer.contractStartDate b)),
      (truthy (Customer.contractType b));
      simpl; (split; [entries | distinct_keys]).
Qed.

(** The theorem of X4 at the two sample records. *)
Lemma X4_witness :
  exists u,
    merge (Some Samples.customerA) (Some Samples.customerB) = Ok u
    /\ Forall wellFormedEntry (Metadata.fields (Unified._metadata u))
    /\ NoDup (mapKeys (Metadata.fields (Unified._metadata u))).
Proof.
  eexists. split; [reflexivity|].
  apply (X4_fields_entries_are_well_formed
           (Some Samples.customerA) (Some Samples.customerB) _ eq_refl).
Defined.

(** X5.  A unified record names one or both systems in [sources], in the
    order A, B, and holds the identifier of exactly the systems it names;
    the merge engine leaves [isPartial] unset.  Which system a single record
    is attributed to follows from the argument it was passed as, not from
    the [source] tag of the record. *)
Theorem X5_sources_and_identifiers_agree
        (a b : option Customer) (u : UnifiedCustomerOutput) :
  merge a b = Ok u ->
  Metadata.sources (Unified._metadata u) =
    ((if absent a then [] else [SYSTEM_A])
       ++ (if absent b then [] else [SYSTEM_B]))%list
  /\ Metadata.sources (Unified._metadata u) <> []
  /\ Identifiers.systemAId (Unified.identifiers u) = option_map Customer.id a
  /\ Identifiers.systemBUuid (Unified.identifiers u) = option_map Customer.id b.
Proof.
  destruct a as [a|], b as [b|]; simpl; intros H; inversion H; subst u; simpl;
    repeat split; discriminate.
Qed.

(** The theorem of X5 at a record that only System A holds. *)
Lemma X5_witness :
  exists u,
    merge (Some Samples.customerA) None = Ok u
    /\ Metadata.sources (Unified._metadata u) = [SYSTEM_A]
    /\ Metadata.sources (Unified._metadata u) <> []
    /\ Identifiers.systemAId (Unified.identifiers u) = Some "id-a"
    /\ Identifiers.systemBUuid (Unified.identifiers u) = None.
Proof.
  eexists. split; [reflexivity|].
  apply (X5_sources_and_identifiers_agree
           (Some Samples.customerA) None _ eq_refl).
Defined.

Lemma fieldOf_single (c : Customer) (source : SourceSystem) (key : string) :
  fieldOf (buildSingleSourceResult c source) key =
  if String.eqb key "contractType"
  then (if truthy (Customer.contractType c) then Some (plain source) else None)
  else if String.eqb key "contractStartDate"
  then (if truthy (Customer.contractStartDate c) then Some (plain source) else None)
  else if String.eqb key "phone"
  then (if truthy (Customer.phone c) then Some (plain source) else None)
  else if String.eqb key "address"
  then (if truthy (Customer.address c) then Some (plain source) else None)
  else if String.eqb key "name" then Some (plain source)
  else None.
Proof.
  unfold fieldOf, buildSingleSourceResult, setIfTruthy.
  cbn [Unified._metadata Metadata.fields].
  destruct (String.eqb key "contractType") eqn:E1.
  { apply String.eqb_eq in E1. subst key.
    destruct (truthy (Customer.contractType c));
      destruct (truthy (Customer.contractStartDate c)),
        (truthy (Customer.phone c)), (truthy (Customer.address c));
      reflexivity. }
  destruct (String.eqb key "contractStartDate") eqn:E2.
  { apply String.eqb_eq in E2. subst key.
    destruct (truthy (Customer.contractType c)),
      (truthy (Customer.contractStartDate c)),
      (truthy (Customer.phone c)), (truthy (Customer.address c));
      reflexivity. }
  destruct (String.eqb key "phone") eqn:E3.
  { apply String.eqb_eq in E3. subst key.
    destruct (truthy (Customer.contractType c)),
      (truthy (Customer.contractStartDate c)),
      (truthy (Customer.phone c)), (truthy (Customer.address c));
      reflexivity. }
  destruct (String.eqb key "address") eqn:E4.
  { apply String.eqb_eq in E4. subst key.
    destruct (truthy (Customer.contractType c)),
      (truthy (Customer.contractStartDate c)),
      (truthy (Customer.phone c)), (truthy (Customer.address c));
      reflexivity. }
  destruct (truthy (Customer.contractType c)),
    (truthy (Customer.contractStartDate c)),
    (truthy (Customer.phone c)), (truthy (Customer.address c));
    rewrite ?mapGet_mapSet, ?E1, ?E2, ?E3, ?E4; simpl;
    destruct (String.eqb key "name"); reflexivity.
Qed.

(** X6.  Merging a single record, on either side, copies its six fields
    unchanged and detects no conflict.  [fields] then holds the name entry
    and, for each of the address, the phone, the contract start date and the
    contract type, an entry exactly when the record holds a non-empty string
    there; it holds no other key, and every entry is unflagged and names the
    side the record was passed on. *)
Theorem X6_single_record_is_copied (c : Customer) :
  (exists u,
      merge (Some c) None = Ok u
      /\ copies u c
      /\ Metadata.conflictsDetected (Unified._metadata u) = false
      /\ fieldOf u "name" = Some (plain SYSTEM_A)
      /\ fieldOf u "address" =
         (if truthy (Customer.address c) then Some (plain SYSTEM_A) else None)
      /\ fieldOf u "phone" =
         (if truthy (Customer.phone c) then Some (plain SYSTEM_A) else None)
      /\ fieldOf u "contractStartDate" =
         (if truthy (Customer.contractStartDate c)
          then Some (plain SYSTEM_A) else None)
      /\ fieldOf u "contractType" =
         (if truthy (Customer.contractType c)
          then Some (plain SYSTEM_A) else None)
      /\ (forall key, ~ In key fieldNames -> fieldOf u key = None))
  /\ (exists u,
         merge None (Some c) = Ok u
         /\ copies u c
         /\ Metadata.conflictsDetected (Unified._metadata u) = false
         /\ fieldOf u "name" = Some (plain SYSTEM_B)
         /\ fieldOf u "address" =
            (if truthy (Customer.address c) then Some (plain SYSTEM_B) else None)
         /\ fieldOf u "phone" =
            (if truthy (Customer.phone c) then Some (plain SYSTEM_B) else None)
         /\ fieldOf u "contractStartDate" =
            (if truthy (Customer.contractStartDate c)
             then Some (plain SYSTEM_B) else None)
         /\ fieldOf u "contractType" =
            (if truthy (Customer.contractType c)
             then Some (plain SYSTEM_B) else None)
         /\ (forall key, ~ In key fieldNames -> fieldOf u key = None)).
Proof.
  assert (forall source,
             let u := buildSingleSourceResult c source in
             copies u c
             /\ Metadata.conflictsDetected (Unified._metadata u) = false
             /\ fieldOf u "name" = Some (plain source)
             /\ fieldOf u "address" =
                (if truthy (Customer.address c)
                 then Some (plain source) else None)
             /\ fieldOf u "phone" =
                (if truthy (Customer.phone c) then Some (plain source) else None)
             /\ fieldOf u "contractStartDate" =
                (if truthy (Customer.contractStartDate c)
                 then Some (plain source) else None)
             /\ fieldOf u "contractType" =
                (if truthy (Customer.contractType c)
                 then Some (plain source) else None)
             /\ (forall key, ~ In key fieldNames -> fieldOf u key = None))
    as H.
  { intros source u. subst u.
    split; [unfold copies; simpl; tauto|].
    split; [reflexivity|].
    do 5 (split; [rewrite fieldOf_single; reflexivity|]).
    intros key Hk. rewrite fieldOf_single.
    repeat match goal with
           | |- context [String.eqb key ?k] =>
               let E := fresh "E" in
               destruct (String.eqb key k) eqn:E;
               [ apply String.eqb_eq in E; subst key;
                 exfalso; apply Hk; unfold fieldNames; simpl; tauto | ]
           end.
    reflexivity. }
  split; eexists; (split; [reflexivity | apply H]).
Qed.

(** ** Diff engine: shape of the result *)

Lemma filter_by_membership (l : list string) :
  listedInOrder l fieldNames <->
  l = filter (fun f => existsb (String.eqb f) l) fieldNames.
Proof.
  split; [|intros H; eexists; exact H].
  intros [keep ->]. apply filter_ext_in. intros f Hf.
  destruct (keep f) eqn:E; symmetry.
  - apply existsb_exists. exists f.
    split; [apply filter_In; auto | apply String.eqb_refl].
  - destruct (existsb (String.eqb f) (filter keep fieldNames)) eqn:Ex;
      [|reflexivity].
    apply existsb_exists in Ex. destruct Ex as [x [Hx He]].
    apply String.eqb_eq in He. subst x.
    apply filter_In in Hx. destruct Hx as [_ Hx]. congruence.
Qed.

Lemma listedInOrder_NoDup (l : list string) :
  listedInOrder l fieldNames -> NoDup l /\ ~ In "email" l.
Proof.
  intros [keep ->]. split.
  - apply NoDup_filter. unfold fieldNames. distinct_keys.
  - rewrite filter_In. unfold fieldNames. simpl. intuition discriminate.
Qed.

(** The shape of the two lists, from three checks that can be computed. *)
Lemma lists_from_checks (matchedNames conflictNames : list string) :
  matchedNames = filter (fun f => existsb (String.eqb f) matchedNames) fieldNames ->
  conflictNames = filter (fun f => existsb (String.eqb f) conflictNames) fieldNames ->
  forallb (fun f => negb (existsb (String.eqb f) conflictNames)) matchedNames = true ->
  listedInOrder matchedNames fieldNames
  /\ listedInOrder conflictNames fieldNames
  /\ NoDup ("email" :: matchedNames)
  /\ NoDup conflictNames
  /\ (forall f, In f ("email" :: matchedNames) -> ~ In f conflictNames).
Proof.
  intros Hm Hc Hd.
  apply filter_by_membership in Hm. apply filter_by_membership in Hc.
  destruct (listedInOrder_NoDup _ Hm) as [Hm1 Hm2].
  destruct (listedInOrder_NoDup _ Hc) as [Hc1 Hc2].
  split; [exact Hm|]. split; [exact Hc|].
  split; [constructor; assumption|]. split; [exact Hc1|].
  intros f [<-|Hf]; [exact Hc2|].
  rewrite forallb_forall in Hd. specialize (Hd f Hf).
  apply negb_true_iff in Hd. intros Hin.
  assert (existsb (String.eqb f) conflictNames = true) as E.
  { apply existsb_exists. exists f. split; [exact Hin | apply String.eqb_refl]. }
  congruence.
Qed.

(** X7.  The matched fields of a diff result are [email] followed by some of
    the five field names in their fixed order; the conflict entries follow
    the same order; no name occurs twice, none is both matched and in
    conflict, and together the two lists have at most six entries. *)
Theorem X7_diff_lists_follow_the_field_order
        (a b : Customer) (r : SyncResultOutput) :
  diff a b = Ok r ->
  hd_error (SyncResult.matchedFields r) = Some "email"
  /\ listedInOrder (tl (SyncResult.matchedFields r)) fieldNames
  /\ listedInOrder (map FieldConflict.field (SyncResult.conflicts r)) fieldNames
  /\ NoDup (SyncResult.matchedFields r)
  /\ NoDup (map FieldConflict.field (SyncResult.conflicts r))
  /\ (forall f, In f (SyncResult.matchedFields r) ->
                ~ In f (map FieldConflict.field (SyncResult.conflicts r)))
  /\ (length (SyncResult.conflicts r)
      + length (SyncResult.matchedFields r) <= 6)%nat.
Proof.
  intros Hd.
  destruct (diff_Ok_inv a b r Hd) as [ta [tb [_ [_ [Hc [Hm _]]]]]].
  rewrite Hc, Hm. clear Hc Hm Hd.
  cbn [hd_error tl]. split; [reflexivity|].
  assert (forall ms cs : list string,
             ms = filter (fun f => existsb (String.eqb f) ms) fieldNames ->
             cs = filter (fun f => existsb (String.eqb f) cs) fieldNames ->
             forallb (fun f => negb (existsb (String.eqb f) cs)) ms = true ->
             (length cs + S (length ms) <= 6)%nat ->
             listedInOrder ms fieldNames
             /\ listedInOrder cs fieldNames
             /\ NoDup ("email" :: ms)
             /\ NoDup cs
             /\ (forall f, In f ("email" :: ms) -> ~ In f cs)
             /\ (length cs + S (length ms) <= 6)%nat) as H.
  { intros ms cs H1 H2 H3 H4.
    pose proof (lists_from_checks ms cs H1 H2 H3). tauto. }
  rewrite <- (length_map FieldConflict.field).
  change (length ("email" :: flat_map matchOf (fieldsToCompare a b)))
    with (S (length (flat_map matchOf (fieldsToCompare a b)))).
  unfold fieldsToCompare, conflictOf, matchOf.
  cbn [flat_map aVal bVal field isNull andb app].
  destruct (strictEq (Some (Customer.name a)) (Some (Customer.name b))),
    (isNull (Customer.address a) && isNull (Customer.address b)),
    (strictEq (Customer.address a) (Customer.address b)),
    (isNull (Customer.phone a) && isNull (Customer.phone b)),
    (strictEq (Customer.phone a) (Customer.phone b)),
    (isNull (Customer.contractStartDate a)
     && isNull (Customer.contractStartDate b)),
    (strictEq (Customer.contractStartDate a) (Customer.contractStartDate b)),
    (isNull (Customer.contractType a) && isNull (Customer.contractType b)),
    (strictEq (Customer.contractType a) (Customer.contractType b));
    apply H; try reflexivity; cbn; lia.
Qed.

(** The theorem of X7 at the two sample records. *)
Lemma X7_witness :
  exists r,
    diff Samples.customerA Samples.customerB = Ok r
    /\ hd_error (SyncResult.matchedFields r) = Some "email"
    /\ listedInOrder (tl (SyncResult.matchedFields r)) fieldNames
    /\ listedInOrder (map FieldConflict.field (SyncResult.conflicts r)) fieldNames
    /\ NoDup (SyncResult.matchedFields r)
    /\ NoDup (map FieldConflict.field (SyncResult.conflicts r))
    /\ (forall f, In f (SyncResult.matchedFields r) ->
                  ~ In f (map FieldConflict.field (SyncResult.conflicts r)))
    /\ (length (SyncResult.conflicts r)
        + length (SyncResult.matchedFields r) <= 6)%nat.
Proof.
  eexists. split; [reflexivity|].
  apply (X7_diff_lists_follow_the_field_order
           Samples.customerA Samples.customerB _ eq_refl).
Defined.

(** X8.  A conflict entry of a diff result holds two different values, so
    never two absent ones, and all entries of one result name the same newer
    source. *)
Theorem X8_conflict_entries_differ_and_share_the_newer_source
        (a b : Customer) (r : SyncResultOutput) :
  diff a b = Ok r ->
  (forall k, In k (SyncResult.conflicts r) ->
             FieldConflict.systemAValue k <> FieldConflict.systemBValue k)
  /\ (forall k k', In k (SyncResult.conflicts r) ->
                   In k' (SyncResult.conflicts r) ->
                   FieldConflict.newerSource k = FieldConflict.newerSource k').
Proof.
  intros Hd.
  destruct (diff_Ok_inv a b r Hd) as [ta [tb [_ [_ [Hc _]]]]].
  rewrite Hc. split.
  - intros k Hk. apply in_flat_map in Hk. destruct Hk as [c [_ Hk]].
    apply in_conflictOf in Hk. destruct Hk as [-> [_ Hne]]. exact Hne.
  - intros k k' Hk Hk'.
    apply in_flat_map in Hk. destruct Hk as [c [_ Hk]].
    apply in_flat_map in Hk'. destruct Hk' as [c' [_ Hk']].
    apply in_conflictOf in Hk. apply in_conflictOf in Hk'.
    destruct Hk as [-> _]. destruct Hk' as [-> _]. reflexivity.
Qed.

(** The theorem of X8 at the two sample records. *)
Lemma X8_witness :
  exists r,
    diff Samples.customerA Samples.customerB = Ok r
    /\ (forall k, In k (SyncResult.conflicts r) ->
                  FieldConflict.systemAValue k <> FieldConflict.systemBValue k)
    /\ (forall k k', In k (SyncResult.conflicts r) ->
                     In k' (SyncResult.conflicts r) ->
                     FieldConflict.newerSource k = FieldConflict.newerSource k').
Proof.
  eexists. split; [reflexivity|].
  apply (X8_conflict_entries_differ_and_share_the_newer_source
           Samples.customerA Samples.customerB _ eq_refl).
Defined.

Lemma app_nil_iff {T : Type} (l l' : list T) :
  (l ++ l')%list = [] <-> l = [] /\ l' = [].
Proof.
  split.
  - apply app_eq_nil.
  - intros [-> ->]. reflexivity.
Qed.

Lemma conflictOf_nil (newer : SourceSystem) (c : Compared) :
  conflictOf newer c = [] <-> aVal c = bVal c.
Proof.
  unfold conflictOf.
  destruct (isNull (aVal c) && isNull (bVal c)) eqn:En.
  - apply bothNull_true in En. destruct En as [-> ->]. tauto.
  - destruct (strictEq (aVal c) (bVal c)) eqn:Es.
    + apply strictEq_true in Es. tauto.
    + assert (aVal c <> bVal c) as Hd
          by (intros Hb; apply strictEq_true in Hb; congruence).
      split; [discriminate | tauto].
Qed.

(** X9.  A diff result is [in_sync] exactly when the two records agree on
    all five compared fields; the matched fields are then [email], [name]
    and each other field that is not absent. *)
Theorem X9_in_sync_iff_the_records_agree
        (a b : Customer) (r : SyncResultOutput) :
  diff a b = Ok r ->
  (SyncResult.status r = in_sync <-> agree a b)
  /\ (agree a b ->
      SyncResult.matchedFields r =
        (["email"; "name"]
           ++ (if isNull (Customer.address a) then [] else ["address"])
           ++ (if isNull (Customer.phone a) then [] else ["phone"])
           ++ (if isNull (Customer.contractStartDate a)
               then [] else ["contractStartDate"])
           ++ (if isNull (Customer.contractType a)
               then [] else ["contractType"]))%list).
Proof.
  intros Hd.
  destruct (diff_Ok_inv a b r Hd) as [ta [tb [_ [_ [Hc [Hm Hs]]]]]].
  destruct (status_by_conflicts r Hs) as [_ Hsync].
  split.
  - rewrite Hsync, Hc. unfold fieldsToCompare, agree. simpl.
    rewrite !app_nil_iff, !conflictOf_nil. simpl.
    split.
    + intros [H1 [H2 [H3 [H4 [H5 _]]]]].
      inversion H1. auto.
    + intros [H1 [H2 [H3 [H4 H5]]]]. rewrite H1. repeat split; assumption.
  - intros [H1 [H2 [H3 [H4 H5]]]]. rewrite Hm.
    unfold fieldsToCompare, matchOf. simpl.
    rewrite H1, !String.eqb_refl, <- H2, <- H3, <- H4, <- H5.
    assert (forall v, strictEq v v = true) as Hrefl
        by (intros v; apply strictEq_true; reflexivity).
    rewrite !Hrefl.
    destruct (Customer.address a), (Customer.phone a),
      (Customer.contractStartDate a), (Customer.contractType a); reflexivity.
Qed.

(** The theorem of X9 at a record compared with itself. *)
Lemma X9_witness :
  exists r,
    diff Samples.customerA Samples.customerA = Ok r
    /\ (SyncResult.status r = in_sync <-> agree Samples.customerA Samples.customerA)
    /\ (agree Samples.customerA Samples.customerA ->
        SyncResult.matchedFields r =
          ["email"; "name"; "address"; "phone"; "contractStartDate";
           "contractType"]).
Proof.
  eexists. split; [reflexivity|].
  apply (X9_in_sync_iff_the_records_agree
           Samples.customerA Samples.customerA _ eq_refl).
Defined.

Lemma strictEq_sym (x y : option string) : strictEq x y = strictEq y x.
Proof. destruct x, y; simpl; try reflexivity. apply String.eqb_sym. Qed.

Lemma matchOf_swap (c : Compared) : matchOf (swapCompared c) = matchOf c.
Proof.
  unfold matchOf, swapCompared; simpl.
  rewrite (andb_comm (isNull (bVal c))), (strictEq_sym (bVal c)). reflexivity.
Qed.

Lemma conflictOf_swap (n n' : SourceSystem) (c : Compared) :
  map valuesSwapped (conflictOf n' (swapCompared c)) =
  map valuesOf (conflictOf n c).
Proof.
  unfold conflictOf, swapCompared; simpl.
  rewrite (andb_comm (isNull (bVal c))), (strictEq_sym (bVal c)).
  destruct (isNull (aVal c) && isNull (bVal c)); [reflexivity|].
  destruct (strictEq (aVal c) (bVal c)); reflexivity.
Qed.

Lemma fieldsToCompare_swap (a b : Customer) :
  fieldsToCompare b a = map swapCompared (fieldsToCompare a b).
Proof. reflexivity. Qed.

Lemma flat_map_matchOf_swap (cs : list Compared) :
  flat_map matchOf (map swapCompared cs) = flat_map matchOf cs.
Proof.
  induction cs as [|c cs IH]; simpl; [reflexivity|].
  rewrite matchOf_swap, IH. reflexivity.
Qed.

Lemma flat_map_conflictOf_swap (n n' : SourceSystem) (cs : list Compared) :
  map valuesSwapped (flat_map (conflictOf n') (map swapCompared cs)) =
  map valuesOf (flat_map (conflictOf n) cs).
Proof.
  induction cs as [|c cs IH]; simpl; [reflexivity|].
  rewrite !map_app, conflictOf_swap with (n := n), IH. reflexivity.
Qed.

(** X10.  Comparing the two records the other way round returns as well,
    with the same status and the same matched fields; the conflict entries
    are the same with their two values exchanged, and unless the two dates
    are equal they name the other side as the newer source (on equal dates
    both results name SYSTEM_A). *)
Theorem X10_diff_the_other_way_round
        (a b : Customer) (r : SyncResultOutput) :
  diff a b = Ok r ->
  exists r',
    diff b a = Ok r'
    /\ SyncResult.status r' = SyncResult.status r
    /\ SyncResult.matchedFields r' = SyncResult.matchedFields r
    /\ map valuesSwapped (SyncResult.conflicts r') =
       map valuesOf (SyncResult.conflicts r)
    /\ (forall k k',
           In k (SyncResult.conflicts r) -> In k' (SyncResult.conflicts r') ->
           Customer.lastUpdated a <> Customer.lastUpdated b ->
           FieldConflict.newerSource k <> FieldConflict.newerSource k')
    /\ (forall k k',
           In k (SyncResult.conflicts r) -> In k' (SyncResult.conflicts r') ->
           Customer.lastUpdated a = Customer.lastUpdated b ->
           FieldConflict.newerSource k = SYSTEM_A
           /\ FieldConflict.newerSource k' = SYSTEM_A).
Proof.
  intros Hd.
  destruct (diff_Ok_inv a b r Hd) as [ta [tb [Ea [Eb [Hc [Hm Hs]]]]]].
  destruct (diff_returns b a tb ta Eb Ea) as [r' Hd'].
  destruct (diff_Ok_inv b a r' Hd') as [tb' [ta' [Eb' [Ea' [Hc' [Hm' Hs']]]]]].
  rewrite Eb in Eb'. rewrite Ea in Ea'. inversion Eb'; inversion Ea'; subst tb' ta'.
  exists r'. split; [exact Hd'|].
  assert (map valuesSwapped (SyncResult.conflicts r') =
          map valuesOf (SyncResult.conflicts r)) as Hv.
  { rewrite Hc, Hc', fieldsToCompare_swap. apply flat_map_conflictOf_swap. }
  split; [|split; [|split; [exact Hv|split]]].
  - rewrite Hs, Hs'.
    rewrite <- (length_map valuesSwapped), Hv, length_map. reflexivity.
  - rewrite Hm, Hm', fieldsToCompare_swap, flat_map_matchOf_swap. reflexivity.
  - intros k k' Hk Hk' Hne.
    rewrite Hc in Hk. rewrite Hc' in Hk'.
    apply in_flat_map in Hk. destruct Hk as [c [_ Hk]].
    apply in_flat_map in Hk'. destruct Hk' as [c' [_ Hk']].
    apply in_conflictOf in Hk. apply in_conflictOf in Hk'.
    destruct Hk as [-> _]. destruct Hk' as [-> _]. simpl.
    assert (ta <> tb) as Ht by (rewrite Ea, Eb in Hne; congruence).
    destruct (ta >=? tb)%Z eqn:E1, (tb >=? ta)%Z eqn:E2; try discriminate;
      exfalso; rewrite ?Z.geb_le, ?Z.geb_leb, ?Z.leb_gt in *; lia.
  - intros k k' Hk Hk' He.
    rewrite Hc in Hk. rewrite Hc' in Hk'.
    apply in_flat_map in Hk. destruct Hk as [c [_ Hk]].
    apply in_flat_map in Hk'. destruct Hk' as [c' [_ Hk']].
    apply in_conflictOf in Hk. apply in_conflictOf in Hk'.
    destruct Hk as [-> _]. destruct Hk' as [-> _]. simpl.
    assert (ta = tb) as -> by (rewrite Ea, Eb in He; congruence).
    assert ((tb >=? tb)%Z = true) as -> by (apply Z.geb_le; lia).
    auto.
Qed.

(** The theorem of X10 at the two sample records. *)
Lemma X10_witness :
  exists r r',
    diff Samples.customerA Samples.customerB = Ok r
    /\ diff Samples.customerB Samples.customerA = Ok r'
    /\ SyncResult.status r' = SyncResult.status r
    /\ SyncResult.matchedFields r' = SyncResult.matchedFields r
    /\ map valuesSwapped (SyncResult.conflicts r') =
       map valuesOf (SyncResult.conflicts r).
Proof.
  eexists.
  destruct (X10_diff_the_other_way_round
              Samples.customerA Samples.customerB _ eq_refl)
    as [r' [H1 [H2 [H3 [H4 _]]]]].
  exists r'. repeat split; assumption.
Defined.

(** X11.  The merge and the diff of the same two records compared: the
    name is flagged by the merge exactly when the diff reports it as a
    conflict; the address is flagged by the merge exactly when the diff
    reports it as a conflict and both records have an address, so an address
    that only one record has is a conflict of the diff that the merge does
    not flag; when the merge detects a conflict the diff status is
    [conflicts_found]; and the source the merge credits with a conflicting
    name is the newer source the diff names. *)
Theorem X11_merge_flags_are_diff_conflicts
        (a b : Customer) (r : SyncResultOutput) :
  diff a b = Ok r ->
  exists u fmName fmAddress,
    merge (Some a) (Some b) = Ok u
    /\ fieldOf u "name" = Some fmName
    /\ fieldOf u "address" = Some fmAddress
    /\ (FieldMetadata.conflict fmName = true <-> conflicting r "name")
    /\ (FieldMetadata.conflict fmAddress = true <->
        conflicting r "address"
        /\ Customer.address a <> None /\ Customer.address b <> None)
    /\ ((Customer.address a = None /\ Customer.address b <> None)
        \/ (Customer.address a <> None /\ Customer.address b = None) ->
        conflicting r "address" /\ FieldMetadata.conflict fmAddress = false)
    /\ (Metadata.conflictsDetected (Unified._metadata u) = true ->
        SyncResult.status r = conflicts_found)
    /\ (forall k, In k (SyncResult.conflicts r) ->
                  FieldConflict.field k = "name" ->
                  FieldMetadata.source fmName = FieldConflict.newerSource k).
Proof.
  intros Hd.
  destruct (diff_Ok_inv a b r Hd) as [ta [tb [Ea [Eb [Hc [Hm Hs]]]]]].
  destruct (fieldsToCompare_distinct a b) as [Hnd Hne].
  pose proof (conflicting_iff _ _ r Hnd Hc) as Hk.
  assert (conflicting r "name" <-> Customer.name a <> Customer.name b) as Hn.
  { rewrite (Hk (mkCompared "name" _ _)) by (simpl; tauto). simpl.
    split; [intros [_ H] E; apply H; congruence|].
    intros H. split; [intros [E _]; discriminate | congruence]. }
  assert (conflicting r "address" <->
          Customer.address a <> Customer.address b) as Had.
  { rewrite (Hk (mkCompared "address" _ _)) by (simpl; tauto). simpl.
    split; [intros [_ H]; exact H|].
    intros H. split; [intros [E1 E2]; congruence | exact H]. }
  eexists. eexists. eexists.
  split; [reflexivity|].
  split; [apply fieldOf_name|]. split; [apply fieldOf_address|].
  unfold flagged. cbn [FieldMetadata.conflict FieldMetadata.source].
  split; [|split; [|split; [|split]]].
  - rewrite Hn, negb_true_iff, String.eqb_neq. tauto.
  - rewrite addressConflict_true, Had.
    destruct (Customer.address a) as [s|], (Customer.address b) as [t|];
      (split;
       [ intros [s' [t' [E1 [E2 Hst]]]]; repeat split; congruence
       | intros [H1 [H2 H3]]; try congruence;
         exists s, t; repeat split; congruence ]).
  - rewrite Had.
    destruct (Customer.address a) as [s|], (Customer.address b) as [t|];
      intros [[H1 H2] | [H1 H2]]; try congruence;
      (split; [congruence | reflexivity]).
  - intros Hcd.
    apply conflictsDetected_both in Hcd.
    destruct (status_by_conflicts r Hs) as [Hcf _]. apply Hcf.
    assert (conflicting r "name" \/ conflicting r "address") as H.
    { destruct Hcd as [H | [s [t [E1 [E2 Hst]]]]];
        [left; apply Hn; exact H | right; apply Had; congruence]. }
    destruct H as [H|H];
      destruct H as [k [Hin _]]; intros E; rewrite E in Hin; exact Hin.
  - intros k Hin Hf.
    assert (conflicting r "name") as Hcn by (exists k; auto).
    apply Hn in Hcn. apply String.eqb_neq in Hcn. rewrite Hcn. simpl.
    rewrite Hc in Hin. apply in_flat_map in Hin. destruct Hin as [c [_ Hin]].
    apply in_conflictOf in Hin. destruct Hin as [-> _]. simpl.
    rewrite Ea, Eb. simpl.
    destruct (tb >? ta)%Z eqn:E1, (ta >=? tb)%Z eqn:E2; try reflexivity;
      exfalso; rewrite ?Z.gtb_ltb, ?Z.geb_leb in *;
      rewrite ?Z.ltb_lt, ?Z.ltb_ge, ?Z.leb_le, ?Z.leb_gt in *; lia.
Qed.

(** The theorem of X11 at the two sample records. *)
Lemma X11_witness :
  exists r u fmName fmAddress,
    diff Samples.customerA Samples.customerB = Ok r
    /\ merge (Some Samples.customerA) (Some Samples.customerB) = Ok u
    /\ fieldOf u "name" = Some fmName
    /\ fieldOf u "address" = Some fmAddress
    /\ (FieldMetadata.conflict fmName = true <-> conflicting r "name")
    /\ (FieldMetadata.conflict fmAddress = true <->
        conflicting r "address"
        /\ Customer.address Samples.customerA <> None
        /\ Customer.address Samples.customerB <> None).
Proof.
  eexists.
  destruct (X11_merge_flags_are_diff_conflicts
              Samples.customerA Samples.customerB _ eq_refl)
    as [u [fn [fa [H1 [H2 [H3 [H4 [H5 _]]]]]]]].
  exists u, fn, fa. repeat split; try assumption; tauto.
Defined.

(** An address that only System B has: the merge takes it without a flag
    and detects no conflict, while the diff reports the address. *)
Example address_of_one_side_only :
  exists u r,
    merge (Some Samples.customerAWithoutAddress) (Some Samples.customerB) = Ok u
    /\ diff Samples.customerAWithoutAddress Samples.customerB = Ok r
    /\ Unified.address u = Some "Musterstr. 1, 12345 Berlin"
    /\ fieldOf u "address" = Some (plain SYSTEM_B)
    /\ Metadata.conflictsDetected (Unified._metadata u) = false
    /\ SyncResult.status r = conflicts_found
    /\ map valuesOf (SyncResult.conflicts r) =
       [("address", None, Some "Musterstr. 1, 12345 Berlin");
        ("phone", Some "+49 111 0000000", Some "+49 222")].
Proof. eexists. eexists. repeat split; reflexivity. Qed.

(** ** Orchestration: what the operations return *)

Lemma normalized_toLowerCase (e : string) :
  normalized (toLowerCase e) = normalized e.
Proof. unfold normalized. rewrite toLowerCase_idempotent. reflexivity. Qed.

Lemma normalized_trim (e : string) : normalized (trim e) = normalized e.
Proof.
  unfold normalized, trim.
  rewrite toLowerCase_trimEnd, toLowerCase_trimStart.
  apply trim_idempotent.
Qed.

Lemma getByEmail_by_normalization
      (systemA systemB : ICustomerRepository) (e1 e2 : string) :
  normalized e1 = normalized e2 ->
  GetCustomerByEmailUseCase.execute systemA systemB e1 =
  GetCustomerByEmailUseCase.execute systemA systemB e2.
Proof.
  intros H. unfold GetCustomerByEmailUseCase.execute.
  fold (normalized e1). fold (normalized e2). rewrite H. reflexivity.
Qed.

Lemma sync_by_normalization
      (systemA systemB : ICustomerRepository) (e1 e2 : string) :
  normalized e1 = normalized e2 ->
  SyncCustomerUseCase.execute systemA systemB e1 =
  SyncCustomerUseCase.execute systemA systemB e2.
Proof.
  intros H. unfold SyncCustomerUseCase.execute.
  fold (normalized e1). fold (normalized e2). rewrite H. reflexivity.
Qed.

(** X12.  [GetByEmail] and [Sync] answer the same for an email, for its
    lower-case form, for its trimmed form and for its normalized form: the
    spelling of the request is not observable beyond its normalization. *)
Theorem X12_lookup_ignores_case_and_outer_space
        (systemA systemB : ICustomerRepository) (email : string) :
  (forall variant,
      In variant [toLowerCase email; trim email; normalized email] ->
      GetCustomerByEmailUseCase.execute systemA systemB variant =
      GetCustomerByEmailUseCase.execute systemA systemB email)
  /\ (forall variant,
         In variant [toLowerCase email; trim email; normalized email] ->
         SyncCustomerUseCase.execute systemA systemB variant =
         SyncCustomerUseCase.execute systemA systemB email).
Proof.
  assert (forall variant,
             In variant [toLowerCase email; trim email; normalized email] ->
             normalized variant = normalized email) as Hn.
  { intros variant [<-|[<-|[<-|[]]]].
    - apply normalized_toLowerCase.
    - apply normalized_trim.
    - apply normalized_idempotent. }
  split; intros variant Hv.
  - apply getByEmail_by_normalization, Hn, Hv.
  - apply sync_by_normalization, Hn, Hv.
Qed.

(** X13.  A result returned by [Sync] tells which lookups found a record:
    its status is [single_source_only] exactly when one lookup did and the
    other did not, [presentIn] names that side and is unset otherwise, each
    side of [lastUpdated] is set exactly when that side returned a record,
    and a single-source result has no conflict entry. *)
Theorem X13_sync_result_reflects_the_lookups
        (systemA systemB : ICustomerRepository) (email : string)
        (r : SyncResultOutput) :
  SyncCustomerUseCase.execute systemA systemB email = Ok r ->
  exists a b,
    findByEmail systemA (normalized email) = Resolved a
    /\ findByEmail systemB (normalized email) = Resolved b
    /\ (SyncResult.status r = single_source_only <-> onlyOneReturned a b)
    /\ (SyncResult.presentIn r = Some SYSTEM_A <-> a <> None /\ b = None)
    /\ (SyncResult.presentIn r = Some SYSTEM_B <-> a = None /\ b <> None)
    /\ (SyncResult.presentIn r = None <-> a <> None /\ b <> None)
    /\ (LastUpdated.systemA (SyncResult.lastUpdated r) <> None <-> a <> None)
    /\ (LastUpdated.systemB (SyncResult.lastUpdated r) <> None <-> b <> None)
    /\ (SyncResult.status r = single_source_only ->
        SyncResult.conflicts r = []
        /\ SyncResult.email r = normalized email).
Proof.
  unfold SyncCustomerUseCase.execute, onlyOneReturned. fold (normalized email).
  destruct (findByEmail systemA (normalized email)) as [a|]; [|discriminate].
  destruct (findByEmail systemB (normalized email)) as [b|]; [|discriminate].
  simpl. intros H. exists a, b.
  split; [reflexivity|]. split; [reflexivity|].
  destruct a as [ca|], b as [cb|]; try discriminate.
  - destruct (diff_Ok_inv ca cb r H) as [ta [tb [_ [_ [_ [_ Hs]]]]]].
    unfold diff in H.
    destruct (compareAll _ _) as [cs ms].
    destruct (toISOString (Customer.lastUpdated ca)); [|discriminate].
    destruct (toISOString (Customer.lastUpdated cb)); [|discriminate].
    simpl in H. inversion H; subst r; clear H. simpl in *.
    assert ((if (0 <? length cs)%nat then conflicts_found else in_sync)
            <> single_source_only) as Hne
        by (destruct (0 <? length cs)%nat; discriminate).
    repeat split; intros; try discriminate; try tauto;
      try (intuition congruence).
  - destruct (toISOString (Customer.lastUpdated ca)); [|discriminate].
    simpl in H. inversion H; subst r; clear H. simpl.
    repeat split; intros; try discriminate; try tauto;
      try (intuition congruence).
  - destruct (toISOString (Customer.lastUpdated cb)); [|discriminate].
    simpl in H. inversion H; subst r; clear H. simpl.
    repeat split; intros; try discriminate; try tauto;
      try (intuition congruence).
Qed.

(** The theorem of X13 at a record that only System A holds. *)
Lemma X13_witness :
  exists r a b,
    SyncCustomerUseCase.execute
      (Samples.onlyMax Samples.customerA) Samples.empty "max@example.de" = Ok r
    /\ findByEmail (Samples.onlyMax Samples.customerA)
                   (normalized "max@example.de") = Resolved a
    /\ findByEmail Samples.empty (normalized "max@example.de") = Resolved b
    /\ (SyncResult.status r = single_source_only <-> onlyOneReturned a b)
    /\ (SyncResult.presentIn r = Some SYSTEM_A <-> a <> None /\ b = None).
Proof.
  eexists.
  destruct (X13_sync_result_reflects_the_lookups
              (Samples.onlyMax Samples.customerA) Samples.empty
              "max@example.de" _ eq_refl)
    as [a [b [H1 [H2 [H3 [H4 _]]]]]].
  exists a, b. repeat split; try assumption; tauto.
Defined.

Lemma setIsPartial_back (m : UnifiedCustomerOutput) (v : bool) :
  isPartial m = false ->
  Unified.setIsPartial (Unified.setIsPartial m v) false = m.
Proof.
  destruct m as [e n p ad cs ct ids [srcs part cd fs]].
  unfold isPartial; simpl. intros ->. reflexivity.
Qed.

Lemma markPartial_back (a b : option Customer) (m : UnifiedCustomerOutput) :
  isPartial m = false -> Unified.setIsPartial (markPartial a b m) false = m.
Proof.
  intros H. unfold markPartial. destruct (exactlyOne a b).
  - apply setIsPartial_back, H.
  - destruct m as [e n p ad cs ct ids [srcs part cd fs]].
    unfold isPartial in H; simpl in *. subst part. reflexivity.
Qed.

(** X14.  Apart from [isPartial], a record returned by [GetByEmail] is the
    record the merge engine built from the two lookup results, and a record
    returned by the name search is the one it built from the two map entries
    of its email: the orchestration changes no other field. *)
Theorem X14_orchestration_changes_isPartial_only :
  (forall systemA systemB email u,
      GetCustomerByEmailUseCase.execute systemA systemB email = Ok u ->
      exists a b,
        findByEmail systemA (normalized email) = Resolved a
        /\ findByEmail systemB (normalized email) = Resolved b
        /\ merge a b = Ok (Unified.setIsPartial u false))
  /\ (forall systemA systemB query us,
         SearchCustomersUseCase.execute systemA systemB query = Ok us ->
         exists customersA customersB,
           searchByName systemA query = Resolved customersA
           /\ searchByName systemB query = Resolved customersB
           /\ Forall2
                (fun email u =>
                   merge (mapGet (lookupA systemA customersA customersB) email)
                         (mapGet (lookupB systemB customersA customersB) email)
                   = Ok (Unified.setIsPartial u false))
                (allEmailsOf customersA customersB) us).
Proof.
  split.
  - intros systemA systemB email u Hu.
    destruct (getByEmail_cases systemA systemB email)
      as [[H _]|[[H _]|[a [b [m [Ea [Eb [Hp [Hm H]]]]]]]]];
      try congruence.
    exists a, b. split; [exact Ea|]. split; [exact Eb|].
    rewrite H in Hu. inversion Hu.
    rewrite (markPartial_back _ _ _ (merge_not_partial _ _ _ Hm)). exact Hm.
  - intros systemA systemB query us Hus.
    destruct (search_cases systemA systemB query)
      as [[H _]|[customersA [customersB [us' [Ea [Eb [H HF]]]]]]];
      try congruence.
    exists customersA, customersB. split; [exact Ea|]. split; [exact Eb|].
    rewrite H in Hus. inversion Hus; subst us'.
    clear - HF. induction HF as [|email u emails us HM HF IH]; constructor.
    + destruct HM as [m [Hm ->]].
      rewrite (markPartial_back _ _ _ (merge_not_partial _ _ _ Hm)). exact Hm.
    + exact IH.
Qed.

(** X15.  When one system holds the record and the lookup of the other
    resolves to nothing, [GetByEmail] returns that record's six fields
    unchanged, marked partial, with that system as its only source and only
    identifier. *)
Theorem X15_one_sided_lookup_returns_that_record_as_partial
        (systemA systemB : ICustomerRepository) (email : string) (c : Customer) :
  (findByEmail systemA (normalized email) = Resolved (Some c) ->
   findByEmail systemB (normalized email) = Resolved None ->
   exists u,
     GetCustomerByEmailUseCase.execute systemA systemB email = Ok u
     /\ copies u c
     /\ isPartial u = true
     /\ Metadata.sources (Unified._metadata u) = [SYSTEM_A]
     /\ Unified.identifiers u = Identifiers.mk (Some (Customer.id c)) None)
  /\ (findByEmail systemA (normalized email) = Resolved None ->
      findByEmail systemB (normalized email) = Resolved (Some c) ->
      exists u,
        GetCustomerByEmailUseCase.execute systemA systemB email = Ok u
        /\ copies u c
        /\ isPartial u = true
        /\ Metadata.sources (Unified._metadata u) = [SYSTEM_B]
        /\ Unified.identifiers u = Identifiers.mk None (Some (Customer.id c))).
Proof.
  unfold GetCustomerByEmailUseCase.execute. fold (normalized email).
  split; intros Ha Hb; rewrite Ha, Hb; simpl;
    eexists; (split; [reflexivity|]);
    unfold copies, isPartial; simpl; repeat split; reflexivity.
Qed.

(** ** Name search: the index, the order and the cross-reference *)

Lemma mapKeys_mapSet {V : Type} (m : Js.Map V) (k : string) (v : V) :
  mapKeys (mapSet m k v) = setAdd (mapKeys m) k.
Proof.
  unfold setAdd, mapKeys. induction m as [|[k0 v0] m IH]; simpl.
  - reflexivity.
  - unfold setHas in *. simpl.
    destruct (String.eqb k k0) eqn:E; simpl.
    + apply String.eqb_eq in E. subst k0. reflexivity.
    + rewrite IH.
      destruct (existsb (String.eqb k) (map fst m)); reflexivity.
Qed.

Lemma mapKeys_index_fold (customers : list Customer) (m : Js.Map Customer) :
  mapKeys (fold_left (fun m0 c => mapSet m0 (Customer.email c) c) customers m) =
  fold_left setAdd (map Customer.email customers) (mapKeys m).
Proof.
  revert m. induction customers as [|c cs IH]; intros m; simpl; [reflexivity|].
  rewrite IH, mapKeys_mapSet. reflexivity.
Qed.

Lemma mapKeys_indexByEmail (customers : list Customer) :
  mapKeys (indexByEmail customers) = newSet (map Customer.email customers).
Proof. unfold indexByEmail, newSet. apply mapKeys_index_fold. Qed.

Lemma setHas_app (s t : list string) (k : string) :
  setHas (s ++ t) k = setHas s k || setHas t k.
Proof. unfold setHas. apply existsb_app. Qed.

(** Adding keys that are pairwise different appends the new ones. *)
Lemma fold_setAdd_NoDup (keys s : list string) :
  NoDup keys ->
  fold_left setAdd keys s =
  (s ++ filter (fun k => negb (setHas s k)) keys)%list.
Proof.
  intros H. revert s. induction H as [|k keys Hk Hnd IH]; intros s; simpl.
  - rewrite app_nil_r. reflexivity.
  - rewrite IH. unfold setAdd. destruct (setHas s k) eqn:E; simpl.
    + reflexivity.
    + rewrite <- app_assoc. simpl. f_equal. f_equal.
      apply filter_ext_in. intros x Hx. rewrite setHas_app.
      assert (setHas [k] x = false) as ->; [|rewrite orb_false_r; reflexivity].
      unfold setHas. simpl. rewrite orb_false_r.
      apply String.eqb_neq. intros ->. exact (Hk Hx).
Qed.

Lemma newSet_idempotent (keys : list string) : newSet (newSet keys) = newSet keys.
Proof.
  unfold newSet at 1. rewrite fold_setAdd_NoDup by apply newSet_NoDup. simpl.
  induction (newSet keys); simpl; congruence.
Qed.

(** X16.  The emails the name search merges are the emails of A's hits in
    the order of their first appearance, followed by the emails of B's hits
    that A did not return, in the order of their first appearance; no email
    occurs twice, and the search returns one record per email, in this
    order. *)
Theorem X16_search_order_is_first_appearance
        (systemA systemB : ICustomerRepository) (query : string)
        (customersA customersB : list Customer) :
  searchByName systemA query = Resolved customersA ->
  searchByName systemB query = Resolved customersB ->
  allEmailsOf customersA customersB =
    (newSet (map Customer.email customersA)
       ++ filter (fun k => negb (setHas (newSet (map Customer.email customersA)) k))
                 (newSet (map Customer.email customersB)))%list
  /\ NoDup (allEmailsOf customersA customersB)
  /\ exists us,
       SearchCustomersUseCase.execute systemA systemB query = Ok us
       /\ length us = length (allEmailsOf customersA customersB)
       /\ Forall2 (mergedFor (lookupA systemA customersA customersB)
                             (lookupB systemB customersA customersB))
                  (allEmailsOf customersA customersB) us.
Proof.
  intros Ea Eb. split; [|split].
  - unfold allEmailsOf. rewrite !mapKeys_indexByEmail.
    unfold newSet at 1. rewrite fold_left_app.
    fold (newSet (newSet (map Customer.email customersA))).
    rewrite newSet_idempotent.
    apply fold_setAdd_NoDup, newSet_NoDup.
  - apply newSet_NoDup.
  - destruct (search_cases systemA systemB query)
      as [[_ [H|H]]|[cA [cB [us [Ea' [Eb' [H HF]]]]]]]; try congruence.
    rewrite Ea in Ea'. rewrite Eb in Eb'. inversion Ea'; inversion Eb'; subst.
    exists us. split; [exact H|]. split; [|exact HF].
    symmetry. apply (Forall2_length HF).
Qed.

(** The theorem of X16 at a search that each system answers with one hit. *)
Lemma X16_witness :
  allEmailsOf [Samples.customerA] [Samples.customerB] = ["max@example.de"]
  /\ NoDup (allEmailsOf [Samples.customerA] [Samples.customerB])
  /\ exists us,
       SearchCustomersUseCase.execute
         (Samples.onlyMax Samples.customerA) (Samples.onlyMax Samples.customerB)
         "Max" = Ok us
       /\ length us = length (allEmailsOf [Samples.customerA] [Samples.customerB])
       /\ Forall2
            (mergedFor
               (lookupA (Samples.onlyMax Samples.customerA)
                        [Samples.customerA] [Samples.customerB])
               (lookupB (Samples.onlyMax Samples.customerB)
                        [Samples.customerA] [Samples.customerB]))
            (allEmailsOf [Samples.customerA] [Samples.customerB]) us.
Proof.
  apply (X16_search_order_is_first_appearance
           (Samples.onlyMax Samples.customerA) (Samples.onlyMax Samples.customerB)
           "Max" [Samples.customerA] [Samples.customerB] eq_refl eq_refl).
Defined.

Lemma index_entry (customers : list Customer) (email : string) (c : Customer) :
  mapGet (indexByEmail customers) email = Some c ->
  In c customers /\ Customer.email c = email.
Proof.
  rewrite index_lastWith. unfold lastWith. intros Hf.
  apply find_some in Hf. destruct Hf as [Hin He].
  apply in_rev in Hin. apply String.eqb_eq in He. auto.
Qed.

(** X17.  The index the name search builds of one side holds, for every
    email, the last record of that side's hits with this email: of two hits
    with the same email the later one is merged and the earlier one is
    dropped. *)
Theorem X17_index_keeps_the_last_hit (customers : list Customer) (email : string) :
  mapGet (indexByEmail customers) email = lastWith customers email
  /\ (forall c, mapGet (indexByEmail customers) email = Some c ->
                In c customers /\ Customer.email c = email)
  /\ (forall c, mapGet (indexByEmail (customers ++ [c])) (Customer.email c)
                = Some c).
Proof.
  split; [apply index_lastWith|]. split; [apply index_entry|].
  intros c. rewrite index_lastWith. unfold lastWith.
  rewrite rev_app_distr. simpl. rewrite String.eqb_refl. reflexivity.
Qed.

Lemma recovered_email (system : ICustomerRepository) (email : string) (c : Customer) :
  answersTheEmail system -> recovered system email = Some c ->
  Customer.email c = email.
Proof.
  intros H. unfold recovered.
  destruct (findByEmail system email) as [[c'|]|] eqn:E; try discriminate.
  intros Hc. inversion Hc; subst. apply H, E.
Qed.

Lemma crossReference_email (system : ICustomerRepository)
      (customers : list Customer) (emails : list string)
      (k : string) (c : Customer) :
  answersTheEmail system ->
  mapGet (crossReference system (indexByEmail customers) emails) k = Some c ->
  Customer.email c = k.
Proof.
  intros H. rewrite mapGet_crossReference.
  destruct (mapGet (indexByEmail customers) k) as [c'|] eqn:E.
  - intros Hc. inversion Hc; subst. apply (index_entry customers k), E.
  - destruct (setHas emails k); [|discriminate].
    apply recovered_email, H.
Qed.

Lemma merge_email (a b : option Customer) (u : UnifiedCustomerOutput) :
  merge a b = Ok u ->
  Unified.email u =
  match a, b with
  | Some ca, _ => Customer.email ca
  | None, Some cb => Customer.email cb
  | None, None => Unified.email u
  end.
Proof. destruct a, b; simpl; intros H; inversion H; reflexivity. Qed.

Lemma email_markPartial (a b : option Customer) (m : UnifiedCustomerOutput) :
  Unified.email (markPartial a b m) = Unified.email m.
Proof. unfold markPartial. destruct (exactlyOne a b); reflexivity. Qed.

(** X18.  When both collaborators answer a lookup by email with a record of
    that email, the records the name search returns carry exactly the emails
    of the hits, one record per email and no email twice. *)
Theorem X18_search_returns_one_record_per_email
        (systemA systemB : ICustomerRepository) (query : string)
        (us : list UnifiedCustomerOutput) :
  answersTheEmail systemA ->
  answersTheEmail systemB ->
  SearchCustomersUseCase.execute systemA systemB query = Ok us ->
  exists customersA customersB,
    searchByName systemA query = Resolved customersA
    /\ searchByName systemB query = Resolved customersB
    /\ map Unified.email us = allEmailsOf customersA customersB
    /\ NoDup (map Unified.email us)
    /\ (forall email,
           In email (map Unified.email us) <->
           exists c, In c (customersA ++ customersB) /\ Customer.email c = email).
Proof.
  intros HA HB Hus.
  destruct (search_cases systemA systemB query)
    as [[H _]|[cA [cB [us' [Ea [Eb [H HF]]]]]]]; try congruence.
  rewrite H in Hus. inversion Hus; subst us'. clear Hus H.
  exists cA, cB. split; [exact Ea|]. split; [exact Eb|].
  assert (map Unified.email us = allEmailsOf cA cB) as Hmap.
  { unfold lookupA, lookupB in HF.
    induction HF as [|email u emails us [m [Hm ->]] HF IH]; simpl;
      [reflexivity|].
    f_equal; [|exact IH].
    rewrite email_markPartial, (merge_email _ _ _ Hm).
    destruct (mapGet (crossReference systemA (indexByEmail cA) _) email)
      as [ca|] eqn:Ga.
    - apply (crossReference_email _ _ _ _ _ HA Ga).
    - destruct (mapGet (crossReference systemB (indexByEmail cB) _) email)
        as [cb|] eqn:Gb.
      + apply (crossReference_email _ _ _ _ _ HB Gb).
      + simpl in Hm. discriminate. }
  rewrite Hmap. split; [reflexivity|]. split; [apply newSet_NoDup|].
  intros email. apply allEmailsOf_In.
Qed.

Lemma onlyMax_answers (c : Customer) :
  Customer.email c = "max@example.de" -> answersTheEmail (Samples.onlyMax c).
Proof.
  intros Hc email c'. simpl.
  destruct (String.eqb email "max@example.de") eqn:E; intros H; inversion H.
  subst c'. apply String.eqb_eq in E. congruence.
Qed.

(** The theorem of X18 at a search that each system answers with one hit. *)
Lemma X18_witness :
  exists us customersA customersB,
    SearchCustomersUseCase.execute
      (Samples.onlyMax Samples.customerA) (Samples.onlyMax Samples.customerB)
      "Max" = Ok us
    /\ searchByName (Samples.onlyMax Samples.customerA) "Max" = Resolved customersA
    /\ searchByName (Samples.onlyMax Samples.customerB) "Max" = Resolved customersB
    /\ map Unified.email us = allEmailsOf customersA customersB
    /\ NoDup (map Unified.email us).
Proof.
  eexists.
  destruct (X18_search_returns_one_record_per_email
              (Samples.onlyMax Samples.customerA)
              (Samples.onlyMax Samples.customerB) "Max" _
              (onlyMax_answers Samples.customerA eq_refl)
              (onlyMax_answers Samples.customerB eq_refl) eq_refl)
    as [cA [cB [H1 [H2 [H3 [H4 _]]]]]].
  exists cA, cB. repeat split; assumption.
Defined.

Lemma Forall2_In_left {A B : Type} (P : A -> B -> Prop)
      (l : list A) (l' : list B) (x : A) :
  Forall2 P l l' -> In x l -> exists y, In y l' /\ P x y.
Proof.
  intros H. induction H as [|a b l l' Hab H IH]; simpl; [tauto|].
  intros [<-|Hx].
  - exists b. auto.
  - destruct (IH Hx) as [y [Hy Hp]]. exists y. auto.
Qed.

(** X19.  A record that only B's name search returned is cross-referenced:
    when A's name search returned no record with its email and A's lookup by
    that email resolves to a record, the search returns for this email the
    merge of A's looked-up record with B's hit, drawn from both systems and
    not partial.  When instead A's lookup resolves to nothing or is
    rejected, the record for this email is B's hit alone, marked partial. *)
Theorem X19_cross_reference_completes_a_one_sided_hit
        (systemA systemB : ICustomerRepository) (query : string)
        (customersA customersB : list Customer) (email : string) (b : Customer) :
  searchByName systemA query = Resolved customersA ->
  searchByName systemB query = Resolved customersB ->
  lastWith customersA email = None ->
  lastWith customersB email = Some b ->
  exists us u,
    SearchCustomersUseCase.execute systemA systemB query = Ok us
    /\ In u us
    /\ (forall a,
           findByEmail systemA email = Resolved (Some a) ->
           u = mergeFromBothSystems a b
           /\ Metadata.sources (Unified._metadata u) = [SYSTEM_A; SYSTEM_B]
           /\ isPartial u = false)
    /\ (findByEmail systemA email = Resolved None
        \/ findByEmail systemA email = Rejected ->
        copies u b
        /\ Metadata.sources (Unified._metadata u) = [SYSTEM_B]
        /\ isPartial u = true).
Proof.
  intros Ea Eb HnA HB.
  destruct (search_cases systemA systemB query)
    as [[_ [H|H]]|[cA [cB [us [Ea' [Eb' [H HF]]]]]]]; try congruence.
  rewrite Ea in Ea'. rewrite Eb in Eb'. inversion Ea'; inversion Eb'; subst cA cB.
  assert (In email (allEmailsOf customersA customersB)) as Hin.
  { apply allEmailsOf_In. exists b.
    rewrite <- index_lastWith in HB. apply index_entry in HB.
    rewrite in_app_iff. tauto. }
  destruct (Forall2_In_left _ _ _ _ HF Hin) as [u [Hu [m [Hm ->]]]].
  exists us. eexists. split; [exact H|]. split; [exact Hu|].
  unfold lookupA, lookupB in *.
  rewrite !mapGet_crossReference in *.
  rewrite !index_lastWith, HnA, HB in *.
  apply setHas_In in Hin. rewrite Hin in *. unfold recovered in *.
  split.
  - intros a Hf. rewrite Hf in *. simpl in Hm. inversion Hm; subst m.
    repeat split; reflexivity.
  - intros [Hf|Hf]; rewrite Hf in *; simpl in Hm; inversion Hm; subst m;
      unfold copies, isPartial; simpl; repeat split; reflexivity.
Qed.

(** The theorem of X19 at the cross-reference test: A's name search misses
    the record, its lookup by email finds it. *)
Lemma X19_witness :
  exists us u,
    SearchCustomersUseCase.execute
      (missesByName Samples.customerA) (Samples.onlyMax Samples.customerB)
      "Mustermann" = Ok us
    /\ In u us
    /\ (forall a,
           findByEmail (missesByName Samples.customerA) "max@example.de"
           = Resolved (Some a) ->
           u = mergeFromBothSystems a Samples.customerB
           /\ Metadata.sources (Unified._metadata u) = [SYSTEM_A; SYSTEM_B]
           /\ isPartial u = false).
Proof.
  destruct (X19_cross_reference_completes_a_one_sided_hit
              (missesByName Samples.customerA) (Samples.onlyMax Samples.customerB)
              "Mustermann" [] [Samples.customerB] "max@example.de"
              Samples.customerB eq_refl eq_refl eq_refl eq_refl)
    as [us [u [H1 [H2 [H3 _]]]]].
  exists us, u. split; [exact H1|]. split; [exact H2 | exact H3].
Defined.

Lemma crossReference_ext (system system' : ICustomerRepository)
      (searched : Js.Map Customer) (emails : list string) :
  (forall email, recovered system email = recovered system' email) ->
  crossReference system searched emails = crossReference system' searched emails.
Proof.
  intros H. unfold crossReference. generalize searched at 2 4 as m.
  induction emails as [|e es IH]; intros m; simpl; [reflexivity|].
  rewrite IH. f_equal.
  destruct (negb (mapHas searched e)); [|reflexivity].
  specialize (H e). unfold recovered in H.
  destruct (findByEmail system e) as [[c|]|],
    (findByEmail system' e) as [[c'|]|]; congruence.
Qed.

(** X20.  The name search fails only when one of the two name searches is
    rejected.  A lookup of the cross-reference that is rejected has the
    effect of one that resolves to nothing: two pairs of collaborators with
    the same name-search answers, whose lookups resolve to the same records,
    give the same result. *)
Theorem X20_search_swallows_failed_lookups :
  (forall systemA systemB query e,
      SearchCustomersUseCase.execute systemA systemB query = Throw e ->
      e = Rejection
      /\ (searchByName systemA query = Rejected
          \/ searchByName systemB query = Rejected))
  /\ (forall systemA systemA' systemB systemB' query,
         searchByName systemA query = searchByName systemA' query ->
         searchByName systemB query = searchByName systemB' query ->
         (forall email, recovered systemA email = recovered systemA' email) ->
         (forall email, recovered systemB email = recovered systemB' email) ->
         SearchCustomersUseCase.execute systemA systemB query =
         SearchCustomersUseCase.execute systemA' systemB' query).
Proof.
  split.
  - intros systemA systemB query e He.
    destruct (search_cases systemA systemB query)
      as [[H Hr]|[cA [cB [us [_ [_ [H _]]]]]]]; [|congruence].
    rewrite H in He. inversion He. auto.
  - intros systemA systemA' systemB systemB' query Ha Hb Hra Hrb.
    unfold SearchCustomersUseCase.execute. rewrite <- Ha, <- Hb.
    destruct (awaitAll2 _ _) as [[cA cB]|e]; simpl; [|reflexivity].
    rewrite (crossReference_ext systemA systemA' _ _ Hra).
    rewrite (crossReference_ext systemB systemB' _ _ Hrb).
    reflexivity.
Qed.

(** ** The email value object and the controller's gate *)

Lemma allAtom_facts (s : string) :
  allAtom s = true -> countChar "@" s = 0 /\ noSpace s = true.
Proof.
  induction s as [|c s IH]; simpl; [auto|].
  unfold isAtomChar. intros H.
  apply andb_true_iff in H. destruct H as [Hc Hs].
  apply andb_true_iff in Hc. destruct Hc as [Hw Ha].
  destruct (IH Hs) as [IH1 IH2].
  apply negb_true_iff in Ha. rewrite Ha, Hw, IH1, IH2. auto.
Qed.

Lemma countChar_append (c : ascii) (s t : string) :
  countChar c (s ++ t) = countChar c s + countChar c t.
Proof. induction s as [|d s IH]; simpl; [reflexivity | rewrite IH; lia]. Qed.

Lemma noSpace_append (s t : string) : noSpace (s ++ t) = noSpace s && noSpace t.
Proof.
  induction s as [|d s IH]; simpl; [reflexivity|].
  rewrite IH. apply andb_assoc.
Qed.

Lemma length_append (s t : string) :
  String.length (s ++ t) = String.length s + String.length t.
Proof. induction s as [|d s IH]; simpl; [reflexivity | rewrite IH; reflexivity]. Qed.

Lemma noSpace_trimStart (s : string) : noSpace s = true -> trimStart s = s.
Proof.
  destruct s as [|c s]; simpl; [reflexivity|].
  intros H. apply andb_true_iff in H. destruct H as [Hc _].
  apply negb_true_iff in Hc. rewrite Hc. reflexivity.
Qed.

Lemma noSpace_trimEnd (s : string) : noSpace s = true -> trimEnd s = s.
Proof.
  induction s as [|c s IH]; simpl; [reflexivity|].
  intros H. apply andb_true_iff in H. destruct H as [Hc Hs].
  apply negb_true_iff in Hc. rewrite (IH Hs), Hc.
  destruct s; reflexivity.
Qed.

Lemma noSpace_trim (s : string) : noSpace s = true -> trim s = s.
Proof.
  intros H. unfold trim. rewrite (noSpace_trimStart s H). apply noSpace_trimEnd, H.
Qed.

Lemma part_length (s : string) : part s -> 1 <= String.length s.
Proof. intros [Hne _]. destruct s; simpl; [congruence | lia]. Qed.

Lemma valid_facts (s : string) :
  Email.isValid s = true ->
  countChar "@" s = 1 /\ noSpace s = true /\ 5 <= String.length s.
Proof.
  intros H. apply isValid_matchesPattern in H.
  destruct H as [l [m [r [-> [Hl [Hm Hr]]]]]].
  pose proof (part_length l Hl). pose proof (part_length m Hm).
  pose proof (part_length r Hr).
  destruct Hl as [_ Hl]. destruct Hm as [_ Hm]. destruct Hr as [_ Hr].
  apply allAtom_facts in Hl. apply allAtom_facts in Hm. apply allAtom_facts in Hr.
  destruct Hl as [Hl1 Hl2]. destruct Hm as [Hm1 Hm2]. destruct Hr as [Hr1 Hr2].
  rewrite !countChar_append, !noSpace_append, !length_append.
  rewrite Hl1, Hm1, Hr1, Hl2, Hm2, Hr2. simpl.
  repeat split; lia.
Qed.

Lemma isAtomChar_lowerChar (c : ascii) : isAtomChar (lowerChar c) = isAtomChar c.
Proof. destruct c as [[] [] [] [] [] [] [] []]; reflexivity. Qed.

Lemma allAtom_toLowerCase (s : string) : allAtom (toLowerCase s) = allAtom s.
Proof.
  induction s as [|c s IH]; simpl; [reflexivity|].
  rewrite isAtomChar_lowerChar, IH. reflexivity.
Qed.

Lemma toLowerCase_append (s t : string) :
  toLowerCase (s ++ t) = toLowerCase s ++ toLowerCase t.
Proof. induction s as [|c s IH]; simpl; [reflexivity | rewrite IH; reflexivity]. Qed.

Lemma part_toLowerCase (s : string) : part s -> part (toLowerCase s).
Proof.
  intros [Hne Ha]. split.
  - destruct s; simpl; [congruence | discriminate].
  - rewrite allAtom_toLowerCase. exact Ha.
Qed.

Lemma isValid_toLowerCase (s : string) :
  Email.isValid s = true -> Email.isValid (toLowerCase s) = true.
Proof.
  rewrite !isValid_matchesPattern.
  intros [l [m [r [-> [Hl [Hm Hr]]]]]].
  exists (toLowerCase l), (toLowerCase m), (toLowerCase r).
  rewrite !toLowerCase_append. simpl.
  auto using part_toLowerCase.
Qed.

Lemma noSpace_toLowerCase (s : string) : noSpace (toLowerCase s) = noSpace s.
Proof.
  induction s as [|c s IH]; simpl; [reflexivity|].
  rewrite isWhiteSpace_lowerChar, IH. reflexivity.
Qed.

(** A valid email is normalized by lower-casing alone, and stays valid. *)
Lemma valid_normalized (s : string) :
  Email.isValid s = true ->
  normalized s = toLowerCase s /\ Email.isValid (normalized s) = true.
Proof.
  intros H. pose proof (isValid_toLowerCase s H) as Hl.
  assert (normalized s = toLowerCase s) as E.
  { unfold normalized. apply noSpace_trim. apply valid_facts in Hl. tauto. }
  rewrite E. auto.
Qed.

Lemma new_by_validity (e : string) :
  Email.new e =
  if Email.isValid (normalized e)
  then Ok (Email.mk (normalized e))
  else Throw (Error ("Invalid email format: " ++ e)).
Proof.
  unfold Email.new, normalized.
  destruct (Email.isValid (trim (toLowerCase e))); reflexivity.
Qed.

(** X21.  Constructing the email value object from the value it holds gives
    the same object back; two objects are [equals] exactly when the strings
    they were constructed from have the same normalization; and [equals] is
    reflexive and symmetric. *)
Theorem X21_email_value_object_round_trip_and_equality :
  (forall e v, Email.new e = Ok v -> Email.new (Email.value v) = Ok v)
  /\ (forall e1 e2 v1 v2,
         Email.new e1 = Ok v1 -> Email.new e2 = Ok v2 ->
         (Email.equals v1 v2 = true <-> normalized e1 = normalized e2))
  /\ (forall v, Email.equals v v = true)
  /\ (forall v w, Email.equals v w = Email.equals w v).
Proof.
  split; [|split; [|split]].
  - intros e v. rewrite new_by_validity.
    destruct (Email.isValid (normalized e)) eqn:E; [|discriminate].
    intros H. inversion H. simpl.
    rewrite new_by_validity, normalized_idempotent, E. reflexivity.
  - intros e1 e2 v1 v2. rewrite !new_by_validity.
    destruct (Email.isValid (normalized e1)); [|discriminate].
    destruct (Email.isValid (normalized e2)); [|discriminate].
    intros H1 H2. inversion H1. inversion H2.
    unfold Email.equals. simpl. apply String.eqb_eq.
  - intros v. apply String.eqb_refl.
  - intros v w. apply String.eqb_sym.
Qed.

(** X22.  A string that [Email.isValid] accepts holds exactly one [@], no
    white space and at least five characters; trimming leaves it unchanged,
    its normalization is its lower-case form, and that form is accepted
    too. *)
Theorem X22_valid_email_shape (s : string) :
  Email.isValid s = true ->
  countChar "@" s = 1
  /\ noSpace s = true
  /\ 5 <= String.length s
  /\ trim s = s
  /\ normalized s = toLowerCase s
  /\ Email.isValid (toLowerCase s) = true.
Proof.
  intros H. destruct (valid_facts s H) as [H1 [H2 H3]].
  destruct (valid_normalized s H) as [H4 _].
  repeat split; try assumption.
  - apply noSpace_trim, H2.
  - apply isValid_toLowerCase, H.
Qed.

(** The theorem of X22 at an address of the unit tests. *)
Lemma X22_witness :
  countChar "@" "User.Name@domain.co.uk" = 1
  /\ noSpace "User.Name@domain.co.uk" = true
  /\ 5 <= String.length "User.Name@domain.co.uk"
  /\ trim "User.Name@domain.co.uk" = "User.Name@domain.co.uk"
  /\ normalized "User.Name@domain.co.uk" = toLowerCase "User.Name@domain.co.uk"
  /\ Email.isValid (toLowerCase "User.Name@domain.co.uk") = true.
Proof. apply (X22_valid_email_shape "User.Name@domain.co.uk" eq_refl). Defined.

(** X23.  The handler of [GET /customer/:email] throws the bad-request
    exception exactly when the email as typed, before any normalization,
    fails the pattern, and otherwise passes on what the use case returns or
    throws.  The gate is stricter than the value object: a valid email with
    a space in front is refused by the handler and accepted by
    [new Email]. *)
Theorem X23_controller_validates_the_raw_email
        (systemA systemB : ICustomerRepository) (email : string) :
  (Email.isValid email = false <->
   CustomerController.findByEmail systemA systemB email =
   CustomerController.BadRequestException ("Invalid email format: " ++ email))
  /\ (Email.isValid email = true ->
      CustomerController.findByEmail systemA systemB email =
      CustomerController.ofResult
        (GetCustomerByEmailUseCase.execute systemA systemB (toLowerCase email))
      /\ CustomerController.findByEmail systemA systemB (" " ++ email) =
         CustomerController.BadRequestException
           ("Invalid email format:  " ++ email)
      /\ Email.new (" " ++ email) = Ok (Email.mk (toLowerCase email))).
Proof.
  unfold CustomerController.findByEmail. split.
  - destruct (Email.isValid email) eqn:E; simpl.
    + split; [discriminate|].
      destruct (GetCustomerByEmailUseCase.execute systemA systemB email);
        discriminate.
    + split; reflexivity.
  - intros H. rewrite H. simpl.
    destruct (valid_normalized email H) as [Hn Hv].
    split; [|split].
    + f_equal. apply getByEmail_by_normalization.
      symmetry. apply normalized_toLowerCase.
    + destruct (Email.isValid (String " " email)) eqn:E; [|reflexivity].
      apply valid_facts in E. destruct E as [_ [E _]]. discriminate.
    + rewrite new_by_validity.
      assert (normalized (String " " email) = normalized email) as ->
          by reflexivity.
      rewrite Hv, Hn. reflexivity.
Qed.

(** ** The exception filter *)

Import AllExceptionsFilter.

Lemma catch_cases (now : Z) (exception : Thrown) :
  (exists h body,
      exception = ThrownHttp h
      /\ getResponse h = ResponseObj body
      /\ isHealthCheckBody body = true
      /\ catch now exception =
         Ok (mkOutcome None (PassedThrough (getStatus h) body)))
  \/ (exists timestamp,
         toISOString (ValidDate now) = Ok timestamp
         /\ (forall h body, exception = ThrownHttp h ->
                            getResponse h = ResponseObj body ->
                            isHealthCheckBody body = false)
         /\ catch now exception =
            Ok (mkOutcome
                  (Some (if (fst (fst (describe exception)) >=? 500)%Z
                         then LogError else LogWarn))
                  (Failure (fst (fst (describe exception))) false
                           (mkBody (fst (fst (describe exception)))
                                   (snd (fst (describe exception)))
                                   (snd (describe exception)))
                           timestamp))).
Proof.
  destruct (toISOString_valid now) as [ts Hts].
  assert (forall exc,
             (let '(statusCode, message, details) := describe exc in
              Js.bind (toISOString (ValidDate now))
                (fun timestamp =>
                   Ok (mkOutcome
                         (Some (if (statusCode >=? INTERNAL_SERVER_ERROR)%Z
                                then LogError else LogWarn))
                         (Failure statusCode false
                                  (mkBody statusCode message details)
                                  timestamp)))) =
             Ok (mkOutcome
                   (Some (if (fst (fst (describe exc)) >=? 500)%Z
                          then LogError else LogWarn))
                   (Failure (fst (fst (describe exc))) false
                            (mkBody (fst (fst (describe exc)))
                                    (snd (fst (describe exc)))
                                    (snd (describe exc)))
                            ts))) as Hfail.
  { intros exc. destruct (describe exc) as [[s m] d]. rewrite Hts. reflexivity. }
  destruct exception as [[status [s|o] msg]|m|m|].
  - right. exists ts. split; [exact Hts|]. split; [|apply Hfail].
    intros h body E. inversion E; subst h. simpl. discriminate.
  - destruct (isHealthCheckBody o) eqn:Eh.
    + left. eexists. exists o. split; [reflexivity|]. simpl.
      rewrite Eh. auto.
    + right. exists ts. split; [exact Hts|]. split.
      * intros h body E. inversion E; subst h. simpl.
        intros E'. inversion E'; subst. exact Eh.
      * unfold catch. rewrite Eh. apply Hfail.
  - right. exists ts. split; [exact Hts|]. split; [|apply Hfail].
    intros h body E. discriminate.
  - right. exists ts. split; [exact Hts|]. split; [|apply Hfail].
    intros h body E. discriminate.
  - right. exists ts. split; [exact Hts|]. split; [|apply Hfail].
    intros h body E. discriminate.
Qed.


Lemma firstSegment_spec (msg : string) :
  countChar " " (firstSegment msg) = 0
  /\ exists rest, msg = firstSegment msg ++ rest
                  /\ (rest = "" \/ exists r, rest = String " " r).
Proof.
  induction msg as [|c msg [IH1 [rest [IH2 IH3]]]]; simpl.
  - split; [reflexivity|]. exists "". auto.
  - destruct (Ascii.eqb c " ") eqn:E; simpl.
    + apply Ascii.eqb_eq in E. subst c.
      split; [reflexivity|]. exists (String " " msg). eauto.
    + rewrite E, IH1. split; [reflexivity|].
      exists rest. rewrite <- IH2. auto.
Qed.

(** The characters before the first space are one string, and [firstSegment]
    computes it. *)
Lemma beforeFirstSpace_firstSegment (msg seg : string) :
  beforeFirstSpace msg seg <-> seg = firstSegment msg.
Proof.
  split; [|intros ->; apply firstSegment_spec].
  revert msg. induction seg as [|c seg IH]; intros msg [H0 [rest [Hm Hr]]].
  - simpl in Hm. subst msg.
    destruct Hr as [-> | [r ->]]; reflexivity.
  - simpl in H0, Hm. subst msg. simpl.
    destruct (Ascii.eqb c " ") eqn:E; [discriminate|].
    f_equal. apply IH. split; [exact H0|]. exists rest. auto.
Qed.

(** X25.  The failure written for a validation error, an HTTP exception
    whose response carries an array of messages, has the message
    "Validation failed" and one detail per message, in order.  The detail
    of a message holds the message as its only constraint, and its field is
    all the characters of the message before its first space, or "unknown"
    when there are none, that is when the message is empty or starts with a
    space. *)
Theorem X25_validation_details
        (now : Z) (h : HttpException) (body : ResponseObject)
        (messages : list string) :
  getResponse h = ResponseObj body ->
  message body = MessageArray messages ->
  isHealthCheckBody body = false ->
  exists timestamp error,
    catch now (ThrownHttp h) =
      Ok (mkOutcome (Some (if (getStatus h >=? 500)%Z then LogError else LogWarn))
                    (Failure (getStatus h) false error timestamp))
    /\ errorMessage error = "Validation failed"
    /\ map constraints (details error) =
       map (fun msg => [("validation", msg)]) messages
    /\ Forall2
         (fun msg d =>
            exists seg,
              beforeFirstSpace msg seg
              /\ field d = (if String.eqb seg "" then "unknown" else seg))
         messages (details error).
Proof.
  intros Hr Hm Hh.
  destruct (catch_cases now (ThrownHttp h))
    as [[h' [body' [E [Hr' [Hh' _]]]]]|[ts [Hts [_ Hc]]]].
  - inversion E; subst h'. rewrite Hr in Hr'. inversion Hr'; subst. congruence.
  - rewrite Hc. simpl. rewrite Hr, Hm. simpl.
    eexists. eexists. split; [reflexivity|]. simpl.
    split; [reflexivity|]. split.
    + rewrite map_map. reflexivity.
    + clear. induction messages as [|msg msgs IH]; simpl; constructor;
        [|exact IH].
      exists (firstSegment msg).
      split; [apply firstSegment_spec|].
      unfold detailOf; simpl.
      destruct (firstSegment msg); reflexivity.
Qed.

(** The theorem of X25 at a validation failure with two messages, the
    second of which starts with a space. *)
Lemma X25_witness :
  exists timestamp error,
    catch 0 validationFailure =
      Ok (mkOutcome (Some LogWarn) (Failure 400 false error timestamp))
    /\ errorMessage error = "Validation failed"
    /\ map constraints (details error) =
       [[("validation", "email must be an email")];
        [("validation", " q must be longer")]]
    /\ Forall2
         (fun msg d =>
            exists seg,
              beforeFirstSpace msg seg
              /\ field d = (if String.eqb seg "" then "unknown" else seg))
         ["email must be an email"; " q must be longer"] (details error).
Proof.
  apply (X25_validation_details
           0
           (mkHttp 400
              (ResponseObj
                 (mkObject false false true false
                    (MessageArray
                       ["email must be an email"; " q must be longer"])))
              "Bad Request Exception")
           _ _ eq_refl eq_refl eq_refl).
Defined.

Lemma answerTo_notFound (now : Z) (email : string) :
  failsWith (answerTo now (CustomerNotFoundException email)) 404
            (customerNotFoundMessage email).
Proof.
  unfold failsWith, answerTo. cbn [thrownOf option_map].
  destruct (catch_cases now (ThrownCustomerNotFound (customerNotFoundMessage email)))
    as [[h [b [E _]]]|[ts [_ [_ Hc]]]]; [discriminate|].
  rewrite Hc. simpl. eauto.
Qed.

Lemma answerTo_rangeError (now : Z) (m : string) :
  failsWith (answerTo now (RangeError m)) 500 m.
Proof.
  unfold failsWith, answerTo. cbn [thrownOf option_map].
  destruct (catch_cases now (ThrownError m))
    as [[h [b [E _]]]|[ts [_ [_ Hc]]]]; [discriminate|].
  rewrite Hc. simpl. eauto.
Qed.

(** X26.  When [GetByEmail] or [Sync] throws one of its own exceptions, the
    filter answers 404 exactly when both lookups resolved to nothing, with a
    message that quotes the normalized email; the only other own exception,
    the RangeError that [Sync] raises on a record with an invalid date, is
    answered 500 with the message "Invalid time value". *)
Theorem X26_not_found_is_answered_404
        (systemA systemB : ICustomerRepository) (email : string) (now : Z) :
  (forall e,
      GetCustomerByEmailUseCase.execute systemA systemB email = Throw e ->
      e <> Rejection ->
      findByEmail systemA (normalized email) = Resolved None
      /\ findByEmail systemB (normalized email) = Resolved None
      /\ failsWith (answerTo now e) 404
                   (customerNotFoundMessage (normalized email)))
  /\ (forall e,
         SyncCustomerUseCase.execute systemA systemB email = Throw e ->
         e <> Rejection ->
         (findByEmail systemA (normalized email) = Resolved None
          /\ findByEmail systemB (normalized email) = Resolved None
          /\ failsWith (answerTo now e) 404
                       (customerNotFoundMessage (normalized email)))
         \/ ((exists a b,
                 findByEmail systemA (normalized email) = Resolved a
                 /\ findByEmail systemB (normalized email) = Resolved b
                 /\ (a <> None \/ b <> None))
             /\ failsWith (answerTo now e) 500 "Invalid time value")).
Proof.
  split; intros e He Hr.
  - destruct (getByEmail_cases systemA systemB email)
      as [[H _]|[[H [Ha Hb]]|[a [b [u [_ [_ [_ [_ H]]]]]]]]]; try congruence.
    rewrite H in He. inversion He; subst e.
    split; [exact Ha|]. split; [exact Hb | apply answerTo_notFound].
  - destruct (sync_cases systemA systemB email)
      as [[H _]|[[H [Ha Hb]]|[a [b [Ea [Eb [Hp [[r H]|H]]]]]]]];
      try congruence.
    + left. rewrite H in He. inversion He; subst e.
      split; [exact Ha|]. split; [exact Hb | apply answerTo_notFound].
    + right. rewrite H in He. inversion He; subst e.
      split; [exists a, b; auto | apply answerTo_rangeError].
Qed.

(** ** The mock of System B *)

Import MockApiController.

Lemma prefix_spec (sub s : string) :
  String.prefix sub s = true <-> exists post, s = sub ++ post.
Proof.
  revert s. induction sub as [|c sub IH]; intros s; destruct s as [|d s]; simpl.
  - split; eauto.
  - split; eauto.
  - split; [discriminate | intros [post H]; discriminate].
  - destruct (ascii_dec c d) as [->|Hne].
    + rewrite IH. split; intros [post H]; exists post; congruence.
    + split; [discriminate | intros [post H]; congruence].
Qed.

(** [includes] is the substring test. *)
Lemma includes_spec (s sub : string) :
  includes s sub = true <-> exists pre post, s = pre ++ sub ++ post.
Proof.
  induction s as [|c s IH].
  - cbn [includes]. rewrite orb_false_r, prefix_spec. split.
    + intros [post H]. exists "", post. exact H.
    + intros [pre [post H]]. destruct pre; simpl in H; [eauto | discriminate].
  - cbn [includes]. rewrite orb_true_iff, prefix_spec, IH. split.
    + intros [[post H]|[pre [post H]]].
      * exists "", post. exact H.
      * exists (String c pre), post. simpl. congruence.
    + intros [pre [post H]]. destruct pre as [|d pre]; simpl in H.
      * left. eauto.
      * right. inversion H. eauto.
Qed.

Lemma toLowerCase_empty (s : string) : toLowerCase s = "" <-> s = "".
Proof. destruct s; simpl; split; congruence. Qed.

Lemma searchIn_filter (data : list MockCustomerB) (query : string) :
  searchIn data query =
  match query with
  | EmptyString => []
  | _ => filter (fun c => includes (toLowerCase (name c)) (toLowerCase query)) data
  end.
Proof. unfold searchIn. destruct query; reflexivity. Qed.

(** X27.  The mock's name search returns, in the order of the table, exactly
    the records whose lower-cased name contains the lower-cased query; an
    empty query returns nothing, and the case of the query does not
    matter. *)
Theorem X27_mock_search_is_a_case_insensitive_substring_filter
        (data : list MockCustomerB) (query : string) :
  (forall c,
      In c (searchIn data query) <->
      In c data
      /\ query <> ""
      /\ exists pre post,
           toLowerCase (name c) = pre ++ toLowerCase query ++ post)
  /\ (exists keep, searchIn data query = filter keep data)
  /\ searchIn data "" = []
  /\ searchIn data (toLowerCase query) = searchIn data query.
Proof.
  rewrite !searchIn_filter. split; [|split; [|split]].
  - intros c. destruct query as [|q qs].
    + simpl. split; [tauto | intros [_ [H _]]; congruence].
    + rewrite filter_In, includes_spec.
      split; [intros [H1 H2] | intros [H1 [_ H2]]]; repeat split;
        try assumption; discriminate.
  - destruct query; [exists (fun _ => false) | eexists; reflexivity].
    induction data; simpl; congruence.
  - reflexivity.
  - destruct query as [|q qs]; [reflexivity|].
    cbn [toLowerCase]. rewrite lowerChar_idempotent, toLowerCase_idempotent.
    reflexivity.
Qed.

Lemma find_first {T : Type} (p : T -> bool) (l : list T) (x : T) :
  find p l = Some x ->
  exists before after,
    l = (before ++ x :: after)%list
    /\ forall y, In y before -> p y = false.
Proof.
  induction l as [|y l IH]; simpl; [discriminate|].
  destruct (p y) eqn:E.
  - intros H. inversion H; subst y. exists [], l.
    split; [reflexivity | intros y []].
  - intros H. destruct (IH H) as [before [after [-> Hb]]].
    exists (y :: before), after. split; [reflexivity|].
    intros z [<- | Hz]; [exact E | apply Hb, Hz].
Qed.

(** X28.  The mock's lookup by email compares lower-cased emails: it sends
    the first record of the table whose email matches the request up to
    case, and throws not-found, with the email as typed in its message,
    exactly when no record matches.  The case of the request does not
    change which record is sent. *)
Theorem X28_mock_lookup_is_case_insensitive
        (data : list MockCustomerB) (requested : string) :
  (forall c,
      getByEmailIn data requested = Sent c ->
      In c data /\ toLowerCase (email c) = toLowerCase requested)
  /\ (forall c,
         getByEmailIn data requested = Sent c ->
         exists before after,
           data = (before ++ c :: after)%list
           /\ forall c', In c' before ->
                         toLowerCase (email c') <> toLowerCase requested)
  /\ (forall m,
         getByEmailIn data requested = NotFoundException m <->
         m = "Customer not found: " ++ requested
         /\ forall c, In c data ->
                      toLowerCase (email c) <> toLowerCase requested)
  /\ (forall c,
         getByEmailIn data (toLowerCase requested) = Sent c <->
         getByEmailIn data requested = Sent c)
  /\ (forall c, getByEmailIn (c :: data) (email c) = Sent c).
Proof.
  unfold getByEmailIn. split; [|split; [|split; [|split]]].
  - intros c.
    destruct (find _ data) as [c'|] eqn:E; [|discriminate].
    intros H. inversion H; subst c'.
    apply find_some in E. rewrite String.eqb_eq in E. exact E.
  - intros c.
    destruct (find _ data) as [c'|] eqn:E; [|discriminate].
    intros H. inversion H; subst c'.
    destruct (find_first _ _ _ E) as [before [after [Hd Hb]]].
    exists before, after. split; [exact Hd|].
    intros c' Hin. apply String.eqb_neq. exact (Hb c' Hin).
  - intros m.
    destruct (find _ data) as [c'|] eqn:E.
    + split; [discriminate|]. intros [_ H]. exfalso.
      apply find_some in E. destruct E as [Hin He].
      apply String.eqb_eq in He. exact (H c' Hin He).
    + split.
      * intros H. inversion H. split; [reflexivity|].
        intros c Hin He.
        pose proof (find_none _ _ E c Hin) as Hn. simpl in Hn.
        apply String.eqb_neq in Hn. contradiction.
      * intros [-> _]. reflexivity.
  - intros c. rewrite toLowerCase_idempotent.
    destruct (find _ data); split; intros H; inversion H; reflexivity.
  - intros c. simpl. rewrite String.eqb_refl. reflexivity.
Qed.

(** ** The two mappers *)

(** X29.  Merging a record read from System A's table with a record read
    from System B's API gives B's phone and address, A's contract fields and
    both identifiers, whatever the dates are.  The phone entry of [fields]
    exists exactly when B's phone is not the empty string and then names
    SYSTEM_B; a contract entry exists exactly when A's column holds a
    non-empty string and then names SYSTEM_A. *)
Theorem X29_merge_of_the_two_mapped_records
        (parseDate : string -> Date)
        (orm : CustomerAEntity.t) (data : SystemBApiResponse.t) :
  exists u,
    merge (Some (CustomerAMapper.toDomain parseDate orm))
          (Some (CustomerBMapper.toDomain parseDate data)) = Ok u
    /\ Unified.email u = normalized (CustomerAEntity.email orm)
    /\ Unified.phone u = Some (SystemBApiResponse.phone data)
    /\ Unified.address u = Some (SystemBApiResponse.address data)
    /\ Unified.contractStartDate u = CustomerAEntity.contractStartDate orm
    /\ Unified.contractType u = CustomerAEntity.contractType orm
    /\ Unified.identifiers u =
       Identifiers.mk (Some (CustomerAEntity.id orm))
                      (Some (SystemBApiResponse.uuid data))
    /\ fieldOf u "phone" =
       (if String.eqb (SystemBApiResponse.phone data) ""
        then None else Some (plain SYSTEM_B))
    /\ fieldOf u "contractStartDate" =
       (if truthy (CustomerAEntity.contractStartDate orm)
        then Some (plain SYSTEM_A) else None)
    /\ fieldOf u "contractType" =
       (if truthy (CustomerAEntity.contractType orm)
        then Some (plain SYSTEM_A) else None).
Proof.
  eexists. split; [reflexivity|].
  split; [reflexivity|]. split; [reflexivity|]. split; [reflexivity|].
  split; [simpl; destruct (CustomerAEntity.contractStartDate orm); reflexivity|].
  split; [simpl; destruct (CustomerAEntity.contractType orm); reflexivity|].
  split; [reflexivity|].
  rewrite fieldOf_phone, fieldOf_contractStartDate, fieldOf_contractType.
  simpl.
  split; [destruct (SystemBApiResponse.phone data); reflexivity|].
  split.
  - destruct (CustomerAEntity.contractStartDate orm) as [[|]|]; reflexivity.
  - destruct (CustomerAEntity.contractType orm) as [[|]|]; reflexivity.
Qed.

(** X30.  Writing a record to System A's table fails exactly when its date
    is invalid.  Reading the written row back keeps the identifier, the
    name, the address and, for a normalized email, the email; it drops the
    phone, sets the source to SYSTEM_A, and turns an absent contract field
    into the empty string. *)
Theorem X30_row_round_trip_is_lossy
        (parseDate : string -> Date) (c : Customer) :
  (Customer.lastUpdated c = InvalidDate <->
   CustomerAMapper.toOrm c = Throw (RangeError "Invalid time value"))
  /\ (forall orm,
         CustomerAMapper.toOrm c = Ok orm ->
         toISOString (Customer.lastUpdated c) = Ok (CustomerAEntity.lastUpdated orm)
         /\ CustomerAMapper.toDomain parseDate orm =
            {| Customer.id := Customer.id c;
               Customer.email := normalized (Customer.email c);
               Customer.name := Customer.name c;
               Customer.address := Customer.address c;
               Customer.phone := None;
               Customer.contractStartDate :=
                 Some (CustomerAMapper.orEmpty (Customer.contractStartDate c));
               Customer.contractType :=
                 Some (CustomerAMapper.orEmpty (Customer.contractType c));
               Customer.lastUpdated := parseDate (CustomerAEntity.lastUpdated orm);
               Customer.source := SYSTEM_A |})
  /\ (forall p orm,
         c = Customer.new p ->
         CustomerAMapper.toOrm c = Ok orm ->
         Customer.email (CustomerAMapper.toDomain parseDate orm) = Customer.email c).
Proof.
  unfold CustomerAMapper.toOrm. split; [|split].
  - destruct (Customer.lastUpdated c) as [t|] eqn:E.
    + destruct (toISOString_valid t) as [s Hs]. rewrite Hs. simpl.
      split; discriminate.
    + simpl. split; reflexivity.
  - intros orm.
    destruct (toISOString (Customer.lastUpdated c)) as [s|e]; simpl;
      [|discriminate].
    intros H. inversion H; subst orm. split; reflexivity.
  - intros p orm ->.
    destruct (toISOString (Customer.lastUpdated (Customer.new p))) as [s|e];
      simpl; [|discriminate].
    intros H. inversion H; subst orm.
    unfold CustomerAMapper.toDomain. simpl.
    apply normalized_idempotent.
Qed.

Example row_round_trip_example :
  exists orm,
    CustomerAMapper.toOrm Samples.customerBNoPhone = Ok orm
    /\ CustomerAEntity.lastUpdated orm = "2024-01-01T00:00:00.000Z"
    /\ Customer.source
         (CustomerAMapper.toDomain (parseAs Samples.d2024) orm) = SYSTEM_A
    /\ Customer.phone
         (CustomerAMapper.toDomain (parseAs Samples.d2024) orm) = None.
Proof. eexists. repeat split; reflexivity. Qed.

Example filter_examples :
  failsWith (answerTo 0 (CustomerNotFoundException "ghost@x.de")) 404
            "Customer with email 'ghost@x.de' not found in any system"
  /\ failsWith (answerTo 0 CustomerMergeService.noData) 500
               "Cannot merge: no customer data from either system"
  /\ answerTo 0 Rejection = None.
Proof.
  split; [|split]; [| |reflexivity];
    unfold failsWith; eexists; eexists; reflexivity.
Qed.

Example mock_examples :
  getByEmail "Max.Mustermann@Example.DE" =
    Sent (mkMock "modern_101" "max.mustermann@example.de" "Max Mustermann"
                 "+49 170 123 4567" "Sonnenallee 1a, 12345 Berlin"
                 "2025-01-10T08:00:00Z")
  /\ getByEmail "ghost@x.de" = NotFoundException "Customer not found: ghost@x.de"
  /\ map uuid (search "MUSTER") = ["modern_101"; "modern_102"]
  /\ search "" = [].
Proof. repeat split; reflexivity. Qed.
